(** * Layered memory retrieval: a shallow embedding of [rag.py], of the
      reflection session of [agents.py] and of the loops around them

    The development follows the Python sources class by class:
    - [UtilityRAG]: three parallel lists (texts, embedding vectors, dates),
      [add_memories], [retrieve_memories], [save_to_file], [load_from_file];
    - [LMRRAG]: three [UtilityRAG] layers with bulk persistence;
    - [Agent.reflect]: the resume check and the reflection session behind
      it; the text-generation service, the prompt texts and the writers of
      JSON and PDF files are parameters;
    - [main.py]: the rounds of its loop; [llm.py]: the retry loop of
      [GPT4O.call].

    Numbers are what the code has: embeddings are vectors of IEEE binary64
    values (numpy's float64, here the primitive floats), dates and the
    slice bounds [n] and [k] are Python integers (here [Z]).  Methods that
    mutate [self] or can raise are written in a small state-and-exception
    monad. *)

From Stdlib Require Import ZArith List Ascii String Floats Lia Permutation Sorted.
From stdpp Require Import base option list sorting strings pretty gmap.

Set Default Proof Using "Type".

(** ** Python exceptions and the state-and-exception monad *)

Inductive exn : Type :=
| EmbeddingFailure      (* the embedder gave up after its retries *)
| ValueError            (* numpy: shapes not aligned / ragged rows *)
| IndexError            (* list index out of range *)
| FileNotFoundError     (* open(..., 'r'/'rb') on a missing path *)
| UnpicklingError       (* pickle.load on bytes that are no pickle *)
| KeyError              (* data['...'] on a dict without that key *)
| AttributeError        (* a method called on None *)
| JSONDecodeError       (* json.loads on malformed text *)
| UnicodeEncodeError    (* a text-mode write of what the codec cannot encode *)
| OverflowError.        (* an integer too large to convert to a float *)

Inductive result (A : Type) : Type :=
| Ok (a : A)
| Raise (e : exn).
Arguments Ok {A} a.
Arguments Raise {A} e.

Definition is_ok {A} (r : result A) : bool :=
  match r with Ok _ => true | Raise _ => false end.

(** A computation over a mutable state [S]: the final state is returned
    also when an exception escapes, as in Python. *)
Definition M (S A : Type) : Type := S -> S * result A.

Definition ret {S A} (a : A) : M S A := fun s => (s, Ok a).
Definition bind {S A B} (c : M S A) (k : A -> M S B) : M S B :=
  fun s => match c s with
           | (s', Ok a) => k a s'
           | (s', Raise e) => (s', Raise e)
           end.
Definition get {S} : M S S := fun s => (s, Ok s).
Definition modify {S} (f : S -> S) : M S unit := fun s => (f s, Ok tt).
Definition lift {S A} (r : result A) : M S A := fun s => (s, r).

Declare Scope py_scope.
Delimit Scope py_scope with py.
Notation "x <- c ;; k" := (bind c (fun x => k))
  (at level 100, c at next level, right associativity) : py_scope.
Notation "c ;;; k" := (bind c (fun _ => k))
  (at level 100, right associativity) : py_scope.
Notation "'unpack' p <- c ;; k" := (bind c (fun x => match x with p => k end))
  (at level 100, p pattern, c at next level, right associativity) : py_scope.

(** [try: c except Exception: return False] / [return True] at the end. *)
Definition try_bool {S} (c : M S unit) : M S bool :=
  fun s => match c s with
           | (s', Ok _) => (s', Ok true)
           | (s', Raise _) => (s', Ok false)
           end.

(** Running a computation of a component inside a larger state. *)
Definition zoom {S T A} (proj : T -> S) (upd : S -> T -> T) (c : M S A) : M T A :=
  fun t => match c (proj t) with (s', r) => (upd s' t, r) end.

(** ** Python list slices and indexing *)

(** [l[i]] for a non-negative index. *)
Definition py_index {A} (l : list A) (i : nat) : result A :=
  match l !! i with
  | Some x => Ok x
  | None => Raise IndexError
  end.

(** [l[-k:]].  A negative start counts from the end and is clipped at the
    front; [l[-0:]] is [l[0:]], the whole list. *)
Definition slice_last {A} (k : Z) (l : list A) : list A :=
  if (0 <? k)%Z then drop (Z.to_nat (Z.of_nat (length l) - k)) l
  else drop (Z.to_nat (- k)) l.

(** [l[:n]].  A negative stop counts from the end. *)
Definition slice_first {A} (n : Z) (l : list A) : list A :=
  if (0 <=? n)%Z then take (Z.to_nat n) l
  else take (Z.to_nat (Z.of_nat (length l) + n)) l.

(** ** Sorting as the libraries do it *)

(** Insertion into a sorted prefix kept in reverse (greatest first): the new
    element moves left past every element it is strictly less than. *)
Fixpoint insert_from_right {A} (less : A -> A -> bool) (x : A) (r : list A) : list A :=
  match r with
  | [] => [x]
  | y :: r' => if less x y then y :: insert_from_right less x r' else x :: r
  end.

(** The insertion sort numpy's [quicksort] kind runs on short ranges; it is
    stable: equal elements keep their order. *)
Definition insertion_sort {A} (less : A -> A -> bool) (l : list A) : list A :=
  rev (fold_left (fun r x => insert_from_right less x r) l []).

(** numpy's order on float64 for sorting: NaN goes last. *)
Definition np_less (a b : float) : bool :=
  (a <? b)%float || (is_nan b && negb (is_nan a)).

(** The order on pairs of index and value that [argsort] sorts by: by value,
    and among equal values by the [rank] of the index. *)
Definition pair_less (rank : nat -> nat) (p q : nat * float) : bool :=
  np_less p.2 q.2 || (negb (np_less q.2 p.2) && (rank p.1 <? rank q.1)).

(** [np.argsort(a)] with the default kind: the indices that sort [a]
    ascending.  numpy's kernel sorts a range by insertion unless its two ends
    are more than 16 apart, so an array of fewer than 18 elements comes out
    with equal values in index order.  From 18 elements on the kernel
    partitions first, and the order in which it leaves equal values is not
    promised (the default kind is not stable): [tie_rank a i] stands for the
    place that numpy's answer for [a] gives index [i] among the indices of
    equal value.  Every permutation of the indices that sorts [a] is the
    answer for some [tie_rank] (lemma [argsort_any_order] below), and every
    answer is such a permutation ([argsort_perm], [argsort_sorted]). *)
Definition argsort (tie_rank : list float -> nat -> nat) (a : list float) : list nat :=
  let rank := if length a <? 18 then (fun _ => 0) else tie_rank a in
  (insertion_sort (pair_less rank) (imap pair a)).*1.

(** Python's [sorted(l, key=..., reverse=True)] on already computed integer
    keys: descending, and stable (equal keys keep their order in [l]). *)
Fixpoint insert_desc {A} (key : A -> Z) (x : A) (l : list A) : list A :=
  match l with
  | [] => [x]
  | y :: l' => if (key x <? key y)%Z then y :: insert_desc key x l' else x :: l
  end.

Definition sorted_desc {A} (key : A -> Z) (l : list A) : list A :=
  foldr (insert_desc key) [] l.

(** ** Cosine similarity, as numpy computes it *)

(** The sums run left to right; numpy may add in another order, which can
    change the last bits of a sum but no zero, NaN or shape. *)
Definition dot (a b : list float) : float :=
  fold_left (fun acc p => (acc + p.1 * p.2)%float) (zip a b) 0%float.

Definition norm (a : list float) : float :=
  sqrt (fold_left (fun acc x => (acc + x * x)%float) a 0%float).

(** [np.dot(E, q) / (np.linalg.norm(E, axis=1) * np.linalg.norm(q))].
    The rows of [E] must all have the length of [q]; an empty [E] has no
    second axis.  The division is the plain IEEE one. *)
Definition similarities (E : list (list float)) (q : list float) : result (list float) :=
  match E with
  | [] => Raise ValueError
  | _ =>
    if forallb (fun e => Nat.eqb (length e) (length q)) E
    then Ok (map (fun e => (dot e q / (norm e * norm q))%float) E)
    else Raise ValueError
  end.

(** ** UtilityRAG *)

Record UtilityRAG : Type := mkRAG {
  memories : list string;
  memory_embeddings : list (list float);
  memory_dates : list Z
}.

(** [UtilityRAG.__init__] *)
Definition UtilityRAG_init : UtilityRAG := mkRAG [] [] [].

(** What [retrieve_memories] puts in its result list: a dict with the text
    only, or with date, text and embedding. *)
Inductive hit : Type :=
| JustText (text : string)
| FullHit (date : Z) (text : string) (embedding : list float).

Definition hit_text (h : hit) : string :=
  match h with JustText t => t | FullHit _ t _ => t end.

(** A loop that appends [f x] for each [x], stopping at the first raise. *)
Fixpoint map_result {A B} (f : A -> result B) (l : list A) : result (list B) :=
  match l with
  | [] => Ok []
  | x :: l' =>
    match f x with
    | Raise e => Raise e
    | Ok y => match map_result f l' with
              | Raise e => Raise e
              | Ok ys => Ok (y :: ys)
              end
    end
  end.

(** [np.argsort(similarities)[-k:][::-1]] *)
Definition top_k_indices (tie_rank : list float -> nat -> nat)
    (sims : list float) (k : Z) : list nat :=
  rev (slice_last k (argsort tie_rank sims)).

(** [sorted(top_k, key=lambda i: dates[i], reverse=True)[:n]]: the keys are
    computed first (an index outside [dates] raises), then the list is
    sorted and cut. *)
Definition top_n_indices (dates : list Z) (top_k : list nat) (n : Z) : result (list nat) :=
  match map_result (fun i => py_index dates i) top_k with
  | Raise e => Raise e
  | Ok keys => Ok (slice_first n (sorted_desc snd (zip top_k keys))).*1
  end.

Section Embedder.

(** The order numpy leaves among equal similarities, see [argsort]. *)
Variable tie_rank : list float -> nat -> nat.

(** [self.embedding_model.embed]: an external service; [Raise] when its
    retries are exhausted. *)
Variable embed : string -> result (list float).

(** [UtilityRAG.add_memories]: the loop over [zip(texts, dates)]. *)
Fixpoint add_loop (pairs : list (string * Z)) : M UtilityRAG unit :=
  match pairs with
  | [] => ret tt
  | (text, date) :: rest =>
    (embedding <- lift (embed text) ;;
     modify (fun s => mkRAG (memories s ++ [text])
                            (memory_embeddings s ++ [embedding])
                            (memory_dates s ++ [date])) ;;;
     add_loop rest)%py
  end.

Definition add_memories (texts : list string) (dates : list Z) : M UtilityRAG unit :=
  add_loop (zip texts dates).

(** The indices [top_n_indices] of [retrieve_memories], in result order. *)
Definition retrieve_indices (query_text : string) (n k : Z) : M UtilityRAG (list nat) :=
  (s <- get ;;
   query_embedding <- lift (embed query_text) ;;
   sims <- lift (similarities (memory_embeddings s) query_embedding) ;;
   lift (top_n_indices (memory_dates s) (top_k_indices tie_rank sims k) n))%py.

Definition make_hit (s : UtilityRAG) (just_text : bool) (idx : nat) : result hit :=
  if just_text then
    match py_index (memories s) idx with
    | Ok t => Ok (JustText t)
    | Raise e => Raise e
    end
  else
    match py_index (memory_dates s) idx with
    | Raise e => Raise e
    | Ok d =>
      match py_index (memories s) idx with
      | Raise e => Raise e
      | Ok t =>
        match py_index (memory_embeddings s) idx with
        | Raise e => Raise e
        | Ok v => Ok (FullHit d t v)
        end
      end
    end.

(** [UtilityRAG.retrieve_memories] *)
Definition retrieve_memories (query_text : string) (n k : Z) (just_text : bool)
  : M UtilityRAG (list hit) :=
  (s <- get ;;
   match memories s with
   | [] => ret []
   | _ =>
     top_n <- retrieve_indices query_text n k ;;
     lift (map_result (make_hit s just_text) top_n)
   end)%py.

End Embedder.

(** [UtilityRAG.write]: one block per record, joined by newlines. *)
Definition newline : string := String "010"%char "".

Definition write_block (p : Z * string) : string :=
  "Date: " +:+ pretty p.1 +:+ newline +:+ "Memory: " +:+ p.2 +:+ newline.

Definition write (s : UtilityRAG) : string :=
  String.concat newline (map write_block (zip (memory_dates s) (memories s))).

(** ** Persistence *)

(** The dict that [save_to_file] pickles.  A blob found on disk may
    unpickle to a dict that lacks some of the keys. *)
Record pickled : Type := mkPickled {
  p_memories : option (list string);
  p_memory_embeddings : option (list (list float));
  p_memory_dates : option (list Z)
}.

(** [data['key']] *)
Definition dict_get {A} (v : option A) : result A :=
  match v with
  | Some x => Ok x
  | None => Raise KeyError
  end.

(** [os.path.join(a, b)] (POSIX). *)
Definition ends_with_slash (a : string) : bool :=
  match rev (list_ascii_of_string a) with
  | c :: _ => Ascii.eqb c "/"%char
  | [] => false
  end.

Definition path_join (a b : string) : string :=
  if String.prefix "/" b then b
  else if String.eqb a "" || ends_with_slash a then a +:+ b
  else a +:+ "/" +:+ b.

Section Pickle.

(** File contents, and the [pickle] codec between dicts and contents.
    [pickle.load] raises on contents that are no pickle. *)
Variable bytes : Type.
Variable pickle_dumps : pickled -> bytes.
Variable pickle_loads : bytes -> result pickled.

(** The persistence medium: a path-indexed store of contents. *)
Abbreviation fs := (gmap string bytes).

(** [open(filename, 'rb')] and read everything. *)
Definition read_file {S} (files : S -> fs) (filename : string) : M S bytes :=
  fun w => match files w !! filename with
           | Some b => (w, Ok b)
           | None => (w, Raise FileNotFoundError)
           end.

Definition set_memories (m : list string) (s : UtilityRAG) : UtilityRAG :=
  mkRAG m (memory_embeddings s) (memory_dates s).
Definition set_memory_embeddings (e : list (list float)) (s : UtilityRAG) : UtilityRAG :=
  mkRAG (memories s) e (memory_dates s).
Definition set_memory_dates (d : list Z) (s : UtilityRAG) : UtilityRAG :=
  mkRAG (memories s) (memory_embeddings s) d.

Definition on_rag (f : UtilityRAG -> UtilityRAG) : M (UtilityRAG * fs) unit :=
  modify (fun w => (f w.1, w.2)).

(** The dict literal of [save_to_file]. *)
Definition state_dict (s : UtilityRAG) : pickled :=
  mkPickled (Some (memories s)) (Some (memory_embeddings s)) (Some (memory_dates s)).

(** [UtilityRAG.save_to_file] *)
Definition save_to_file (filename : string) : M (UtilityRAG * fs) unit :=
  modify (fun w => (w.1, <[filename := pickle_dumps (state_dict w.1)]> w.2)).

(** [UtilityRAG.load_from_file]: the three attributes are assigned one
    after the other, each after its key has been looked up. *)
Definition load_from_file (filename : string) : M (UtilityRAG * fs) unit :=
  (b <- read_file snd filename ;;
   data <- lift (pickle_loads b) ;;
   m <- lift (dict_get (p_memories data)) ;;
   on_rag (set_memories m) ;;;
   e <- lift (dict_get (p_memory_embeddings data)) ;;
   on_rag (set_memory_embeddings e) ;;;
   d <- lift (dict_get (p_memory_dates data)) ;;
   on_rag (set_memory_dates d))%py.

(** ** LMRRAG *)

Record LMRRAG : Type := mkLMR {
  facts : UtilityRAG;
  reflections : UtilityRAG;
  deep_reflections : UtilityRAG;
  output_dir : string
}.

(** [LMRRAG.__init__] *)
Definition LMRRAG_init (dir : string) : LMRRAG :=
  mkLMR UtilityRAG_init UtilityRAG_init UtilityRAG_init dir.

Definition set_facts (s : UtilityRAG) (l : LMRRAG) : LMRRAG :=
  mkLMR s (reflections l) (deep_reflections l) (output_dir l).
Definition set_reflections (s : UtilityRAG) (l : LMRRAG) : LMRRAG :=
  mkLMR (facts l) s (deep_reflections l) (output_dir l).
Definition set_deep_reflections (s : UtilityRAG) (l : LMRRAG) : LMRRAG :=
  mkLMR (facts l) (reflections l) s (output_dir l).

(** The three layers. *)
Inductive layer : Type := Facts | Reflections | DeepReflections.

Definition get_layer (y : layer) : LMRRAG -> UtilityRAG :=
  match y with
  | Facts => facts
  | Reflections => reflections
  | DeepReflections => deep_reflections
  end.

Definition set_layer (y : layer) : UtilityRAG -> LMRRAG -> LMRRAG :=
  match y with
  | Facts => set_facts
  | Reflections => set_reflections
  | DeepReflections => set_deep_reflections
  end.

Definition layer_file (y : layer) : string :=
  match y with
  | Facts => "facts.pkl"
  | Reflections => "reflections.pkl"
  | DeepReflections => "deep_reflections.pkl"
  end.

(** [self.<layer>.method(...)] for a method that only touches the layer. *)
Definition in_layer {A} (y : layer) (c : M UtilityRAG A) : M LMRRAG A :=
  zoom (get_layer y) (set_layer y) c.

(** [self.<layer>.method(...)] for a method that also touches files. *)
Definition in_layer_fs {A} (y : layer) (c : M (UtilityRAG * fs) A) : M (LMRRAG * fs) A :=
  zoom (fun w => (get_layer y w.1, w.2))
       (fun w' w => (set_layer y w'.1 w.1, w'.2)) c.

Definition or_default (o : option string) (d : string) : string :=
  match o with Some x => x | None => d end.

(** [LMRRAG.save_to_file] into a directory that can be made: what
    [os.makedirs] does there does not show in a flat store.  (The empty name
    is refused, see [makedirs]; [write_and_save] meets that first.) *)
Definition LMRRAG_save_to_file (dir : option string) : M (LMRRAG * fs) unit :=
  (w <- get ;;
   let save_dir := or_default dir (output_dir w.1) in
   in_layer_fs Facts (save_to_file (path_join save_dir (layer_file Facts))) ;;;
   in_layer_fs Reflections (save_to_file (path_join save_dir (layer_file Reflections))) ;;;
   in_layer_fs DeepReflections
     (save_to_file (path_join save_dir (layer_file DeepReflections))))%py.

(** [LMRRAG.load_from_file] *)
Definition LMRRAG_load_from_file (dir : option string) : M (LMRRAG * fs) bool :=
  try_bool
    (w <- get ;;
     let load_dir := or_default dir (output_dir w.1) in
     in_layer_fs Facts (load_from_file (path_join load_dir (layer_file Facts))) ;;;
     in_layer_fs Reflections
       (load_from_file (path_join load_dir (layer_file Reflections))) ;;;
     in_layer_fs DeepReflections
       (load_from_file (path_join load_dir (layer_file DeepReflections))))%py.

Section LayerAccess.

Variable tie_rank : list float -> nat -> nat.
Variable embed : string -> result (list float).

(** [LMRRAG.add_facts], [add_reflections], [add_deep_reflections] *)
Definition add_facts (texts : list string) (dates : list Z) : M LMRRAG unit :=
  in_layer Facts (add_memories embed texts dates).
Definition add_reflections (texts : list string) (dates : list Z) : M LMRRAG unit :=
  in_layer Reflections (add_memories embed texts dates).
Definition add_deep_reflections (texts : list string) (dates : list Z) : M LMRRAG unit :=
  in_layer DeepReflections (add_memories embed texts dates).

(** [LMRRAG.get_facts], [get_reflections], [get_deep_reflections] *)
Definition get_facts (query_text : string) (n k : Z) : M LMRRAG (list hit) :=
  in_layer Facts (retrieve_memories tie_rank embed query_text n k true).
Definition get_reflections (query_text : string) (n k : Z) : M LMRRAG (list hit) :=
  in_layer Reflections (retrieve_memories tie_rank embed query_text n k true).
Definition get_deep_reflections (query_text : string) (n k : Z) : M LMRRAG (list hit) :=
  in_layer DeepReflections (retrieve_memories tie_rank embed query_text n k true).

End LayerAccess.

End Pickle.

Arguments read_file {bytes S} files filename.
Arguments on_rag {bytes} f.
Arguments save_to_file {bytes} pickle_dumps filename.
Arguments load_from_file {bytes} pickle_loads filename.
Arguments in_layer_fs {bytes A} y c.
Arguments LMRRAG_save_to_file {bytes} pickle_dumps dir.
Arguments LMRRAG_load_from_file {bytes} pickle_loads dir.

(** ** Strings as Python slices them *)

(** [s.find(c)]: the first position of [c], or -1. *)
Fixpoint find_from (c : ascii) (l : list ascii) (i : Z) : Z :=
  match l with
  | [] => (-1)%Z
  | x :: l' => if Ascii.eqb x c then i else find_from c l' (i + 1)%Z
  end.

Definition py_find (c : ascii) (s : string) : Z :=
  find_from c (list_ascii_of_string s) 0%Z.

(** [s.rfind(c)]: the last position of [c], or -1. *)
Definition py_rfind (c : ascii) (s : string) : Z :=
  let l := list_ascii_of_string s in
  match find_from c (rev l) 0%Z with
  | Zneg _ => (-1)%Z
  | i => (Z.of_nat (length l) - 1 - i)%Z
  end.

(** A slice bound, brought into [0, len]. *)
Definition clip_bound (len : nat) (i : Z) : nat :=
  if (i <? 0)%Z then Z.to_nat (Z.of_nat len + i)
  else Nat.min (Z.to_nat i) len.

(** [s[a:b]] *)
Definition py_slice (a b : Z) (s : string) : string :=
  let l := list_ascii_of_string s in
  let a' := clip_bound (length l) a in
  let b' := clip_bound (length l) b in
  string_of_list_ascii (take (b' - a') (drop a' l)).

(** [s[s.find('{'):s.rfind('}')+1]] *)
Definition slice_braces (s : string) : string :=
  py_slice (py_find "{"%char s) (py_rfind "}"%char s + 1)%Z s.

(** ** Agent *)

(** A chat message: role and content. *)
Definition message : Type := string * string.

Record Agent : Type := mkAgent {
  agent_output_dir : string;
  config_name : string;
  config_description : string;
  self_rag : LMRRAG;
  counterpart_rag : LMRRAG;
  description_of_self : string;
  description_of_counterpart : string;
  counterpart_name : string;
  (* not set by [__init__]: the attribute exists once it has been assigned *)
  counterpart_description : option string
}.

Definition set_self_rag (l : LMRRAG) (a : Agent) : Agent :=
  mkAgent (agent_output_dir a) (config_name a) (config_description a) l
          (counterpart_rag a) (description_of_self a) (description_of_counterpart a)
          (counterpart_name a) (counterpart_description a).
Definition set_counterpart_rag (l : LMRRAG) (a : Agent) : Agent :=
  mkAgent (agent_output_dir a) (config_name a) (config_description a) (self_rag a)
          l (description_of_self a) (description_of_counterpart a)
          (counterpart_name a) (counterpart_description a).
Definition set_config_description (d : string) (a : Agent) : Agent :=
  mkAgent (agent_output_dir a) (config_name a) d (self_rag a)
          (counterpart_rag a) (description_of_self a) (description_of_counterpart a)
          (counterpart_name a) (counterpart_description a).
Definition set_counterpart_description (d : string) (a : Agent) : Agent :=
  mkAgent (agent_output_dir a) (config_name a) (config_description a) (self_rag a)
          (counterpart_rag a) (description_of_self a) (description_of_counterpart a)
          (counterpart_name a) (Some d).

(** [Agent.__init__] *)
Definition Agent_init (dir name description cp_name cp_description : string) : Agent :=
  mkAgent dir name description
          (LMRRAG_init (dir +:+ "/" +:+ name +:+ "_self_rag"))
          (LMRRAG_init (dir +:+ "/" +:+ name +:+ "_counterpart_rag"))
          description cp_description cp_name None.

(** The paths [reflect] computes from the session's date. *)
Definition reflection_dir (a : Agent) (date_int : Z) (leaf : string) : string :=
  path_join (path_join (path_join (agent_output_dir a) "reflections")
                       (pretty date_int +:+ "_reflection"))
            (config_name a +:+ leaf).

Definition transcript_dir (a : Agent) : string :=
  path_join (agent_output_dir a) "transcripts".
Definition ref_output_dir (a : Agent) (date_int : Z) : string :=
  reflection_dir a date_int "_refs".
Definition rag_output_dir_self (a : Agent) (date_int : Z) : string :=
  reflection_dir a date_int "_self_rags".
Definition rag_output_dir_counter (a : Agent) (date_int : Z) : string :=
  reflection_dir a date_int "_counter_rags".
Definition transcript_dir_json_path (a : Agent) (date_int : Z) : string :=
  path_join (transcript_dir a)
            (pretty date_int +:+ "_" +:+ config_name a
               +:+ "_consciousness_reflection_transcript.json").

Section Session.

Variable tie_rank : list float -> nat -> nat.
Variable embed : string -> result (list float).
Variable bytes : Type.
Variable pickle_dumps : pickled -> bytes.
Variable pickle_loads : bytes -> result pickled.

(** The text-generation service, the prompt texts, the JSON and PDF
    libraries and the text codec of files: everything [reflect] calls
    outside the memory classes. *)
Record collaborators : Type := mkCollaborators {
  (* llm_obj.call: None when all retries failed *)
  llm_call : list message -> option string;
  (* str.strip *)
  py_strip : string -> string;
  (* text-mode files: what a text is written as (a text with a lone
     surrogate cannot be), what is read back, and a file without content *)
  encode_text : string -> result bytes;
  decode_text : bytes -> result string;
  empty_file : bytes;
  (* json.loads and the lookup of the keys, per response format *)
  loads_facts_reflections : string -> result (list string * list string);
  loads_questions : string -> result (list string);
  (* json.dump(..., indent=2) *)
  dump_json : list (string * option string) -> bytes;
  (* utils.create_conversation_pdf_from_messages / create_conversation_pdf:
     what they put in the file for these entries and this title *)
  pdf_from_messages : list (string * option string) -> string -> result bytes;
  pdf_from_transcript : list (string * option string) -> string -> result bytes;
  (* the prompt texts, as functions of what their f-strings splice in *)
  facts_system_prompt : string -> string -> string;
  facts_prompt : string -> string -> string;
  questions_system_prompt : string -> string -> string;
  questions_prompt : string -> string -> string -> bool -> string;
  answer_system_prompt : string -> string -> string;
  answer_prompt : string -> string -> string -> list hit -> list hit -> bool -> string;
  update_system_prompt : string;
  update_user_prompt : string -> string -> string -> string;
  consciousness_system_prompt : string -> string -> Z -> string;
  consciousness_prompt_0 : string -> string -> string -> string;
  consciousness_prompt_1 : string -> string -> Z -> string;
  (* the summary f-string with its json.dumps *)
  summary_text : string -> string -> list string -> list string -> list string ->
                 list string -> list (string * string) -> list (string * string) -> string
}.

Variable X : collaborators.

Abbreviation fs := (gmap string bytes).

(** The agent, the files, and the conversations sent to the
    text-generation service so far. *)
Record world : Type := mkWorld {
  agent : Agent;
  files : fs;
  llm_log : list (list message)
}.

Definition on_agent (f : Agent -> Agent) : M world unit :=
  modify (fun w => mkWorld (f (agent w)) (files w) (llm_log w)).

(** [with open(path, 'w') as f: f.write(...)], also the writers of PDF
    and JSON files. *)
Definition write_file (path : string) (b : bytes) : M world unit :=
  modify (fun w => mkWorld (agent w) (<[path := b]> (files w)) (llm_log w)).

(** [with open(path, 'w') as f: f.write(s)]: opening empties the file, and
    it stays empty when the text cannot be encoded. *)
Definition write_text (path : string) (s : string) : M world unit :=
  (write_file path (empty_file X) ;;;
   b <- lift (encode_text X s) ;;
   write_file path b)%py.

(** [os.makedirs(dir, exist_ok=True)]: a directory does not show in a flat
    store of files, but the empty name is refused. *)
Definition makedirs (dir : string) : M world unit :=
  if String.eqb dir "" then lift (Raise FileNotFoundError) else ret tt.

(** [with open(path, 'r') as f: f.read()] *)
Definition read_text (path : string) : M world string :=
  (b <- read_file files path ;; lift (decode_text X b))%py.

(** [self.llm_obj.call(convos)] *)
Definition call_llm (convos : list message) : M world (option string) :=
  fun w => (mkWorld (agent w) (files w) (llm_log w ++ [convos]), Ok (llm_call X convos)).

(** A method call on the response: [None] has no [find] and no [strip]. *)
Definition as_str (r : option string) : result string :=
  match r with
  | Some s => Ok s
  | None => Raise AttributeError
  end.

(** [self.self_rag] or [self.counterpart_rag], with and without files. *)
Definition the_rag (is_self : bool) : Agent -> LMRRAG :=
  if is_self then self_rag else counterpart_rag.
Definition set_the_rag (is_self : bool) : LMRRAG -> Agent -> Agent :=
  if is_self then set_self_rag else set_counterpart_rag.

Definition in_rag {A} (is_self : bool) (c : M LMRRAG A) : M world A :=
  zoom (fun w => the_rag is_self (agent w))
       (fun l w => mkWorld (set_the_rag is_self l (agent w)) (files w) (llm_log w)) c.

Definition in_rag_fs {A} (is_self : bool) (c : M (LMRRAG * fs) A) : M world A :=
  zoom (fun w => (the_rag is_self (agent w), files w))
       (fun p w => mkWorld (set_the_rag is_self p.1 (agent w)) p.2 (llm_log w)) c.

(** [LMRRAG.write_and_save] of one of the agent's two memories. *)
Definition write_and_save (is_self : bool) (dir : option string) : M world unit :=
  (w <- get ;;
   let l := the_rag is_self (agent w) in
   let save_dir := or_default dir (output_dir l) in
   makedirs save_dir ;;;
   write_text (path_join save_dir "facts.txt") (write (facts l)) ;;;
   write_text (path_join save_dir "reflections.txt") (write (reflections l)) ;;;
   write_text (path_join save_dir "deep_reflections.txt") (write (deep_reflections l)) ;;;
   in_rag_fs is_self (LMRRAG_save_to_file pickle_dumps (Some save_dir)))%py.

(** Entries whose content may be [None] (a failed call's response). *)
Definition entries (msgs : list message) : list (string * option string) :=
  map (fun m => (m.1, Some m.2)) msgs.

Definition create_conversation_pdf_from_messages
    (msgs : list (string * option string)) (title path : string) : M world unit :=
  (b <- lift (pdf_from_messages X msgs title) ;; write_file path b)%py.

Definition create_conversation_pdf
    (convo : list (string * option string)) (title path : string) : M world unit :=
  (b <- lift (pdf_from_transcript X convo title) ;; write_file path b)%py.

Definition subject_name (a : Agent) (is_self : bool) : string :=
  if is_self then config_name a else counterpart_name a.

(** [Agent._generate_facts_and_reflections] *)
Definition generate_facts_and_reflections (transcript : string) (is_self : bool)
  : M world (list string * list string * list message) :=
  (w <- get ;;
   let a := agent w in
   let convos :=
     [("system", facts_system_prompt X (config_name a) (counterpart_name a));
      ("user", facts_prompt X (subject_name a is_self) transcript)] in
   r <- call_llm convos ;;
   llm_response <- lift (as_str r) ;;
   let llm_response := slice_braces llm_response in
   parsed <- lift (loads_facts_reflections X llm_response) ;;
   ret (parsed.1, parsed.2, convos ++ [("assistant", llm_response)]))%py.

(** [Agent._generate_deep_reflection_questions] *)
Definition generate_deep_reflection_questions (transcript : string) (is_self : bool)
  : M world (list string * list message) :=
  (w <- get ;;
   let a := agent w in
   let convos :=
     [("system", questions_system_prompt X (config_name a) (counterpart_name a));
      ("user", questions_prompt X (subject_name a is_self) (counterpart_name a)
                                transcript is_self)] in
   r <- call_llm convos ;;
   llm_response <- lift (as_str r) ;;
   let llm_response := slice_braces llm_response in
   questions <- lift (loads_questions X llm_response) ;;
   ret (questions, convos ++ [("assistant", llm_response)]))%py.

(** [Agent._generate_deep_reflection_answer] *)
Definition generate_deep_reflection_answer
    (question : string) (refl deep : list hit) (is_self : bool)
  : M world (string * list message) :=
  (w <- get ;;
   let a := agent w in
   let convos :=
     [("system", answer_system_prompt X (config_name a) (subject_name a is_self));
      ("user", answer_prompt X (subject_name a is_self) (counterpart_name a)
                             question refl deep is_self)] in
   r <- call_llm convos ;;
   llm_response <- lift (as_str r) ;;
   ret (py_strip X llm_response, convos ++ [("assistant", llm_response)]))%py.

(** The loop of [Agent._process_deep_reflections]: each answer is stored
    before the next question is asked. *)
Fixpoint answer_questions (date_int : Z) (is_self : bool) (questions : list string)
  : M world (list (list message) * list string) :=
  match questions with
  | [] => ret ([], [])
  | question :: rest =>
    (refl <- in_rag is_self (get_reflections tie_rank embed question 3 10) ;;
     deep <- in_rag is_self (get_deep_reflections tie_rank embed question 3 10) ;;
     ans <- generate_deep_reflection_answer question refl deep is_self ;;
     in_rag is_self (add_deep_reflections embed [ans.1] [date_int]) ;;;
     more <- answer_questions date_int is_self rest ;;
     ret (ans.2 :: more.1, ans.1 :: more.2))%py
  end.

(** [Agent._process_deep_reflections] *)
Definition process_deep_reflections (transcript : string) (date_int : Z) (is_self : bool)
  : M world (list string * list message * list (list message) * list string) :=
  (q <- generate_deep_reflection_questions transcript is_self ;;
   r <- answer_questions date_int is_self q.1 ;;
   ret (q.1, q.2, r.1, r.2))%py.

(** [Agent._update_descriptions] *)
Definition update_descriptions (summary : string) (is_self : bool)
  : M world (string * list message) :=
  (w <- get ;;
   let a := agent w in
   let subject := if is_self then "self" else "counterpart" in
   let current_description :=
     if is_self then config_description a else description_of_counterpart a in
   let convos :=
     [("system", update_system_prompt X);
      ("user", update_user_prompt X subject current_description summary)] in
   r <- call_llm convos ;;
   response <- lift (as_str r) ;;
   let updated_description := py_strip X response in
   on_agent (if is_self then set_config_description updated_description
             else set_counterpart_description updated_description) ;;;
   ret (updated_description, convos ++ [("assistant", updated_description)]))%py.

(** [Agent._generate_consciousness_reflection]: the response is passed on
    as it came, also when it is [None]. *)
Definition generate_consciousness_reflection (summary : string) (current_year : Z)
  : M world (list (string * option string) * list (string * option string)) :=
  (w <- get ;;
   let a := agent w in
   let prompt_1 := consciousness_prompt_1 X (config_name a) (counterpart_name a)
                                          current_year in
   let convos :=
     [("system", consciousness_system_prompt X (config_name a) (counterpart_name a)
                                             current_year);
      ("user", consciousness_prompt_0 X (config_name a) (counterpart_name a) summary);
      ("user", prompt_1)] in
   llm_response <- call_llm convos ;;
   ret (entries convos ++ [("assistant", llm_response)],
        [("consciousness", Some prompt_1); (config_name a, llm_response)]))%py.

(** The PDFs of the answer conversations, numbered from 1. *)
Fixpoint answer_pdfs (dir stem : string) (i : nat) (convos : list (list message))
  : M world unit :=
  match convos with
  | [] => ret tt
  | convo :: rest =>
    let title := stem +:+ pretty (Z.of_nat i + 1)%Z in
    (create_conversation_pdf_from_messages (entries convo) title
       (path_join dir (title +:+ ".pdf")) ;;;
     answer_pdfs dir stem (S i) rest)%py
  end.

(** The branch of [reflect] taken when both memories were loaded. *)
Definition already_done (date_int : Z) : M world string :=
  (w <- get ;;
   let a := agent w in
   let ref_dir := ref_output_dir a date_int in
   d <- read_text (path_join ref_dir (config_name a +:+ "_updated_description.txt")) ;;
   on_agent (set_config_description (py_strip X d)) ;;;
   d <- read_text (path_join ref_dir (counterpart_name a +:+ "_updated_description.txt")) ;;
   on_agent (set_counterpart_description (py_strip X d)) ;;;
   on_agent (fun a => set_config_description (description_of_self a) a) ;;;
   ret (transcript_dir_json_path a date_int))%py.

(** The rest of [reflect]: the session proper. *)
Definition run_session (transcript : string) (current_year date_int : Z) : M world string :=
  (w <- get ;;
   let a := agent w in
   let name := config_name a in
   let cp := counterpart_name a in
   let ref_dir := ref_output_dir a date_int in
   let in_ref (f : string) := path_join ref_dir f in
   (* Generate facts and reflections *)
   unpack (self_facts, self_reflections, self_convo) <-
      generate_facts_and_reflections transcript true ;;
   unpack (cp_facts, cp_reflections, cp_convo) <-
      generate_facts_and_reflections transcript false ;;
   create_conversation_pdf_from_messages (entries self_convo)
     (name +:+ "s_fact_refs_about_self")
     (in_ref (name +:+ "s_fact_refs_about_self.pdf")) ;;;
   create_conversation_pdf_from_messages (entries cp_convo)
     (name +:+ "s_fact_refs_about_" +:+ cp)
     (in_ref (name +:+ "s_fact_refs_about_" +:+ cp +:+ ".pdf")) ;;;
   (* Add to RAGs *)
   in_rag true (add_facts embed self_facts (replicate (length self_facts) date_int)) ;;;
   in_rag true (add_reflections embed self_reflections
                  (replicate (length self_reflections) date_int)) ;;;
   in_rag false (add_facts embed cp_facts (replicate (length cp_facts) date_int)) ;;;
   in_rag false (add_reflections embed cp_reflections
                   (replicate (length cp_reflections) date_int)) ;;;
   (* Generate and process deep reflection questions *)
   unpack (questions, questions_convo, answer_convos, deep) <-
      process_deep_reflections transcript date_int true ;;
   unpack (cp_questions, cp_questions_convo, cp_answer_convos, cp_deep) <-
      process_deep_reflections transcript date_int false ;;
   write_text (in_ref (name +:+ "_self_questions.txt")) (String.concat newline questions) ;;;
   write_text (in_ref (name +:+ "_counterpart_questions.txt"))
              (String.concat newline cp_questions) ;;;
   write_text (in_ref (name +:+ "_self_deep_reflections.txt"))
              (String.concat newline deep) ;;;
   write_text (in_ref (name +:+ "_counterpart_deep_reflections.txt"))
              (String.concat newline cp_deep) ;;;
   create_conversation_pdf_from_messages (entries questions_convo)
     (name +:+ "_self_questions_generation")
     (in_ref (name +:+ "_self_questions_generation.pdf")) ;;;
   create_conversation_pdf_from_messages (entries cp_questions_convo)
     (name +:+ "_counterpart_questions_generation")
     (in_ref (name +:+ "_counterpart_questions_generation.pdf")) ;;;
   answer_pdfs ref_dir (name +:+ "_self_deep_reflection_") 0 answer_convos ;;;
   answer_pdfs ref_dir (name +:+ "_counterpart_deep_reflection_") 0 cp_answer_convos ;;;
   (* Create summary file *)
   let summary := summary_text X name cp self_facts cp_facts self_reflections
                               cp_reflections (zip questions deep)
                               (zip cp_questions cp_deep) in
   write_text (in_ref (name +:+ "_reflection_summary.txt")) summary ;;;
   (* Update descriptions *)
   unpack (updated_self, description_self_convo) <- update_descriptions summary true ;;
   unpack (updated_cp, description_cp_convo) <- update_descriptions summary false ;;
   write_text (in_ref (name +:+ "_updated_description.txt")) updated_self ;;;
   write_text (in_ref (cp +:+ "_updated_description.txt")) updated_cp ;;;
   create_conversation_pdf_from_messages (entries description_self_convo)
     (name +:+ "_description_update") (in_ref (name +:+ "_description_update.pdf")) ;;;
   create_conversation_pdf_from_messages (entries description_cp_convo)
     (cp +:+ "_description_update") (in_ref (cp +:+ "_description_update.pdf")) ;;;
   (* Last thing write out, and save all rags *)
   write_and_save true (Some (rag_output_dir_self a date_int)) ;;;
   write_and_save false (Some (rag_output_dir_counter a date_int)) ;;;
   (* The conversation with the 'consciousness' *)
   unpack (convos, transcript_convo) <- generate_consciousness_reflection summary current_year ;;
   write_file (in_ref (name +:+ "_consciousness_reflection_convos.json"))
              (dump_json X convos) ;;;
   write_file (in_ref (name +:+ "_consciousness_reflection_transcript.json"))
              (dump_json X transcript_convo) ;;;
   create_conversation_pdf_from_messages convos
     (name +:+ "_consciousness_reflection_convos")
     (in_ref (name +:+ "_consciousness_reflection_convos.pdf")) ;;;
   create_conversation_pdf transcript_convo
     (name +:+ "_consciousness_reflection_transcript")
     (in_ref (name +:+ "_consciousness_reflection_transcript.pdf")) ;;;
   write_file (transcript_dir_json_path a date_int) (dump_json X transcript_convo) ;;;
   create_conversation_pdf transcript_convo
     (name +:+ "_consciousness_reflection_transcript")
     (path_join (transcript_dir a)
        (pretty date_int +:+ "_" +:+ name +:+ "_consciousness_reflection_transcript.pdf")) ;;;
   ret (transcript_dir_json_path a date_int))%py.

(** [Agent.reflect].  The three directories of the session have names that
    end in the agent's name and a fixed ending, so that [os.makedirs] has
    nothing to refuse, and what it does does not show in a flat store; the
    [date] string is only printed. *)
Definition reflect (transcript : string) (current_year : Z) (date : string) (date_int : Z)
  : M world string :=
  (w <- get ;;
   let a := agent w in
   self_loaded <- in_rag_fs true
     (LMRRAG_load_from_file pickle_loads (Some (rag_output_dir_self a date_int))) ;;
   counter_loaded <- in_rag_fs false
     (LMRRAG_load_from_file pickle_loads (Some (rag_output_dir_counter a date_int))) ;;
   if self_loaded && counter_loaded
   then already_done date_int
   else run_session transcript current_year date_int)%py.

End Session.

Arguments llm_call {bytes} c.
Arguments py_strip {bytes} c.
Arguments encode_text {bytes} c.
Arguments decode_text {bytes} c.
Arguments empty_file {bytes} c.
Arguments loads_facts_reflections {bytes} c.
Arguments loads_questions {bytes} c.
Arguments dump_json {bytes} c.
Arguments pdf_from_messages {bytes} c.
Arguments pdf_from_transcript {bytes} c.
Arguments facts_system_prompt {bytes} c.
Arguments facts_prompt {bytes} c.
Arguments questions_system_prompt {bytes} c.
Arguments questions_prompt {bytes} c.
Arguments answer_system_prompt {bytes} c.
Arguments answer_prompt {bytes} c.
Arguments update_system_prompt {bytes} c.
Arguments update_user_prompt {bytes} c.
Arguments consciousness_system_prompt {bytes} c.
Arguments consciousness_prompt_0 {bytes} c.
Arguments consciousness_prompt_1 {bytes} c.
Arguments summary_text {bytes} c.
Arguments mkWorld {bytes} agent files llm_log.
Arguments agent {bytes} w.
Arguments files {bytes} w.
Arguments llm_log {bytes} w.
Arguments on_agent {bytes} f.
Arguments write_file {bytes} path b.
Arguments write_text {bytes} X path s.
Arguments makedirs {bytes} dir.
Arguments read_text {bytes} X path.
Arguments call_llm {bytes} X convos.
Arguments in_rag {bytes A} is_self c.
Arguments in_rag_fs {bytes A} is_self c.
Arguments write_and_save {bytes} pickle_dumps X is_self dir.
Arguments create_conversation_pdf_from_messages {bytes} X msgs title path.
Arguments create_conversation_pdf {bytes} X convo title path.
Arguments generate_facts_and_reflections {bytes} X transcript is_self.
Arguments generate_deep_reflection_questions {bytes} X transcript is_self.
Arguments generate_deep_reflection_answer {bytes} X question refl deep is_self.
Arguments answer_questions tie_rank embed {bytes} X date_int is_self questions.
Arguments process_deep_reflections tie_rank embed {bytes} X transcript date_int is_self.
Arguments update_descriptions {bytes} X summary is_self.
Arguments generate_consciousness_reflection {bytes} X summary current_year.
Arguments answer_pdfs {bytes} X dir stem i convos.
Arguments already_done {bytes} X date_int.
Arguments run_session tie_rank embed {bytes} pickle_dumps X transcript current_year date_int.
Arguments reflect tie_rank embed {bytes} pickle_dumps pickle_loads X
  transcript current_year date date_int.


(** ** Notions the properties are stated with *)

(** [before x y l]: some occurrence of [x] in [l] is followed, later on, by an
    occurrence of [y]. *)
Definition before {A} (x y : A) (l : list A) : Prop :=
  exists l1 l2 l3, l = l1 ++ x :: l2 ++ y :: l3.

(** [desc key a b]: by its key, [a] may stand in front of [b] in a
    descending list. *)
Definition desc {A} (key : A -> Z) (a b : A) : Prop := (key b <= key a)%Z.

(** A key that orders the binary64 values as numpy's sort does: by sign
    and class first, then exponent, then mantissa, NaN last. *)
Definition float_key (x : spec_float) : Z * Z * Z :=
  match x with
  | S754_infinity true => (-2, 0, 0)
  | S754_finite true m e => (-1, - e, - Z.pos m)
  | S754_zero _ => (0, 0, 0)
  | S754_finite false m e => (1, e, Z.pos m)
  | S754_infinity false => (2, 0, 0)
  | S754_nan => (3, 0, 0)
  end%Z.

Definition key_lt (p q : Z * Z * Z) : Prop :=
  (p.1.1 < q.1.1 \/
   (p.1.1 = q.1.1 /\ (p.1.2 < q.1.2 \/ (p.1.2 = q.1.2 /\ p.2 < q.2))))%Z.

(** [np_less] on the specification side of the floats. *)
Definition sf_less (x y : spec_float) : bool :=
  SFltb x y || (negb (SFeqb y y) && negb (negb (SFeqb x x))).

(** The text dump that [write_and_save] writes beside each layer's blob. *)
Definition layer_text_file (y : layer) : string :=
  match y with
  | Facts => "facts.txt"
  | Reflections => "reflections.txt"
  | DeepReflections => "deep_reflections.txt"
  end.


(** The blob at [path] is missing, or [pickle.load] raises on it. *)
Definition unreadable {bytes} (pickle_loads : bytes -> result pickled)
    (files : gmap string bytes) (path : string) : Prop :=
  match files !! path with
  | None => True
  | Some b => exists e, pickle_loads b = Raise e
  end.

(** The blob at [path] unpickles to the dict of the store [s]. *)
Definition holds {bytes} (pickle_loads : bytes -> result pickled)
    (files : gmap string bytes) (path : string) (s : UtilityRAG) : Prop :=
  exists b, files !! path = Some b /\ pickle_loads b = Ok (state_dict s).

(** [add]: one record, as a batch of one. *)
Definition add (embed : string -> result (list float)) (text : string) (date : Z)
  : M UtilityRAG unit :=
  add_memories embed [text] [date].

(** Calling [add] for each pair in order. *)
Fixpoint add_each (embed : string -> result (list float)) (pairs : list (string * Z))
  : M UtilityRAG unit :=
  match pairs with
  | [] => ret tt
  | p :: rest => (add embed p.1 p.2 ;;; add_each embed rest)%py
  end.

(** The three parallel lists have one length. *)
Definition aligned (s : UtilityRAG) : Prop :=
  length (memory_embeddings s) = length (memories s) /\
  length (memory_dates s) = length (memories s).

(** ** A fixed embedding stub and the stores of the test scenarios *)

Definition stub_embed (t : string) : result (list float) :=
  if String.eqb t "career update" then Ok [1; 0]%float
  else if String.eqb t "likes hiking" then Ok [0; 1]%float
  else if String.eqb t "got a new job" then Ok [1; 0]%float
  else if String.eqb t "moved to New Paltz" then Ok [1; 0]%float
  else if String.eqb t "enjoys biographies" then Ok [3; 4]%float
  else if String.eqb t "nothing" then Ok [0; 0]%float
  else if String.eqb t "" then Raise EmbeddingFailure
  else Ok [1; 1]%float.

(** The store of the concrete scenario: four records, two of them equally
    similar to the query and of the same date. *)
Definition scenario_store : UtilityRAG :=
  (add_memories stub_embed
     ["likes hiking"; "got a new job"; "moved to New Paltz"; "enjoys biographies"]
     [0; 3; 3; 0]%Z UtilityRAG_init).1.

(** A store with records at the dates 1, 1, 2, 5, 5. *)
Definition dated_store : UtilityRAG :=
  (add_memories stub_embed
     ["likes hiking"; "got a new job"; "enjoys biographies"; "moved to New Paltz"; "a"]
     [1; 1; 2; 5; 5]%Z UtilityRAG_init).1.

(** File contents for the examples: what was written, by kind. *)
Inductive blob : Type :=
| PickleBlob (p : pickled)
| TextBlob (s : string)
| JsonBlob (entries : list (string * option string))
| PdfBlob (entries : list (string * option string)) (title : string)
| Junk.

Definition blob_dumps (p : pickled) : blob := PickleBlob p.

Definition blob_loads (b : blob) : result pickled :=
  match b with
  | PickleBlob p => Ok p
  | _ => Raise UnpicklingError
  end.

(** A text codec that refuses the byte 237, with which the lone surrogates
    start when a text is kept as UTF-8. *)
Definition stub_encode (s : string) : result blob :=
  if existsb (Ascii.eqb "237"%char) (list_ascii_of_string s)
  then Raise UnicodeEncodeError else Ok (TextBlob s).

(** A text-generation stub that always fails, with trivial formats. *)
Definition stub_collaborators : collaborators blob :=
  mkCollaborators blob%type
    (fun _ => None)
    (fun s => s)
    stub_encode
    (fun b => match b with TextBlob s => Ok s | _ => Raise ValueError end)
    (TextBlob "")
    (fun _ => Raise JSONDecodeError)
    (fun _ => Raise JSONDecodeError)
    JsonBlob
    (fun e t => Ok (PdfBlob e t))
    (fun e t => Ok (PdfBlob e t))
    (fun name cp => "analyze as " +:+ name)
    (fun subject transcript => "facts about " +:+ subject)
    (fun name cp => "questions as " +:+ name)
    (fun subject cp transcript is_self => "questions about " +:+ subject)
    (fun name subject => "answer as " +:+ name)
    (fun subject cp question refl deep is_self => question)
    "update"
    (fun subject current summary => current)
    (fun name cp year => "reflect as " +:+ name)
    (fun name cp summary => summary)
    (fun name cp year => "consciousness of " +:+ name)
    (fun name cp sf cf sr cr qa cqa => "summary").

(** An order among equal similarities for the examples (none of which has 18
    records, so that it is not consulted). *)
Definition stub_rank (a : list float) (i : nat) : nat := i.


Definition stub_agent : Agent := Agent_init "out" "Ann" "a painter" "Bob" "a pilot".


Definition some_rag : UtilityRAG := mkRAG ["likes hiking"] [[0; 1]%float] [7%Z].

Definition some_pickle : blob :=
  PickleBlob (mkPickled (Some ["likes hiking"]) (Some [[0; 1]%float]) (Some [7%Z])).


(** The files of a session of date 13 that [reflect] finds complete: the
    six layer blobs, without and with the two description files. *)
Definition resumable_files : gmap string blob :=
  <["out/reflections/13_reflection/Ann_self_rags/facts.pkl" := some_pickle]>
  (<["out/reflections/13_reflection/Ann_self_rags/reflections.pkl" := some_pickle]>
  (<["out/reflections/13_reflection/Ann_self_rags/deep_reflections.pkl" := some_pickle]>
  (<["out/reflections/13_reflection/Ann_counter_rags/facts.pkl" := some_pickle]>
  (<["out/reflections/13_reflection/Ann_counter_rags/reflections.pkl" := some_pickle]>
  (<["out/reflections/13_reflection/Ann_counter_rags/deep_reflections.pkl"
      := some_pickle]> ∅))))).

Definition described_files : gmap string blob :=
  <["out/reflections/13_reflection/Ann_refs/Ann_updated_description.txt"
     := TextBlob "a painter, older"]>
  (<["out/reflections/13_reflection/Ann_refs/Bob_updated_description.txt"
      := TextBlob "a pilot, retired"]> resumable_files).

(** [reflect]'s two loads and the conversation of its first generation
    step, for stating what it does after them. *)
Definition load_self {bytes} (pickle_loads : bytes -> result pickled) (date_int : Z)
  : M (world bytes) bool :=
  fun w => in_rag_fs true
             (LMRRAG_load_from_file pickle_loads
                (Some (rag_output_dir_self (agent w) date_int))) w.

Definition load_counterpart {bytes} (pickle_loads : bytes -> result pickled)
    (a : Agent) (date_int : Z) : M (world bytes) bool :=
  in_rag_fs false
    (LMRRAG_load_from_file pickle_loads (Some (rag_output_dir_counter a date_int))).

Definition extraction_convos {bytes} (X : collaborators bytes) (a : Agent)
    (transcript : string) : list message :=
  [("system", facts_system_prompt X (config_name a) (counterpart_name a));
   ("user", facts_prompt X (config_name a) transcript)].




(** The place of [i] in [l], counted from 0. *)
Fixpoint position (l : list nat) (i : nat) : nat :=
  match l with
  | [] => 0
  | x :: l' => if x =? i then 0 else S (position l' i)
  end.

(** ** Notions for the session as a whole *)

(** Every run of [c] ends in a state related by [R] to the one it started
    in, whether it returns or raises. *)
Definition steps {S A} (R : relation S) (c : M S A) : Prop :=
  forall s, R s (c s).1.

(** Started where [P] holds, [c] raises or returns a value and a state for
    which [Q] holds. *)
Definition hoare {S A} (P : S -> Prop) (c : M S A) (Q : A -> S -> Prop) : Prop :=
  forall s, P s ->
    match c s with
    | (s', Ok a) => Q a s'
    | (_, Raise _) => True
    end.

(** What [reflect] computes its paths and prompts from, besides the memories
    and the two descriptions it rewrites. *)
Definition identity (a : Agent) : string * string * string * string * string :=
  (agent_output_dir a, config_name a, counterpart_name a,
   description_of_self a, description_of_counterpart a).

Definition same_identity {bytes} (w w' : world bytes) : Prop :=
  identity (agent w') = identity (agent w).

(** One store has only been appended to. *)
Definition store_grew (s s' : UtilityRAG) : Prop :=
  memories s `prefix_of` memories s' /\
  memory_embeddings s `prefix_of` memory_embeddings s' /\
  memory_dates s `prefix_of` memory_dates s'.

(** All six stores of the agent have only been appended to. *)
Definition memory_grew {bytes} (w w' : world bytes) : Prop :=
  forall is_self y,
    store_grew (get_layer y (the_rag is_self (agent w)))
               (get_layer y (the_rag is_self (agent w'))).

(** [s] ends in [t]. *)
Definition has_suffix (t s : string) : Prop := exists pre, s = pre +:+ t.

(** Two endings that no string can have both: they differ within the length
    of the shorter one, counted from the end. *)
Definition suffix_clash (t1 t2 : string) : bool :=
  let r1 := rev (list_ascii_of_string t1) in
  let r2 := rev (list_ascii_of_string t2) in
  let m := Nat.min (length r1) (length r2) in
  negb (bool_decide (take m r1 = take m r2)).

(** The eight files the resume check of [reflect] reads for a session: the
    layer blobs of the two memories and the two description files. *)
Definition blob_path (a : Agent) (date_int : Z) (is_self : bool) (y : layer) : string :=
  path_join (if is_self then rag_output_dir_self a date_int
             else rag_output_dir_counter a date_int) (layer_file y).

Definition description_path (a : Agent) (date_int : Z) (is_self : bool) : string :=
  path_join (ref_output_dir a date_int)
            ((if is_self then config_name a else counterpart_name a)
               +:+ "_updated_description.txt").

(** How the paths of the blobs and of the text dumps end. *)
Definition blob_ending (is_self : bool) (y : layer) : string :=
  (if is_self then "_self_rags" else "_counter_rags") +:+ "/" +:+ layer_file y.
Definition text_ending (is_self : bool) (y : layer) : string :=
  (if is_self then "_self_rags" else "_counter_rags") +:+ "/" +:+ layer_text_file y.

(** A description file of the session holds a text as [write_text] leaves
    it. *)
Definition description_persisted {bytes} (X : collaborators bytes) (a : Agent)
    (date_int : Z) (is_self : bool) (w : world bytes) : Prop :=
  exists text b,
    encode_text X text = Ok b /\
    files w !! description_path a date_int is_self = Some b.

(** Each blob of one memory is the pickle of the layer as it is in [w]. *)
Definition memory_persisted {bytes} (pickle_dumps : pickled -> bytes) (a : Agent)
    (date_int : Z) (is_self : bool) (w : world bytes) : Prop :=
  forall y, files w !! blob_path a date_int is_self y
            = Some (pickle_dumps (state_dict (get_layer y (the_rag is_self (agent w))))).

(** The transcript of the session is at the path that [reflect] returns. *)
Definition transcript_persisted {bytes} (X : collaborators bytes) (a : Agent)
    (date_int : Z) (w : world bytes) : Prop :=
  exists convo,
    files w !! transcript_dir_json_path a date_int = Some (dump_json X convo).

(** The files of a session are complete for the agent in [w]. *)
Definition session_persisted {bytes} (pickle_dumps : pickled -> bytes)
    (X : collaborators bytes) (a : Agent) (date_int : Z) (w : world bytes) : Prop :=
  (forall is_self, memory_persisted pickle_dumps a date_int is_self w) /\
  (forall is_self, description_persisted X a date_int is_self w) /\
  transcript_persisted X a date_int w.

(** What the resume check needs to find: blobs that unpickle to the layers
    in memory, and description files that can be read. *)
Definition resumable {bytes} (pickle_loads : bytes -> result pickled)
    (X : collaborators bytes) (date_int : Z) (w : world bytes) : Prop :=
  (forall is_self y,
      holds pickle_loads (files w) (blob_path (agent w) date_int is_self y)
            (get_layer y (the_rag is_self (agent w)))) /\
  (forall is_self, exists b text,
      files w !! description_path (agent w) date_int is_self = Some b /\
      decode_text X b = Ok text).

(** Between [w] and [w'] only files of the given endings have been written;
    the agent is the same. *)
Definition only_written {bytes} (endings : list string) (w w' : world bytes) : Prop :=
  agent w' = agent w /\
  forall p, (forall t, t ∈ endings -> ~ has_suffix t p) -> files w' !! p = files w !! p.

Definition only_reports {bytes} : relation (world bytes) := only_written [".pdf"; ".json"].
Definition only_pdfs {bytes} : relation (world bytes) := only_written [".pdf"].

(** The conversation that asks for the answer to one question. *)
Definition answer_convos {bytes} (X : collaborators bytes) (a : Agent) (is_self : bool)
    (question : string) (refl deep : list hit) : list message :=
  [("system", answer_system_prompt X (config_name a) (subject_name a is_self));
   ("user", answer_prompt X (subject_name a is_self) (counterpart_name a)
                          question refl deep is_self)].

(** A text-generation stub that answers with the last message it was sent;
    the parsers give fixed lists. *)
Definition answering_collaborators : collaborators blob :=
  mkCollaborators blob%type
    (fun convos => Some (from_option snd "" (last convos)))
    (fun s => s)
    stub_encode
    (fun b => match b with TextBlob s => Ok s | _ => Raise ValueError end)
    (TextBlob "")
    (fun _ => Ok (["likes hiking"], ["career update"]))
    (fun _ => Ok ["q1"; "q2"])
    JsonBlob
    (fun e t => Ok (PdfBlob e t))
    (fun e t => Ok (PdfBlob e t))
    (fun name cp => "analyze as " +:+ name)
    (fun subject transcript => "facts about " +:+ subject)
    (fun name cp => "questions as " +:+ name)
    (fun subject cp transcript is_self => "questions about " +:+ subject)
    (fun name subject => "answer as " +:+ name)
    (fun subject cp question refl deep is_self => question)
    "update"
    (fun subject current summary => current)
    (fun name cp year => "reflect as " +:+ name)
    (fun name cp summary => summary)
    (fun name cp year => "consciousness of " +:+ name)
    (fun name cp sf cf sr cr qa cqa => "summary").


(** What reading a description file of the session gives: its text, the
    error of [open] when it is missing, or that of the codec. *)
Definition read_description {bytes} (X : collaborators bytes) (a : Agent)
    (date_int : Z) (is_self : bool) (fs : gmap string bytes) : result string :=
  match fs !! description_path a date_int is_self with
  | Some b => decode_text X b
  | None => Raise FileNotFoundError
  end.

Definition transcript_13 : string :=
  "out/transcripts/13_Ann_consciousness_reflection_transcript.json".

(** ** The schedule of [main.py] *)

(** The four conversations of a year. *)
Definition dates_of_year : list string :=
  ["January 1st"; "April 1st"; "July 1st"; "October 1st"].

(** What one round of the loop passes to [reflect]. *)
Record round : Type := mkRound {
  round_year : Z;
  round_date : string;
  round_date_int : Z
}.

(** The rounds of [for year_idx in range(number_of_years)] and, inside,
    [for k, date in enumerate(...)], in order. *)
Definition rounds_of_year (year_idx : Z) : list round :=
  imap (fun k date => mkRound (year_idx + 2024) date (year_idx * 10 + Z.of_nat k))
       dates_of_year.

Definition schedule (number_of_years : Z) : list round :=
  flat_map rounds_of_year (seqZ 0 number_of_years).


(** ** The retry loop of [llm.py] *)

(** [try: c except Exception as e: handler] *)
Definition catch {S A} (c : M S A) (handler : exn -> M S A) : M S A :=
  fun s => match c s with
           | (s', Ok a) => (s', Ok a)
           | (s', Raise e) => handler e s'
           end.

(** How many requests have been made, and the lengths slept so far. *)
Record line : Type := mkLine {
  requests : nat;
  slept : list float
}.

Section Retry.

(** What the client answers to the [n]-th request made (counted from 0):
    the content of the first choice, which can be [None], or an exception
    (of the client, or of [choices[0]]). *)
Variable create : list message -> nat -> result (option string).

(** What [time.sleep] does with a length: it refuses some. *)
Variable time_sleep : float -> result unit.

Definition request (conversations : list message) : M line (option string) :=
  fun s => (mkLine (S (requests s)) (slept s), create conversations (requests s)).

Definition sleep (t : float) : M line unit :=
  fun s => match time_sleep t with
           | Ok _ => (mkLine (requests s) (slept s ++ [t]), Ok tt)
           | Raise e => (s, Raise e)
           end.

(** [initial_wait * (2 ** attempt)]: the power is an integer, and its
    conversion to a float for the product fails from [2 ** 1024] on. *)
Definition wait_time (initial_wait : float) (attempt : Z) : result float :=
  if (attempt <? 1024)%Z then Ok (initial_wait * Z.ldexp 1 attempt)%float
  else Raise OverflowError.

(** The loop [for attempt in range(max_retries)] of [GPT4O.call], from
    [attempt] on with [todo] rounds to go; when the loop ends the function
    ends without a [return]. *)
Fixpoint call_loop (conversations : list message) (max_retries : Z) (initial_wait : float)
    (todo : nat) (attempt : Z) : M line (option string) :=
  match todo with
  | 0 => ret None
  | S todo' =>
    catch (request conversations)
      (fun _ =>
         if (attempt =? max_retries - 1)%Z then ret None
         else (wait <- lift (wait_time initial_wait attempt) ;;
               sleep wait ;;;
               call_loop conversations max_retries initial_wait todo' (attempt + 1))%py)
  end.

(** [GPT4O.call] *)
Definition GPT4O_call (conversations : list message) (max_retries : Z)
    (initial_wait : float) : M line (option string) :=
  call_loop conversations max_retries initial_wait (Z.to_nat max_retries) 0.

End Retry.

(** The lengths slept after the first [n] failures, from [attempt] on. *)
Definition waits (initial_wait : float) (attempt : Z) (n : nat) : list float :=
  (fun i => (initial_wait * Z.ldexp 1 (attempt + Z.of_nat i))%float) <$> seq 0 n.


(** * Supporting lemmas *)

(** ** Order of occurrence in a list *)

Lemma before_cons {A} (x y z : A) l : before x y l -> before x y (z :: l).
Proof. intros (l1 & l2 & l3 & ->). now exists (z :: l1), l2, l3. Qed.

Lemma before_head {A} (x y : A) l : y ∈ l -> before x y (x :: l).
Proof.
  intros (l2 & l3 & ->)%list_elem_of_split. now exists [], l2, l3.
Qed.

Lemma before_cons_inv {A} (x y z : A) l :
  before x y (z :: l) -> (x = z /\ y ∈ l) \/ before x y l.
Proof.
  intros (l1 & l2 & l3 & E). destruct l1 as [|a l1]; simpl in E.
  - injection E as -> ->. left. split; [done|]. set_solver.
  - injection E as -> ->. right. now exists l1, l2, l3.
Qed.

Lemma before_rev {A} (x y : A) l : before x y l -> before y x (rev l).
Proof.
  intros (l1 & l2 & l3 & ->). exists (rev l3), (rev l2), (rev l1).
  rewrite rev_app_distr. simpl. rewrite rev_app_distr. simpl.
  now rewrite <- !app_assoc.
Qed.


Lemma before_elem_of_l {A} (x y : A) l : before x y l -> x ∈ l.
Proof. intros (l1 & l2 & l3 & ->). set_solver. Qed.

Lemma before_elem_of_r {A} (x y : A) l : before x y l -> y ∈ l.
Proof. intros (l1 & l2 & l3 & ->). set_solver. Qed.


(** ** The insertion sort of [argsort] *)

Section InsertionSort.

Context {A : Type} (less : A -> A -> bool).

Lemma insert_from_right_perm x r : insert_from_right less x r ≡ₚ x :: r.
Proof.
  induction r as [|y r IH]; simpl; [done|].
  destruct (less x y); [|done].
  rewrite IH. apply Permutation_swap.
Qed.

Lemma fold_insert_perm l r :
  fold_left (fun r x => insert_from_right less x r) l r ≡ₚ rev l ++ r.
Proof.
  revert r. induction l as [|x l IH]; intros r; simpl; [done|].
  rewrite IH, insert_from_right_perm, <- app_assoc. simpl.
  apply Permutation_app_head. done.
Qed.

Lemma insertion_sort_perm l : insertion_sort less l ≡ₚ l.
Proof.
  unfold insertion_sort. rewrite <- Permutation_rev, fold_insert_perm.
  rewrite app_nil_r. symmetry. apply Permutation_rev.
Qed.







End InsertionSort.


(** ** IEEE facts used below *)




Lemma SFcompare_zero_inv x s : SFcompare x (S754_zero s) = Some Eq -> exists s', x = S754_zero s'.
Proof. destruct x as [sx|sx| |sx mx ex]; simpl; try destruct sx; try congruence; eauto. Qed.

(** IEEE division by a zero: NaN or an infinity, never a number. *)
Lemma div_by_zero x d :
  is_zero d = true ->
  Prim2SF (x / d) = S754_nan \/ exists s, Prim2SF (x / d) = S754_infinity s.
Proof.
  unfold is_zero. rewrite FloatAxioms.eqb_spec. unfold SFeqb.
  destruct (SFcompare (Prim2SF d) (Prim2SF zero)) as [[]|] eqn:E; try discriminate.
  intros _. change (Prim2SF zero) with (S754_zero false) in E.
  apply SFcompare_zero_inv in E as [s Hd].
  rewrite FloatAxioms.div_spec, Hd. unfold SF64div, SFdiv.
  destruct (Prim2SF x); eauto.
Qed.

Lemma div_by_zero_not_zero x d :
  is_zero d = true -> (x / d =? 0)%float = false.
Proof.
  intros H. rewrite FloatAxioms.eqb_spec. change (Prim2SF 0) with (S754_zero false).
  destruct (div_by_zero x d H) as [-> | [s ->]]; [done|]. unfold SFeqb. simpl. now destruct s.
Qed.

(** ** Slices *)

Lemma slice_last_drop {A} (k : Z) (l : list A) : exists d, slice_last k l = drop d l.
Proof. unfold slice_last. destruct (0 <? k)%Z; eauto. Qed.

Lemma slice_first_take {A} (n : Z) (l : list A) : exists m, slice_first n l = take m l.
Proof. unfold slice_first. destruct (0 <=? n)%Z; eauto. Qed.

Lemma slice_first_length {A} (n : Z) (l : list A) :
  (0 <= n)%Z -> (Z.of_nat (length (slice_first n l)) <= n)%Z.
Proof.
  intros Hn. unfold slice_first.
  destruct (Z.leb_spec 0 n); [|lia]. rewrite length_take. lia.
Qed.

Lemma before_lookup {A} (l : list A) i j x y :
  i < j -> l !! i = Some x -> l !! j = Some y -> before x y l.
Proof.
  intros Hij Hi Hj.
  apply list_elem_of_split_length in Hi as (l1 & l2 & -> & ->).
  rewrite lookup_app_r in Hj by lia.
  destruct (j - length l1) as [|m] eqn:Hm; [lia|]. simpl in Hj.
  apply list_elem_of_split_length in Hj as (l2' & l3 & -> & _).
  now exists l1, l2', l3.
Qed.

(** ** [argsort] *)

Lemma imap_pair_fst {A} (a : list A) : (imap pair a).*1 = seq 0 (length a).
Proof.
  rewrite fmap_imap. rewrite <- (list_fmap_id (seq 0 (length a))).
  rewrite <- (imap_seq_0 a id). now apply imap_ext.
Qed.

Lemma argsort_perm tie_rank a : argsort tie_rank a ≡ₚ seq 0 (length a).
Proof.
  unfold argsort. cbv zeta. rewrite insertion_sort_perm. now rewrite imap_pair_fst.
Qed.


Lemma argsort_elem_of tie_rank a i : i ∈ argsort tie_rank a <-> i < length a.
Proof. rewrite argsort_perm, elem_of_seq. lia. Qed.

Lemma top_k_indices_elem_of tie_rank sims k i :
  i ∈ top_k_indices tie_rank sims k -> i < length sims.
Proof.
  unfold top_k_indices. rewrite list_elem_of_In, <- in_rev, <- list_elem_of_In.
  destruct (slice_last_drop k (argsort tie_rank sims)) as [d ->].
  intros H%subseteq_drop. now apply (argsort_elem_of tie_rank).
Qed.




(** ** The stable descending sort of [sorted(..., reverse=True)] *)

Section SortedDesc.

Context {A : Type} (key : A -> Z).

Local Abbreviation desc := (desc key).

Lemma insert_desc_perm x l : insert_desc key x l ≡ₚ x :: l.
Proof.
  induction l as [|y l IH]; simpl; [done|].
  destruct (key x <? key y)%Z; [|done].
  rewrite IH. apply Permutation_swap.
Qed.

Lemma sorted_desc_perm l : sorted_desc key l ≡ₚ l.
Proof.
  induction l as [|x l IH]; simpl; [done|].
  now rewrite insert_desc_perm, IH.
Qed.

Lemma insert_desc_sorted x l :
  StronglySorted desc l -> StronglySorted desc (insert_desc key x l).
Proof.
  induction l as [|y l IH]; simpl; intros Hs.
  - apply StronglySorted_cons; split; [constructor|constructor].
  - apply StronglySorted_cons in Hs as [Hy Hs].
    destruct (Z.ltb_spec (key x) (key y)) as [Hlt|Hge].
    + apply StronglySorted_cons; split; [|auto].
      rewrite insert_desc_perm. constructor; [unfold desc; lia|done].
    + apply StronglySorted_cons; split; [|apply StronglySorted_cons; done].
      constructor; [done|].
      eapply Forall_impl; [exact Hy|]. unfold desc. intros; lia.
Qed.

Lemma sorted_desc_sorted l : StronglySorted desc (sorted_desc key l).
Proof.
  induction l as [|x l IH]; simpl; [constructor|].
  now apply insert_desc_sorted.
Qed.

(** Stability: the elements of one key are in the order they came in. *)
Lemma insert_desc_filter t x l :
  filter (fun y => key y = t) (insert_desc key x l)
  = filter (fun y => key y = t) (x :: l).
Proof.
  induction l as [|y l IH]; simpl; [done|].
  destruct (Z.ltb_spec (key x) (key y)) as [Hlt|Hge]; [|done].
  rewrite (filter_cons _ y), IH, !filter_cons.
  repeat case_decide; try done; lia.
Qed.

Lemma sorted_desc_filter t l :
  filter (fun y => key y = t) (sorted_desc key l) = filter (fun y => key y = t) l.
Proof.
  induction l as [|x l IH]; simpl; [done|].
  now rewrite insert_desc_filter, !filter_cons, IH.
Qed.

End SortedDesc.

(** ** [map_result] *)

Lemma map_result_Forall2 {A B} (f : A -> result B) l ys :
  map_result f l = Ok ys -> Forall2 (fun x y => f x = Ok y) l ys.
Proof.
  revert ys. induction l as [|x l IH]; simpl; intros ys H.
  - injection H as <-. constructor.
  - destruct (f x) as [y|] eqn:Ex; [|discriminate].
    destruct (map_result f l) as [ys'|]; [|discriminate].
    injection H as <-. constructor; auto.
Qed.

Lemma map_result_total {A B} (f : A -> result B) l :
  (forall x, x ∈ l -> exists y, f x = Ok y) -> exists ys, map_result f l = Ok ys.
Proof.
  induction l as [|x l IH]; simpl; intros H; [eauto|].
  destruct (H x) as [y ->]; [set_solver|].
  destruct IH as [ys ->]; [|eauto]. intros; apply H; set_solver.
Qed.

Lemma py_index_Ok {A} (l : list A) i x : py_index l i = Ok x <-> l !! i = Some x.
Proof. unfold py_index. destruct (l !! i); split; congruence. Qed.

(** ** [top_n_indices] *)

(** The pairs of candidate and date that [top_n_indices] sorts. *)
Lemma dated_pairs (dates : list Z) (top_k : list nat) keys :
  Forall2 (fun i d => py_index dates i = Ok d) top_k keys ->
  (zip top_k keys).*1 = top_k /\
  Forall (fun p : nat * Z => dates !! p.1 = Some p.2) (zip top_k keys).
Proof.
  induction 1 as [|i d l k Hi _ [IH1 IH2]]; [split; [done|constructor]|].
  split.
  - change ((zip (i :: l) (d :: k)).*1) with (i :: (zip l k).*1). now rewrite IH1.
  - constructor; [|done]. now apply py_index_Ok.
Qed.

Lemma filter_dated (dates : list Z) t (l : list (nat * Z)) :
  Forall (fun p => dates !! p.1 = Some p.2) l ->
  filter (fun i => dates !! i = Some t) (l.*1) = (filter (fun p => p.2 = t) l).*1.
Proof.
  induction 1 as [|[i d] l Hp _ IH]; [done|].
  rewrite fmap_cons, !filter_cons, IH. simpl in *.
  repeat case_decide; try done; congruence.
Qed.

Lemma top_n_indices_spec (dates : list Z) top_k n picked :
  top_n_indices dates top_k n = Ok picked ->
  picked ⊆ top_k /\
  (forall r o dr do,
      r ∈ picked -> o ∈ top_k -> o ∉ picked ->
      dates !! r = Some dr -> dates !! o = Some do -> (do <= dr)%Z) /\
  (forall t, filter (fun i => dates !! i = Some t) picked
             `prefix_of` filter (fun i => dates !! i = Some t) top_k).
Proof.
  unfold top_n_indices.
  destruct (map_result _ top_k) as [keys|] eqn:Ek; [|discriminate].
  intros [= <-].
  apply map_result_Forall2, dated_pairs in Ek as [Hfst Hdated].
  set (pairs := zip top_k keys) in *.
  set (sorted := sorted_desc snd pairs).
  assert (Hperm : sorted ≡ₚ pairs) by apply sorted_desc_perm.
  assert (Hsorted : StronglySorted (desc snd) sorted) by apply sorted_desc_sorted.
  assert (Hdated' : Forall (fun p : nat * Z => dates !! p.1 = Some p.2) sorted)
    by now rewrite Hperm.
  destruct (slice_first_take n sorted) as [m ->].
  rewrite <- (take_drop m sorted) in Hsorted.
  split; [|split].
  - intros i ([i' d] & -> & Hin%subseteq_take)%list_elem_of_fmap.
    rewrite <- Hfst. apply list_elem_of_fmap. exists (i', d).
    split; [done|]. now rewrite <- Hperm.
  - intros r o dr do Hr Ho Hno Hdr Hdo.
    apply list_elem_of_fmap in Hr as ([r' dr'] & -> & Hr).
    rewrite <- Hfst in Ho.
    apply list_elem_of_fmap in Ho as ([o' do'] & -> & Ho).
    simpl in *.
    assert (Edr : dr' = dr).
    { apply subseteq_take in Hr.
      rewrite Forall_forall in Hdated'. specialize (Hdated' _ Hr). simpl in Hdated'.
      congruence. }
    assert (Edo : do' = do).
    { rewrite Forall_forall in Hdated. specialize (Hdated _ Ho). simpl in Hdated.
      congruence. }
    subst dr' do'.
    rewrite <- Hperm, <- (take_drop m sorted) in Ho.
    apply elem_of_app in Ho as [Ho|Ho].
    + exfalso. apply Hno. apply list_elem_of_fmap. now exists (o', do).
    + apply (StronglySorted_app_1_elem_of _ _ _ _ _ Hsorted Hr Ho).
  - intros t.
    rewrite (filter_dated dates t (take m sorted)) by now apply Forall_take.
    rewrite <- Hfst, (filter_dated dates t pairs) by done.
    rewrite <- (sorted_desc_filter snd t pairs). fold sorted.
    rewrite <- (take_drop m sorted) at 2. rewrite filter_app, fmap_app.
    now apply prefix_app_r.
Qed.

Lemma top_n_indices_length (dates : list Z) top_k n picked :
  top_n_indices dates top_k n = Ok picked ->
  (0 <= n)%Z -> (Z.of_nat (length picked) <= n)%Z.
Proof.
  unfold top_n_indices.
  destruct (map_result _ top_k) as [keys|]; [|discriminate].
  intros [= <-] Hn. rewrite length_fmap. now apply slice_first_length.
Qed.

Lemma top_n_indices_total (dates : list Z) top_k n :
  (forall i, i ∈ top_k -> i < length dates) ->
  exists picked, top_n_indices dates top_k n = Ok picked.
Proof.
  intros H. unfold top_n_indices.
  destruct (map_result_total (fun i => py_index dates i) top_k) as [keys ->]; [|eauto].
  intros i Hi. destruct (lookup_lt_is_Some_2 dates i (H i Hi)) as [d Hd].
  exists d. now apply py_index_Ok.
Qed.

(** ** [similarities] *)

Lemma similarities_Ok E q sims :
  similarities E q = Ok sims ->
  sims = map (fun e => (dot e q / (norm e * norm q))%float) E.
Proof.
  unfold similarities. destruct E as [|e E]; [discriminate|].
  destruct (forallb _ _); [|discriminate]. now intros [= <-].
Qed.

Lemma similarities_length E q sims :
  similarities E q = Ok sims -> length sims = length E.
Proof. intros ->%similarities_Ok. apply length_map. Qed.

(** The only failure is one of shape: zero vectors raise nothing. *)
Lemma similarities_total E q :
  E <> [] -> Forall (fun e => length e = length q) E ->
  exists sims, similarities E q = Ok sims.
Proof.
  intros HE Hdim. unfold similarities. destruct E as [|e E]; [done|].
  assert (forallb (fun e => Nat.eqb (length e) (length q)) (e :: E) = true) as ->.
  { apply forallb_forall. intros x Hx%list_elem_of_In.
    rewrite Forall_forall in Hdim. apply Nat.eqb_eq. auto. }
  eauto.
Qed.

(** ** [retrieve_memories] *)

Lemma retrieve_memories_empty tie_rank embed s q n k jt :
  memories s = [] -> retrieve_memories tie_rank embed q n k jt s = (s, Ok []).
Proof. intros H. unfold retrieve_memories, bind, get. simpl. now rewrite H. Qed.

Lemma retrieve_memories_state tie_rank embed s q n k jt :
  (retrieve_memories tie_rank embed q n k jt s).1 = s.
Proof.
  unfold retrieve_memories, retrieve_indices, bind, get, lift, ret. simpl.
  destruct (memories s); [done|].
  destruct (embed q); [|done].
  destruct (similarities _ _); [|done].
  destruct (top_n_indices _ _ _); done.
Qed.

Lemma retrieve_memories_inv tie_rank embed s q n k jt hits :
  memories s <> [] ->
  (retrieve_memories tie_rank embed q n k jt s).2 = Ok hits ->
  exists qe sims picked,
    embed q = Ok qe /\
    similarities (memory_embeddings s) qe = Ok sims /\
    top_n_indices (memory_dates s) (top_k_indices tie_rank sims k) n = Ok picked /\
    map_result (make_hit s jt) picked = Ok hits.
Proof.
  intros Hne. unfold retrieve_memories, retrieve_indices, bind, get, lift, ret. simpl.
  destruct (memories s); [done|].
  destruct (embed q) as [qe|]; [|discriminate].
  destruct (similarities _ _) as [sims|] eqn:Es; [|discriminate].
  destruct (top_n_indices _ _ _) as [picked|] eqn:Ep; [|discriminate].
  simpl. intros H. exists qe, sims, picked. repeat split; done.
Qed.

Lemma make_hit_text s jt i h :
  make_hit s jt i = Ok h -> memories s !! i = Some (hit_text h).
Proof.
  unfold make_hit. destruct jt.
  - destruct (py_index (memories s) i) as [t|] eqn:E; [|discriminate].
    intros [= <-]. now apply py_index_Ok.
  - destruct (py_index (memory_dates s) i); [|discriminate].
    destruct (py_index (memories s) i) as [t|] eqn:E; [|discriminate].
    destruct (py_index (memory_embeddings s) i); [|discriminate].
    intros [= <-]. now apply py_index_Ok.
Qed.

(** With aligned lists and embeddings of the query's dimension, retrieval
    returns. *)
Lemma retrieve_memories_total tie_rank embed s q qe n k jt :
  aligned s -> embed q = Ok qe ->
  Forall (fun e => length e = length qe) (memory_embeddings s) ->
  exists hits, (retrieve_memories tie_rank embed q n k jt s).2 = Ok hits.
Proof.
  intros [He Hd] Hq Hdim.
  destruct (memories s) as [|t ts] eqn:Em.
  { rewrite retrieve_memories_empty by done. eauto. }
  unfold retrieve_memories, retrieve_indices, bind, get, lift, ret. simpl.
  rewrite Em, Hq.
  destruct (similarities_total (memory_embeddings s) qe) as [sims Hs]; [|done|].
  { intros E. rewrite E in He. discriminate. }
  rewrite <- Em in He, Hd.
  rewrite Hs.
  assert (Hlen : length sims = length (memories s)).
  { rewrite (similarities_length _ _ _ Hs). exact He. }
  destruct (top_n_indices_total (memory_dates s) (top_k_indices tie_rank sims k) n)
    as [picked Hp].
  { intros i Hi%top_k_indices_elem_of. lia. }
  rewrite Hp. simpl.
  apply map_result_total. intros i Hi.
  apply top_n_indices_spec in Hp as (Hsub & _).
  apply Hsub, top_k_indices_elem_of in Hi.
  destruct (lookup_lt_is_Some_2 (memories s) i) as [t' Ht]; [lia|].
  destruct (lookup_lt_is_Some_2 (memory_dates s) i) as [d' Hd']; [lia|].
  destruct (lookup_lt_is_Some_2 (memory_embeddings s) i) as [e' He']; [lia|].
  unfold make_hit, py_index. rewrite Ht, Hd', He'. destruct jt; eauto.
Qed.

(** ** numpy's sorting order on floats is a total preorder *)

Lemma np_less_spec a b : np_less a b = sf_less (Prim2SF a) (Prim2SF b).
Proof.
  unfold np_less, sf_less, is_nan.
  now rewrite FloatAxioms.ltb_spec, !FloatAxioms.eqb_spec.
Qed.

Lemma sf_less_key x y : sf_less x y = true <-> key_lt (float_key x) (float_key y).
Proof.
  unfold sf_less, SFltb, SFeqb, key_lt.
  destruct x as [sx|sx| |sx mx ex], y as [sy|sy| |sy my ey]; simpl;
    try destruct sx; try destruct sy; simpl;
    rewrite ?Z.compare_refl, ?Pos.compare_cont_refl; simpl;
    try (split; [intros; lia | intros; try reflexivity; lia]);
    try (split; [discriminate | intros; lia]).
  all: change (Pos.compare_cont Eq mx my) with (mx ?= my)%positive.
  all: destruct (Z.compare_spec ex ey); destruct (Pos.compare_spec mx my); simpl;
    (split; [intros; try discriminate; lia | intros; try reflexivity; lia]).
Qed.

Lemma np_less_asym a b : np_less a b = true -> np_less b a = false.
Proof.
  rewrite !np_less_spec. intros H%sf_less_key.
  destruct (sf_less (Prim2SF b) (Prim2SF a)) eqn:E; [|done].
  apply sf_less_key in E. unfold key_lt in *. lia.
Qed.

Lemma np_less_neg_trans a b c :
  np_less a b = false -> np_less b c = false -> np_less a c = false.
Proof.
  rewrite !np_less_spec. intros H1 H2.
  destruct (sf_less (Prim2SF a) (Prim2SF c)) eqn:E; [|done].
  apply sf_less_key in E.
  assert (N1 : ~ key_lt (float_key (Prim2SF a)) (float_key (Prim2SF b))).
  { rewrite <- sf_less_key. congruence. }
  assert (N2 : ~ key_lt (float_key (Prim2SF b)) (float_key (Prim2SF c))).
  { rewrite <- sf_less_key. congruence. }
  unfold key_lt in *. lia.
Qed.

(** ** [argsort] sorts *)

Lemma StronglySorted_before {A} (R : relation A) l a b :
  StronglySorted R l -> before a b l -> R a b.
Proof.
  intros Hs (l1 & l2 & l3 & ->).
  apply StronglySorted_app_1_r, StronglySorted_cons in Hs as [Hs _].
  rewrite Forall_forall in Hs. apply Hs. set_solver.
Qed.

Lemma before_app {A} (x y : A) l1 l2 : x ∈ l1 -> y ∈ l2 -> before x y (l1 ++ l2).
Proof.
  intros (a1 & a2 & ->)%list_elem_of_split (b1 & b2 & ->)%list_elem_of_split.
  exists a1, (a2 ++ b1), b2. now rewrite <- !app_assoc.
Qed.

Lemma before_drop_inv {A} (x y : A) l d : before x y (drop d l) -> before x y l.
Proof.
  intros (l1 & l2 & l3 & E). exists (take d l ++ l1), l2, l3.
  rewrite <- app_assoc, <- E. now rewrite take_drop.
Qed.

Lemma before_take_inv {A} (x y : A) l d : before x y (take d l) -> before x y l.
Proof.
  intros (l1 & l2 & l3 & E). exists l1, l2, (l3 ++ drop d l).
  rewrite <- (take_drop d l) at 1. rewrite E.
  rewrite <- app_assoc. simpl. now rewrite <- app_assoc.
Qed.

Lemma before_rev_inv {A} (x y : A) l : before x y (rev l) -> before y x l.
Proof. intros H%before_rev. now rewrite rev_involutive in H. Qed.

Lemma before_fmap_inv {A B} (f : A -> B) (y1 y2 : B) l :
  before y1 y2 (f <$> l) ->
  exists x1 x2, f x1 = y1 /\ f x2 = y2 /\ before x1 x2 l.
Proof.
  intros (l1 & l2 & l3 & E).
  apply fmap_app_inv in E as (k1 & k & -> & E1 & ->).
  symmetry in E1. apply fmap_cons_inv in E1 as (x1 & k' & -> & E2 & ->).
  symmetry in E2. apply fmap_app_inv in E2 as (k2 & k'' & -> & E3 & ->).
  symmetry in E3. apply fmap_cons_inv in E3 as (x2 & k3 & -> & -> & ->).
  exists x1, x2. repeat split. now exists k1, k2, k3.
Qed.

Section InsertionSortOrder.

Context {A : Type} (less : A -> A -> bool).
Hypothesis less_asym : forall a b, less a b = true -> less b a = false.
Hypothesis less_neg_trans :
  forall a b c, less a b = false -> less b c = false -> less a c = false.

(** The prefix sorted so far, greatest first. *)
Local Abbreviation falling := (StronglySorted (fun a b => less a b = false)).

Lemma insert_from_right_sorted x r : falling r -> falling (insert_from_right less x r).
Proof using less_asym less_neg_trans.
  induction r as [|y r IH]; simpl; intros Hs.
  - repeat constructor.
  - apply StronglySorted_cons in Hs as [Hy Hs].
    destruct (less x y) eqn:E.
    + apply StronglySorted_cons. split; [|auto].
      rewrite insert_from_right_perm. constructor; [auto|done].
    + apply StronglySorted_cons. split; [|apply StronglySorted_cons; done].
      constructor; [done|].
      eapply Forall_impl; [exact Hy|]. intros z Hz. simpl in Hz. eauto.
Qed.

Lemma fold_insert_sorted l r :
  falling r -> falling (fold_left (fun r x => insert_from_right less x r) l r).
Proof using less_asym less_neg_trans.
  revert r. induction l as [|x l IH]; intros r Hr; simpl; [done|].
  now apply IH, insert_from_right_sorted.
Qed.

(** The output is ascending: nothing is less than what stands before it. *)
Lemma insertion_sort_sorted a b l :
  before a b (insertion_sort less l) -> less b a = false.
Proof using less_asym less_neg_trans.
  unfold insertion_sort. intros H%before_rev_inv.
  apply (StronglySorted_before (fun a b => less a b = false) _ b a) in H; [done|].
  apply fold_insert_sorted. constructor.
Qed.

End InsertionSortOrder.

(** The order on pairs is a strict weak order, whatever the ranks. *)
Lemma pair_less_asym rank p q : pair_less rank p q = true -> pair_less rank q p = false.
Proof.
  unfold pair_less. intros H.
  destruct (np_less p.2 q.2) eqn:E1.
  - now rewrite (np_less_asym _ _ E1).
  - simpl in H. apply andb_true_iff in H as [H1 H2].
    apply negb_true_iff in H1. rewrite H1. simpl.
    apply Nat.ltb_lt in H2. apply Nat.ltb_ge. lia.
Qed.

Lemma np_less_trans a b c : np_less a b = true -> np_less b c = true -> np_less a c = true.
Proof.
  intros H1 H2. destruct (np_less a c) eqn:E; [done|].
  pose proof (np_less_neg_trans _ _ _ E (np_less_asym _ _ H2)). congruence.
Qed.

Lemma pair_less_neg_trans rank p q r :
  pair_less rank p q = false -> pair_less rank q r = false -> pair_less rank p r = false.
Proof.
  unfold pair_less. intros H1 H2.
  apply orb_false_elim in H1 as [A1 B1]. apply orb_false_elim in H2 as [A2 B2].
  rewrite (np_less_neg_trans _ _ _ A1 A2). simpl.
  destruct (np_less r.2 p.2) eqn:E; [done|]. simpl.
  (* all three tie: the ranks decide *)
  assert (np_less q.2 p.2 = false) as C1.
  { destruct (np_less q.2 p.2) eqn:C; [|done].
    pose proof (np_less_neg_trans _ _ _ E A1). 
    pose proof (np_less_neg_trans q.2 r.2 p.2 A2 E). congruence. }
  assert (np_less r.2 q.2 = false) as C2.
  { destruct (np_less r.2 q.2) eqn:C; [|done].
    pose proof (np_less_neg_trans r.2 p.2 q.2 E A1). congruence. }
  rewrite C1 in B1. rewrite C2 in B2. simpl in B1, B2.
  apply Nat.ltb_ge in B1, B2. apply Nat.ltb_ge. lia.
Qed.

Lemma argsort_sorted tie_rank sims i j si sj :
  before i j (argsort tie_rank sims) ->
  sims !! i = Some si -> sims !! j = Some sj -> np_less sj si = false.
Proof.
  unfold argsort. cbv zeta.
  set (rank := if length sims <? 18 then _ else _).
  intros ([i' vi] & [j' vj] & Ei & Ej & Hb)%before_fmap_inv Hi Hj.
  simpl in Ei, Ej. subst i' j'.
  assert (Hin : forall p, p ∈ insertion_sort (pair_less rank) (imap pair sims) ->
                          sims !! p.1 = Some p.2).
  { intros p. rewrite insertion_sort_perm.
    intros (n & x & -> & Hx)%elem_of_lookup_imap. exact Hx. }
  pose proof (Hin _ (before_elem_of_l _ _ _ Hb)) as Hvi.
  pose proof (Hin _ (before_elem_of_r _ _ _ Hb)) as Hvj.
  simpl in Hvi, Hvj.
  assert (vi = si) as -> by congruence. assert (vj = sj) as -> by congruence.
  apply (insertion_sort_sorted (pair_less rank)) in Hb.
  - unfold pair_less in Hb. now apply orb_false_elim in Hb as [Hb _].
  - apply pair_less_asym.
  - apply pair_less_neg_trans.
Qed.

(** The candidates are in descending similarity ... *)
Lemma top_k_indices_descending tie_rank sims k i j si sj :
  before i j (top_k_indices tie_rank sims k) ->
  sims !! i = Some si -> sims !! j = Some sj -> np_less si sj = false.
Proof.
  unfold top_k_indices. destruct (slice_last_drop k (argsort tie_rank sims)) as [d ->].
  intros H%before_rev_inv%before_drop_inv Hi Hj.
  now apply (argsort_sorted tie_rank sims j i sj si).
Qed.

(** ... and no record left out is more similar than a candidate. *)
Lemma top_k_indices_highest tie_rank sims k i j si sj :
  i ∈ top_k_indices tie_rank sims k -> j ∉ top_k_indices tie_rank sims k ->
  sims !! i = Some si -> sims !! j = Some sj -> np_less si sj = false.
Proof.
  unfold top_k_indices. destruct (slice_last_drop k (argsort tie_rank sims)) as [d ->].
  rewrite !list_elem_of_In, <- !in_rev, <- !list_elem_of_In.
  intros Hi Hj Hsi Hsj.
  apply (argsort_sorted tie_rank sims j i sj si); [|done..].
  rewrite <- (take_drop d (argsort tie_rank sims)). apply before_app; [|done].
  assert (Hj' : j ∈ argsort tie_rank sims).
  { apply (argsort_elem_of tie_rank). eapply lookup_lt_Some, Hsj. }
  rewrite <- (take_drop d (argsort tie_rank sims)) in Hj'.
  apply elem_of_app in Hj' as [?|?]; [done|contradiction].
Qed.

Lemma top_k_indices_length tie_rank sims k :
  (0 < k)%Z ->
  length (top_k_indices tie_rank sims k) = Nat.min (Z.to_nat k) (length sims).
Proof.
  intros Hk. unfold top_k_indices, slice_last.
  destruct (Z.ltb_spec 0 k); [|lia].
  rewrite length_rev, length_drop.
  rewrite (Permutation_length (argsort_perm tie_rank sims)), length_seq. lia.
Qed.

(** What is returned is in descending date order, and as many as asked for
    when there are that many candidates. *)
Lemma top_n_indices_order (dates : list Z) top_k n picked :
  top_n_indices dates top_k n = Ok picked ->
  (forall i j di dj,
      before i j picked -> dates !! i = Some di -> dates !! j = Some dj ->
      (dj <= di)%Z) /\
  ((0 <= n)%Z -> length picked = Nat.min (Z.to_nat n) (length top_k)).
Proof.
  unfold top_n_indices.
  destruct (map_result _ top_k) as [keys|] eqn:Ek; [|discriminate].
  intros [= <-].
  apply map_result_Forall2 in Ek.
  pose proof (Forall2_length _ _ _ Ek) as Hlen.
  apply dated_pairs in Ek as [Hfst Hdated].
  set (pairs := zip top_k keys) in *.
  set (sorted := sorted_desc snd pairs).
  assert (Hperm : sorted ≡ₚ pairs) by apply sorted_desc_perm.
  assert (Hsorted : StronglySorted (desc snd) sorted) by apply sorted_desc_sorted.
  assert (Hdated' : Forall (fun p : nat * Z => dates !! p.1 = Some p.2) sorted)
    by now rewrite Hperm.
  split.
  - destruct (slice_first_take n sorted) as [m ->].
    intros i j di dj ([i' di'] & [j' dj'] & Ei & Ej & Hb)%before_fmap_inv Hi Hj.
    simpl in Ei, Ej. subst i' j'.
    apply before_take_inv in Hb.
    rewrite Forall_forall in Hdated'.
    pose proof (Hdated' _ (before_elem_of_l _ _ _ Hb)) as Hi'.
    pose proof (Hdated' _ (before_elem_of_r _ _ _ Hb)) as Hj'.
    simpl in Hi', Hj'.
    assert (di' = di) as -> by congruence. assert (dj' = dj) as -> by congruence.
    apply (StronglySorted_before _ _ _ _ Hsorted Hb).
  - intros Hn. unfold slice_first. destruct (Z.leb_spec 0 n); [|lia].
    rewrite length_fmap, length_take.
    rewrite (Permutation_length Hperm). subst pairs.
    rewrite length_zip_with. lia.
Qed.

(** ** Every order that sorts is an answer of [argsort] *)

Lemma before_StronglySorted {A} (R : relation A) (l : list A) :
  (forall a b, before a b l -> R a b) -> StronglySorted R l.
Proof.
  induction l as [|x l IH]; intros H; constructor.
  - apply IH. intros a b Hb. now apply H, before_cons.
  - apply Forall_forall. intros y Hy. now apply H, before_head.
Qed.

Lemma position_before l i j :
  NoDup l -> before i j l -> position l i < position l j.
Proof.
  induction l as [|x l IH]; intros Hnd Hb.
  - apply before_elem_of_l in Hb. now apply elem_of_nil in Hb.
  - apply NoDup_cons in Hnd as [Hx Hnd]. simpl.
    destruct (Nat.eqb_spec x j) as [->|Hj].
    { apply before_cons_inv in Hb as [[_ Hb]|Hb].
      - now destruct Hx.
      - apply before_elem_of_r in Hb. now destruct Hx. }
    destruct (Nat.eqb_spec x i) as [->|Hi]; [lia|].
    apply before_cons_inv in Hb as [[-> _]|Hb]; [done|].
    apply IH in Hb; [lia|done].
Qed.

Lemma position_inj l i j : i ∈ l -> j ∈ l -> position l i = position l j -> i = j.
Proof.
  induction l as [|x l IH]; intros Hi Hj; [now apply elem_of_nil in Hi|].
  simpl. destruct (Nat.eqb_spec x i) as [Ei|Ni], (Nat.eqb_spec x j) as [Ej|Nj];
    try done; [congruence|].
  intros [= E]. apply elem_of_cons in Hi as [Hi|Hi]; [done|].
  apply elem_of_cons in Hj as [Hj|Hj]; [done|]. now apply IH.
Qed.

Lemma imap_pair_seq (a : list float) :
  imap pair a = (fun i => (i, default 0%float (a !! i))) <$> seq 0 (length a).
Proof.
  apply list_eq. intros i. rewrite list_lookup_imap, list_lookup_fmap.
  destruct (a !! i) as [x|] eqn:E; simpl.
  - rewrite lookup_seq_lt by (now apply lookup_lt_Some in E). simpl. now rewrite E.
  - rewrite lookup_seq_ge by (now apply lookup_ge_None in E). done.
Qed.

(** A permutation of the indices that sorts [a] is what [argsort] gives when
    ties are ranked by their places in it. *)
Lemma argsort_any_order (a : list float) (order : list nat) :
  18 <= length a ->
  order ≡ₚ seq 0 (length a) ->
  (forall i j si sj,
      before i j order -> a !! i = Some si -> a !! j = Some sj ->
      np_less sj si = false) ->
  argsort (fun _ => position order) a = order.
Proof.
  intros Hlen Hperm Hsorted. unfold argsort.
  destruct (Nat.ltb_spec (length a) 18) as [|_]; [lia|]. cbv zeta.
  set (rank := position order).
  set (R := fun p q : nat * float => pair_less rank q p = false).
  set (pairs := (fun i => (i, default 0%float (a !! i))) <$> order).
  assert (Hnd : NoDup order) by (rewrite Hperm; apply NoDup_seq).
  assert (Hin : forall i, i ∈ order -> exists x, a !! i = Some x).
  { intros i. rewrite Hperm, elem_of_seq. intros [_ Hi].
    now apply lookup_lt_is_Some_2. }
  enough (E : insertion_sort (pair_less rank) (imap pair a) = pairs).
  { rewrite E. subst pairs. rewrite <- list_fmap_compose.
    rewrite <- (list_fmap_id order) at 2. now apply list_fmap_ext. }
  assert (Hsnd : forall i, i ∈ order -> a !! i = Some (default 0%float (a !! i))).
  { intros i [x ->]%Hin. done. }
  apply (StronglySorted_unique_strong R).
  - intros [i x] [j y] Hi (j' & [= -> ->] & Hj)%list_elem_of_fmap H1 H2.
    rewrite insertion_sort_perm in Hi.
    apply elem_of_lookup_imap in Hi as (i' & x' & [= <- <-] & Hx).
    subst R. unfold pair_less in H1, H2. cbn [fst snd] in H1, H2.
    apply orb_false_elim in H1 as [L1 K1]. apply orb_false_elim in H2 as [L2 K2].
    rewrite L2 in K1. rewrite L1 in K2. cbn [negb andb] in K1, K2.
    apply Nat.ltb_ge in K1, K2.
    assert (i = j') as ->.
    { apply (position_inj order); [|done|subst rank; lia].
      rewrite Hperm, elem_of_seq. apply lookup_lt_Some in Hx. lia. }
    now rewrite Hx.
  - apply before_StronglySorted. intros p q Hb. subst R.
    exact (insertion_sort_sorted (pair_less rank) (pair_less_asym rank)
             (pair_less_neg_trans rank) _ _ _ Hb).
  - apply before_StronglySorted. intros p q (i & j & <- & <- & Hb)%before_fmap_inv.
    subst R. unfold pair_less. cbn [fst snd].
    pose proof (Hsnd i (before_elem_of_l _ _ _ Hb)) as Hi.
    pose proof (Hsnd j (before_elem_of_r _ _ _ Hb)) as Hj.
    rewrite (Hsorted i j _ _ Hb Hi Hj). cbn [orb].
    apply andb_false_intro2, Nat.ltb_ge.
    pose proof (position_before order i j Hnd Hb). subst rank. lia.
  - rewrite insertion_sort_perm, imap_pair_seq. subst pairs.
    now apply fmap_Permutation.
Qed.


(** * Retrieval, batches, persistence and the resume check *)

(** ** Candidate selection and ties *)




(** ** Recency among the candidates *)

(** C2: whenever retrieval on a non-empty store returns, what it returns are
    the records at the first [top_n] positions of the candidates sorted by
    date, most recent first: no returned record is older than a candidate
    left out, the returned records of one date are, in order, the first
    candidates of that date, they come in descending date order, and there
    are [top_n] of them when there are that many candidates. *)
Theorem retrieve_recency_law tie_rank embed (s : UtilityRAG) q n k hits :
  memories s <> [] ->
  (retrieve_memories tie_rank embed q n k true s).2 = Ok hits ->
  exists qe sims picked,
    embed q = Ok qe /\
    similarities (memory_embeddings s) qe = Ok sims /\
    top_n_indices (memory_dates s) (top_k_indices tie_rank sims k) n = Ok picked /\
    Forall2 (fun i h => exists t, memories s !! i = Some t /\ h = JustText t)
            picked hits /\
    picked ⊆ top_k_indices tie_rank sims k /\
    (forall r o dr do,
        r ∈ picked -> o ∈ top_k_indices tie_rank sims k -> o ∉ picked ->
        memory_dates s !! r = Some dr -> memory_dates s !! o = Some do ->
        (do <= dr)%Z) /\
    (forall t, filter (fun i => memory_dates s !! i = Some t) picked
               `prefix_of`
               filter (fun i => memory_dates s !! i = Some t) (top_k_indices tie_rank sims k)) /\
    (forall i j di dj,
        before i j picked ->
        memory_dates s !! i = Some di -> memory_dates s !! j = Some dj ->
        (dj <= di)%Z) /\
    ((0 <= n)%Z ->
     length picked = Nat.min (Z.to_nat n) (length (top_k_indices tie_rank sims k))).
Proof.
  intros Hne Hr.
  apply retrieve_memories_inv in Hr as (qe & sims & picked & Hq & Hs & Hp & Hh); [|done].
  exists qe, sims, picked.
  destruct (top_n_indices_spec _ _ _ _ Hp) as (Hsub & Hdate & Hstable).
  destruct (top_n_indices_order _ _ _ _ Hp) as (Horder & Hcount).
  repeat split; try done.
  apply map_result_Forall2 in Hh.
  eapply Forall2_impl; [exact Hh|].
  intros i h Hi. simpl in Hi. unfold make_hit in Hi.
  destruct (py_index (memories s) i) as [t|] eqn:Et; [|discriminate].
  injection Hi as <-. exists t. split; [|done]. now apply py_index_Ok.
Qed.

Lemma retrieve_recency_law_witness :
  exists qe sims picked,
    stub_embed "career update" = Ok qe /\
    similarities (memory_embeddings dated_store) qe = Ok sims /\
    top_n_indices (memory_dates dated_store) (top_k_indices stub_rank sims 5) 2 = Ok picked /\
    Forall2 (fun i h => exists t, memories dated_store !! i = Some t /\ h = JustText t)
            picked [JustText "moved to New Paltz"; JustText "a"] /\
    picked ⊆ top_k_indices stub_rank sims 5 /\
    (forall r o dr do,
        r ∈ picked -> o ∈ top_k_indices stub_rank sims 5 -> o ∉ picked ->
        memory_dates dated_store !! r = Some dr ->
        memory_dates dated_store !! o = Some do ->
        (do <= dr)%Z) /\
    (forall t, filter (fun i => memory_dates dated_store !! i = Some t) picked
               `prefix_of`
               filter (fun i => memory_dates dated_store !! i = Some t)
                      (top_k_indices stub_rank sims 5)) /\
    (forall i j di dj,
        before i j picked ->
        memory_dates dated_store !! i = Some di ->
        memory_dates dated_store !! j = Some dj ->
        (dj <= di)%Z) /\
    ((0 <= 2)%Z ->
     length picked = Nat.min (Z.to_nat 2) (length (top_k_indices stub_rank sims 5))).
Proof.
  apply (retrieve_recency_law stub_rank stub_embed dated_store "career update" 2 5).
  - vm_compute. discriminate.
  - vm_compute. reflexivity.
Defined.

(** ** Retrieval reads only *)

(** C10: retrieval leaves the store as it was, and what it returns are at
    most [top_n] items whose texts are stored texts. *)
Theorem retrieve_reads_only tie_rank embed (s : UtilityRAG) q n k just_text :
  (retrieve_memories tie_rank embed q n k just_text s).1 = s /\
  forall hits,
    (retrieve_memories tie_rank embed q n k just_text s).2 = Ok hits ->
    ((0 <= n)%Z -> (Z.of_nat (length hits) <= n)%Z) /\
    (forall h, h ∈ hits -> hit_text h ∈ memories s).
Proof.
  split; [apply retrieve_memories_state|].
  intros hits Hr.
  destruct (memories s) as [|t0 ts] eqn:Em.
  { rewrite retrieve_memories_empty in Hr by done. injection Hr as <-.
    split; [simpl; lia|]. intros h Hh. inversion Hh. }
  apply retrieve_memories_inv in Hr as (qe & sims & picked & Hq & Hs & Hp & Hh);
    [|rewrite Em; done].
  apply map_result_Forall2 in Hh. split.
  - intros Hn. rewrite <- (Forall2_length _ _ _ Hh).
    now apply (top_n_indices_length _ _ _ _ Hp).
  - intros h Hin. rewrite <- Em.
    apply list_elem_of_lookup in Hin as [p Hp'].
    destruct (Forall2_lookup_r _ _ _ _ _ Hh Hp') as (i & _ & Hi).
    apply make_hit_text in Hi. eapply list_elem_of_lookup_2, Hi.
Qed.

Lemma retrieve_reads_only_witness :
  (0 <= 1)%Z /\
  (retrieve_memories stub_rank stub_embed "career update" 1 4 true scenario_store).1
    = scenario_store /\
  forall hits,
    (retrieve_memories stub_rank stub_embed "career update" 1 4 true scenario_store).2 = Ok hits ->
    ((0 <= 1)%Z -> (Z.of_nat (length hits) <= 1)%Z) /\
    (forall h, h ∈ hits -> hit_text h ∈ memories scenario_store).
Proof.
  split; [lia|].
  apply (retrieve_reads_only stub_rank stub_embed scenario_store "career update" 1 4 true).
Defined.

(** ** Batches *)

Lemma add_loop_add_each embed pairs s :
  add_loop embed pairs s = add_each embed pairs s.
Proof.
  revert s. induction pairs as [|[t d] rest IH]; intros s; [done|].
  simpl. unfold add, add_memories. simpl.
  unfold bind, lift, modify, ret. destruct (embed t); [|done]. apply IH.
Qed.

Lemma add_loop_raise embed pairs s e :
  (add_loop embed pairs s).2 = Raise e -> exists p, p ∈ pairs /\ embed p.1 = Raise e.
Proof.
  revert s. induction pairs as [|[t d] rest IH]; intros s; [discriminate|].
  simpl. unfold bind, lift, modify.
  destruct (embed t) as [v|e'] eqn:Et.
  - intros (p & Hp & He)%IH. exists p. split; [set_solver|done].
  - simpl. intros [= <-]. exists (t, d). split; [set_solver|done].
Qed.

Lemma add_loop_ok embed pairs embs s :
  Forall2 (fun p v => embed p.1 = Ok v) pairs embs ->
  add_loop embed pairs s
  = (mkRAG (memories s ++ pairs.*1) (memory_embeddings s ++ embs)
           (memory_dates s ++ pairs.*2), Ok tt).
Proof.
  intros H. revert s. induction H as [|[t d] v rest embs Hv _ IH]; intros s.
  - simpl. unfold ret. rewrite !app_nil_r. now destruct s.
  - simpl in *. unfold bind, lift, modify. rewrite Hv, IH. simpl.
    now rewrite <- !app_assoc.
Qed.

Lemma add_loop_aligned embed pairs s :
  aligned s -> aligned (add_loop embed pairs s).1.
Proof.
  revert s. induction pairs as [|[t d] rest IH]; intros s Hs; [done|].
  simpl. unfold bind, lift, modify. destruct (embed t); [|done].
  apply IH. destruct Hs as [He Hd]. split; simpl; rewrite !length_app; simpl; lia.
Qed.

(** C3 (as stated, refuted): [add_batch(["a","b"], [1])] raises nothing; it
    stores the one pair that [zip] forms. *)
Lemma add_memories_mismatch_counterexample :
  length ["a"; "b"] <> length [1%Z] /\
  add_memories stub_embed ["a"; "b"] [1]%Z UtilityRAG_init
  = (mkRAG ["a"] [[1; 1]%float] [1%Z], Ok tt).
Proof. split; [simpl; lia|vm_compute; reflexivity]. Qed.

(** C3 (amended): [add_memories] does not compare the two lengths.  It is
    equivalent to calling [add] for each pair of [zip(texts, dates)] in
    order, whatever the lengths (so equal lengths mean every text with its
    date, and a surplus on either side is ignored); it can only raise what
    the embedder raises; and when the embedder answers for the zipped texts
    it returns normally with exactly these pairs appended. *)
Theorem add_memories_is_add_each embed texts dates (s : UtilityRAG) :
  add_memories embed texts dates s = add_each embed (zip texts dates) s /\
  (forall e, (add_memories embed texts dates s).2 = Raise e ->
             exists t, t ∈ texts /\ embed t = Raise e) /\
  (forall embs,
      Forall2 (fun t v => embed t = Ok v) (zip texts dates).*1 embs ->
      add_memories embed texts dates s
      = (mkRAG (memories s ++ (zip texts dates).*1)
               (memory_embeddings s ++ embs)
               (memory_dates s ++ (zip texts dates).*2), Ok tt)).
Proof.
  unfold add_memories. split; [apply add_loop_add_each|split].
  - intros e ([t d] & Hp & He)%add_loop_raise. exists t. split; [|done].
    now apply elem_of_zip_l in Hp.
  - intros embs H. apply add_loop_ok. now apply Forall2_fmap_l in H.
Qed.

Lemma add_memories_is_add_each_witness :
  add_memories stub_embed ["a"; "b"] [1]%Z UtilityRAG_init
  = (mkRAG ([] ++ (zip ["a"; "b"] [1%Z]).*1) ([] ++ [[1; 1]%float])
           ([] ++ (zip ["a"; "b"] [1%Z]).*2), Ok tt).
Proof.
  apply (proj2 (proj2 (add_memories_is_add_each stub_embed ["a"; "b"] [1%Z]
                         UtilityRAG_init)) [[1; 1]%float]).
  repeat constructor.
Defined.

(** ** Zero vectors *)

Lemma is_nan_of_spec x : Prim2SF x = S754_nan -> is_nan x = true.
Proof.
  intros H. unfold is_nan. rewrite FloatAxioms.eqb_spec, H. reflexivity.
Qed.

Lemma is_infinity_of_spec x s : Prim2SF x = S754_infinity s -> is_infinity x = true.
Proof.
  intros H. unfold is_infinity.
  rewrite FloatAxioms.eqb_spec, FloatAxioms.abs_spec, H. reflexivity.
Qed.

(** C4 (as stated, refuted): for a stored zero vector the product of norms is
    zero and the similarity that [retrieve_memories] computes is NaN, not 0. *)
Lemma zero_vector_similarity_counterexample :
  stub_embed "nothing" = Ok [0; 0]%float /\
  is_zero (norm [0; 0] * norm [1; 0])%float = true /\
  similarities [[0; 0]%float] [1; 0]%float = Ok [nan] /\
  (nan =? 0)%float = false.
Proof. repeat split; vm_compute; reflexivity. Qed.

(** C4 (amended): the cosine similarity is computed without a guard.  No
    error is raised for zero vectors (the computation fails only on a shape
    mismatch), and whenever the product of norms in the denominator is zero
    the similarity is the result of the IEEE division by zero: NaN or an
    infinity, never 0. *)
Theorem zero_denominator_unguarded (E : list (list float)) (q : list float) :
  (E <> [] -> Forall (fun e => length e = length q) E ->
   exists sims, similarities E q = Ok sims) /\
  (forall sims i e x,
      similarities E q = Ok sims ->
      E !! i = Some e -> sims !! i = Some x ->
      is_zero (norm e * norm q)%float = true ->
      x = (dot e q / (norm e * norm q))%float /\
      (is_nan x = true \/ is_infinity x = true) /\
      (x =? 0)%float = false).
Proof.
  split; [apply similarities_total|].
  intros sims i e x Hs He Hx Hz.
  apply similarities_Ok in Hs. subst sims.
  rewrite list_lookup_fmap, He in Hx. injection Hx as <-.
  split; [done|]. split; [|now apply div_by_zero_not_zero].
  destruct (div_by_zero (dot e q) _ Hz) as [H|[s H]].
  - left. now apply is_nan_of_spec.
  - right. now apply is_infinity_of_spec in H.
Qed.

Lemma zero_denominator_unguarded_witness :
  (nan = (dot [0; 0] [1; 0] / (norm [0; 0] * norm [1; 0]))%float /\
   (is_nan nan = true \/ is_infinity nan = true) /\
   (nan =? 0)%float = false).
Proof.
  apply (proj2 (zero_denominator_unguarded [[0; 0]%float] [1; 0]%float)
               [nan] 0 [0; 0]%float nan);
    vm_compute; reflexivity.
Defined.

(** ** Saving and loading one store *)

Section StorePersistence.

Context {bytes : Type}.
Context (pickle_dumps : pickled -> bytes) (pickle_loads : bytes -> result pickled).

Implicit Types (s : UtilityRAG) (fs : gmap string bytes) (path : string).

Lemma save_to_file_run path s fs :
  save_to_file pickle_dumps path (s, fs)
  = ((s, <[path := pickle_dumps (state_dict s)]> fs), Ok tt).
Proof. reflexivity. Qed.

(** Loading never writes. *)
Lemma load_from_file_files path s fs :
  (load_from_file pickle_loads path (s, fs)).1.2 = fs.
Proof.
  unfold load_from_file, bind, read_file, lift, on_rag, modify. simpl.
  destruct (fs !! path) as [b|]; [|done].
  destruct (pickle_loads b) as [[m e d]|]; [|done]. simpl.
  destruct m; [|done]. destruct e; [|done]. destruct d; done.
Qed.

(** A missing or unpicklable blob: the load raises and has changed
    nothing. *)
Lemma load_from_file_unreadable path s fs :
  unreadable pickle_loads fs path ->
  exists e, load_from_file pickle_loads path (s, fs) = ((s, fs), Raise e).
Proof.
  unfold unreadable, load_from_file, bind, read_file, lift. simpl.
  destruct (fs !! path) as [b|]; [|eauto].
  intros [e ->]. eauto.
Qed.

(** The blob of a saved store: the load returns and the store is the saved
    one. *)
Lemma load_from_file_holds path s s' fs :
  holds pickle_loads fs path s' ->
  load_from_file pickle_loads path (s, fs) = ((s', fs), Ok tt).
Proof.
  intros (b & Hb & Hl).
  unfold load_from_file, bind, read_file, lift, on_rag, modify. simpl.
  rewrite Hb, Hl. simpl. now destruct s'.
Qed.

Lemma load_from_file_ok_readable path s fs w :
  load_from_file pickle_loads path (s, fs) = (w, Ok tt) ->
  ~ unreadable pickle_loads fs path.
Proof.
  unfold unreadable, load_from_file, bind, read_file, lift. simpl.
  destruct (fs !! path) as [b|]; [|discriminate].
  destruct (pickle_loads b); [|discriminate].
  intros _ [e He]. discriminate.
Qed.

Hypothesis pickle_roundtrip : forall p, pickle_loads (pickle_dumps p) = Ok p.

Lemma holds_saved path s fs :
  holds pickle_loads (<[path := pickle_dumps (state_dict s)]> fs) path s.
Proof using pickle_roundtrip.
  exists (pickle_dumps (state_dict s)). split; [apply lookup_insert_eq|apply pickle_roundtrip].
Qed.

End StorePersistence.

(** C7: [save_to_file] followed by [load_from_file] on the same path, into
    any store, gives back the saved store: the same texts, the same dates and
    the very embedding vectors that were stored.  Loading takes no embedder;
    [pickle] is taken to give back what it was given. *)
Theorem save_load_roundtrip {bytes : Type}
    (pickle_dumps : pickled -> bytes) (pickle_loads : bytes -> result pickled)
    (s s0 : UtilityRAG) (fs : gmap string bytes) (path : string) :
  (forall p, pickle_loads (pickle_dumps p) = Ok p) ->
  exists fs',
    save_to_file pickle_dumps path (s, fs) = ((s, fs'), Ok tt) /\
    load_from_file pickle_loads path (s0, fs') = ((s, fs'), Ok tt) /\
    memories (load_from_file pickle_loads path (s0, fs')).1.1 = memories s /\
    memory_dates (load_from_file pickle_loads path (s0, fs')).1.1 = memory_dates s /\
    memory_embeddings (load_from_file pickle_loads path (s0, fs')).1.1
      = memory_embeddings s.
Proof.
  intros Hrt. eexists. split; [apply save_to_file_run|].
  rewrite (load_from_file_holds pickle_loads path s0 s) by now apply holds_saved.
  done.
Qed.

Lemma save_load_roundtrip_witness :
  exists fs',
    save_to_file blob_dumps "facts.pkl" (scenario_store, ∅) = ((scenario_store, fs'), Ok tt) /\
    load_from_file blob_loads "facts.pkl" (UtilityRAG_init, fs')
      = ((scenario_store, fs'), Ok tt) /\
    memories (load_from_file blob_loads "facts.pkl" (UtilityRAG_init, fs')).1.1
      = memories scenario_store /\
    memory_dates (load_from_file blob_loads "facts.pkl" (UtilityRAG_init, fs')).1.1
      = memory_dates scenario_store /\
    memory_embeddings (load_from_file blob_loads "facts.pkl" (UtilityRAG_init, fs')).1.1
      = memory_embeddings scenario_store.
Proof.
  apply (save_load_roundtrip blob_dumps blob_loads scenario_store UtilityRAG_init
                             ∅ "facts.pkl").
  intros p. reflexivity.
Defined.

(** ** The invariant of the parallel lists *)

(** C9: the three lists have one length in a new store, after
    [add_memories] (also when the embedder raises half way), after
    [retrieve_memories] and [save_to_file], which leave the store alone, and
    after loading the blob that [save_to_file] wrote for an aligned store. *)
Theorem aligned_invariant :
  aligned UtilityRAG_init /\
  (forall embed texts dates (s : UtilityRAG),
      aligned s -> aligned (add_memories embed texts dates s).1) /\
  (forall tie_rank embed q n k jt (s : UtilityRAG),
      aligned s -> aligned (retrieve_memories tie_rank embed q n k jt s).1) /\
  (forall (bytes : Type) (pickle_dumps : pickled -> bytes)
          (pickle_loads : bytes -> result pickled)
          (s s0 : UtilityRAG) (fs : gmap string bytes) (path : string),
      (forall p, pickle_loads (pickle_dumps p) = Ok p) ->
      aligned s ->
      aligned (save_to_file pickle_dumps path (s, fs)).1.1 /\
      (load_from_file pickle_loads path
         (s0, (save_to_file pickle_dumps path (s, fs)).1.2)).2 = Ok tt /\
      aligned (load_from_file pickle_loads path
                 (s0, (save_to_file pickle_dumps path (s, fs)).1.2)).1.1).
Proof.
  split; [split; reflexivity|]. split; [|split].
  - intros embed texts dates s Hs. now apply add_loop_aligned.
  - intros tie_rank embed q n k jt s Hs. now rewrite retrieve_memories_state.
  - intros bytes dumps loads s s0 fs path Hrt Hs.
    rewrite save_to_file_run. simpl.
    rewrite (load_from_file_holds loads path s0 s) by now apply holds_saved.
    done.
Qed.

Lemma aligned_invariant_witness :
  aligned (add_memories stub_embed ["likes hiking"; ""; "a"] [1; 2; 3]%Z scenario_store).1 /\
  aligned (load_from_file blob_loads "facts.pkl"
             (UtilityRAG_init,
              (save_to_file blob_dumps "facts.pkl" (scenario_store, ∅)).1.2)).1.1.
Proof.
  assert (H : aligned scenario_store) by (split; reflexivity).
  split.
  - apply (proj1 (proj2 aligned_invariant) stub_embed _ _ scenario_store H).
  - apply (proj2 (proj2 (proj2 aligned_invariant)) blob blob_dumps blob_loads
                 scenario_store UtilityRAG_init ∅ "facts.pkl");
      [intros p; reflexivity|exact H].
Defined.

(** ** Saving and loading the three layers *)

Lemma layer_file_relative y : String.prefix "/" (layer_file y) = false.
Proof. now destruct y. Qed.

Lemma layer_file_inj y y' : layer_file y = layer_file y' -> y = y'.
Proof. now destruct y, y'. Qed.

(** The three blobs of a directory are three different files. *)
Lemma path_join_layer_inj dir y y' :
  path_join dir (layer_file y) = path_join dir (layer_file y') -> y = y'.
Proof.
  unfold path_join. rewrite !layer_file_relative.
  destruct (_ || _); intros H.
  - now apply String.app_inj, layer_file_inj in H.
  - now apply String.app_inj, String.app_inj, layer_file_inj in H.
Qed.

Section LayerPersistence.

Context {bytes : Type}.
Context (pickle_dumps : pickled -> bytes) (pickle_loads : bytes -> result pickled).

Implicit Types (l : LMRRAG) (fs : gmap string bytes) (dir : option string).

Lemma LMRRAG_save_to_file_run dir l fs :
  let file y := path_join (or_default dir (output_dir l)) (layer_file y) in
  LMRRAG_save_to_file pickle_dumps dir (l, fs)
  = ((l, <[file DeepReflections := pickle_dumps (state_dict (deep_reflections l))]>
          (<[file Reflections := pickle_dumps (state_dict (reflections l))]>
             (<[file Facts := pickle_dumps (state_dict (facts l))]> fs))), Ok tt).
Proof. simpl. unfold LMRRAG_save_to_file. cbn. now destruct l. Qed.

(** [LMRRAG.load_from_file], layer by layer. *)
Lemma LMRRAG_load_from_file_run dir l fs :
  let file y := path_join (or_default dir (output_dir l)) (layer_file y) in
  LMRRAG_load_from_file pickle_loads dir (l, fs)
  = match load_from_file pickle_loads (file Facts) (facts l, fs) with
    | (w1, Raise _) => ((set_facts w1.1 l, w1.2), Ok false)
    | (w1, Ok _) =>
      match load_from_file pickle_loads (file Reflections) (reflections l, w1.2) with
      | (w2, Raise _) => ((set_reflections w2.1 (set_facts w1.1 l), w2.2), Ok false)
      | (w2, Ok _) =>
        match load_from_file pickle_loads (file DeepReflections)
                             (deep_reflections l, w2.2) with
        | (w3, r) =>
          ((set_deep_reflections w3.1 (set_reflections w2.1 (set_facts w1.1 l)), w3.2),
           Ok (is_ok r))
        end
      end
    end.
Proof.
  simpl. unfold LMRRAG_load_from_file, try_bool, bind, get, in_layer_fs, zoom. simpl.
  destruct (load_from_file _ _ (facts l, fs)) as [w1 [[]|e1]]; [|done]. simpl.
  destruct (load_from_file _ _ (reflections l, w1.2)) as [w2 [[]|e2]]; [|done]. simpl.
  destruct (load_from_file _ _ (deep_reflections l, w2.2)) as [w3 [[]|e3]]; done.
Qed.

End LayerPersistence.

(** C5 (as stated, refuted): with the facts blob in place and the reflections
    blob missing, [load] returns false, but the facts layer has already been
    replaced by the blob's content. *)
Lemma load_not_atomic_counterexample :
  let files : gmap string blob := {[ "d/facts.pkl" := some_pickle ]} in
  let before_load := LMRRAG_init "d" in
  unreadable blob_loads files "d/reflections.pkl" /\
  LMRRAG_load_from_file blob_loads None (before_load, files)
  = ((set_facts some_rag before_load, files), Ok false) /\
  facts (LMRRAG_load_from_file blob_loads None (before_load, files)).1.1
  <> facts before_load.
Proof.
  simpl. split; [|split].
  - vm_compute. exact I.
  - vm_compute. reflexivity.
  - vm_compute. discriminate.
Qed.

(** C5 (amended): if any of the three layer blobs is missing or unreadable,
    [load] returns false and writes nothing.  The layers are loaded in the
    order facts, reflections, deep reflections, and loading stops at the
    first blob that fails: the layers of the blobs before it have been
    replaced by what those blobs hold, the failing layer and the layers after
    it are as they were (so nothing has changed when the facts blob is the
    one that fails). *)
Theorem load_stops_at_first_failure {bytes : Type}
    (pickle_loads : bytes -> result pickled)
    (dir : option string) (l : LMRRAG) (fs : gmap string bytes) :
  let file y := path_join (or_default dir (output_dir l)) (layer_file y) in
  let r := LMRRAG_load_from_file pickle_loads dir (l, fs) in
  (unreadable pickle_loads fs (file Facts) \/
   unreadable pickle_loads fs (file Reflections) \/
   unreadable pickle_loads fs (file DeepReflections) ->
   r.2 = Ok false /\ r.1.2 = fs) /\
  (unreadable pickle_loads fs (file Facts) -> r.1.1 = l) /\
  (forall f,
      holds pickle_loads fs (file Facts) f ->
      unreadable pickle_loads fs (file Reflections) ->
      r.1.1 = set_facts f l) /\
  (forall f g,
      holds pickle_loads fs (file Facts) f ->
      holds pickle_loads fs (file Reflections) g ->
      unreadable pickle_loads fs (file DeepReflections) ->
      r.1.1 = set_reflections g (set_facts f l)).
Proof.
  intros file r. subst r file. rewrite LMRRAG_load_from_file_run. cbv zeta.
  set (d := or_default dir (output_dir l)).
  split; [|split; [|split]].
  - intros Hu.
    destruct (load_from_file pickle_loads (path_join d (layer_file Facts)) (facts l, fs))
      as [w1 r1] eqn:E1.
    pose proof (load_from_file_files pickle_loads (path_join d (layer_file Facts))
                  (facts l) fs) as F1.
    rewrite E1 in F1. simpl in F1. subst fs.
    destruct r1 as [[]|e1]; [|done].
    destruct (load_from_file pickle_loads (path_join d (layer_file Reflections))
                (reflections l, w1.2)) as [w2 r2] eqn:E2.
    pose proof (load_from_file_files pickle_loads (path_join d (layer_file Reflections))
                  (reflections l) w1.2) as F2.
    rewrite E2 in F2. simpl in F2.
    destruct r2 as [[]|e2]; [|done].
    destruct (load_from_file pickle_loads (path_join d (layer_file DeepReflections))
                (deep_reflections l, w2.2)) as [w3 r3] eqn:E3.
    pose proof (load_from_file_files pickle_loads
                  (path_join d (layer_file DeepReflections))
                  (deep_reflections l) w2.2) as F3.
    rewrite E3 in F3. simpl in F3. simpl. split; [|congruence].
    destruct r3 as [[]|e3]; [|done]. exfalso.
    apply load_from_file_ok_readable in E1, E2, E3. rewrite F2 in E3.
    destruct Hu as [Hu|[Hu|Hu]]; contradiction.
  - intros Hu.
    destruct (load_from_file_unreadable pickle_loads _ (facts l) fs Hu) as [e ->].
    simpl. now destruct l.
  - intros f Hf Hu.
    rewrite (load_from_file_holds pickle_loads _ (facts l) f fs Hf). cbn [fst snd].
    destruct (load_from_file_unreadable pickle_loads _ (reflections l) fs Hu) as [e ->].
    simpl. now destruct l.
  - intros f g Hf Hg Hu.
    rewrite (load_from_file_holds pickle_loads _ (facts l) f fs Hf). cbn [fst snd].
    rewrite (load_from_file_holds pickle_loads _ (reflections l) g fs Hg). cbn [fst snd].
    destruct (load_from_file_unreadable pickle_loads _ (deep_reflections l) fs Hu)
      as [e ->].
    simpl. now destruct l.
Qed.

Lemma load_stops_at_first_failure_witness :
  (LMRRAG_load_from_file blob_loads None
     (LMRRAG_init "d", {[ "d/facts.pkl" := some_pickle ]})).1.1
  = set_facts some_rag (LMRRAG_init "d").
Proof.
  apply (proj1 (proj2 (proj2 (load_stops_at_first_failure blob_loads None
           (LMRRAG_init "d") {[ "d/facts.pkl" := some_pickle ]}))) some_rag).
  - exists some_pickle. split; vm_compute; reflexivity.
  - vm_compute. exact I.
Defined.

(** C8: after [save] has written the three layers to a directory, [load] of
    that directory (into any LMRRAG) succeeds, and a [save] to the same
    directory right after it writes, for every layer, the contents that are
    there: no file changes.  [pickle] is taken to be a function of the dict
    that gives back what it was given. *)
Theorem load_save_no_drift {bytes : Type}
    (pickle_dumps : pickled -> bytes) (pickle_loads : bytes -> result pickled)
    (l l0 : LMRRAG) (fs : gmap string bytes) (dir : string) :
  (forall p, pickle_loads (pickle_dumps p) = Ok p) ->
  let persisted := (LMRRAG_save_to_file pickle_dumps (Some dir) (l, fs)).1.2 in
  exists l',
    LMRRAG_load_from_file pickle_loads (Some dir) (l0, persisted)
      = ((l', persisted), Ok true) /\
    facts l' = facts l /\ reflections l' = reflections l /\
    deep_reflections l' = deep_reflections l /\
    LMRRAG_save_to_file pickle_dumps (Some dir) (l', persisted)
      = ((l', persisted), Ok tt) /\
    (forall y, persisted !! path_join dir (layer_file y)
               = Some (pickle_dumps (state_dict (get_layer y l)))).
Proof.
  intros Hrt persisted. subst persisted.
  rewrite LMRRAG_save_to_file_run. cbv zeta. cbn [fst snd or_default].
  match goal with
  | |- context [LMRRAG_load_from_file _ _ (_, ?m)] => set (persisted := m)
  end.
  assert (Hne : forall y y', y <> y' ->
                  path_join dir (layer_file y) <> path_join dir (layer_file y')).
  { intros y y' Hy E. now apply Hy, (path_join_layer_inj dir). }
  assert (Hlook : forall y, persisted !! path_join dir (layer_file y)
                            = Some (pickle_dumps (state_dict (get_layer y l)))).
  { intros y. subst persisted.
    destruct y; cbn [get_layer];
      repeat first [ rewrite lookup_insert_eq; reflexivity
                   | rewrite lookup_insert_ne by (apply Hne; discriminate) ]. }
  assert (Hholds : forall y, holds pickle_loads persisted (path_join dir (layer_file y))
                                   (get_layer y l)).
  { intros y. eexists. split; [apply Hlook|apply Hrt]. }
  exists (set_deep_reflections (deep_reflections l)
            (set_reflections (reflections l) (set_facts (facts l) l0))).
  split; [|split; [done|split; [done|split; [done|split; [|done]]]]].
  - rewrite LMRRAG_load_from_file_run. cbv zeta. cbn [fst snd or_default].
    rewrite (load_from_file_holds pickle_loads _ _ _ _ (Hholds Facts)). cbn [fst snd].
    rewrite (load_from_file_holds pickle_loads _ _ _ _ (Hholds Reflections)).
    cbn [fst snd].
    rewrite (load_from_file_holds pickle_loads _ _ _ _ (Hholds DeepReflections)).
    reflexivity.
  - rewrite LMRRAG_save_to_file_run. cbv zeta. cbn [fst snd or_default].
    f_equal. f_equal.
    rewrite (insert_id persisted (path_join dir (layer_file Facts)))
      by apply (Hlook Facts).
    rewrite (insert_id persisted (path_join dir (layer_file Reflections)))
      by apply (Hlook Reflections).
    now rewrite (insert_id persisted (path_join dir (layer_file DeepReflections)))
      by apply (Hlook DeepReflections).
Qed.

Lemma load_save_no_drift_witness :
  let l := set_facts scenario_store (LMRRAG_init "d") in
  let persisted := (LMRRAG_save_to_file blob_dumps (Some "d") (l, ∅)).1.2 in
  exists l',
    LMRRAG_load_from_file blob_loads (Some "d") (LMRRAG_init "e", persisted)
      = ((l', persisted), Ok true) /\
    facts l' = facts l /\ reflections l' = reflections l /\
    deep_reflections l' = deep_reflections l /\
    LMRRAG_save_to_file blob_dumps (Some "d") (l', persisted)
      = ((l', persisted), Ok tt) /\
    (forall y, persisted !! path_join "d" (layer_file y)
               = Some (blob_dumps (state_dict (get_layer y l)))).
Proof.
  apply (load_save_no_drift blob_dumps blob_loads
           (set_facts scenario_store (LMRRAG_init "d")) (LMRRAG_init "e") ∅ "d").
  intros p. reflexivity.
Defined.

(** ** The reflection session and the log of generation calls *)

Section SessionLog.

Context {bytes : Type}.
Context (tie_rank : list float -> nat -> nat).
Context (embed : string -> result (list float)).
Context (pickle_dumps : pickled -> bytes) (pickle_loads : bytes -> result pickled).
Context (X : collaborators bytes).












End SessionLog.



Section SessionSteps.

Context {bytes : Type}.
Context (tie_rank : list float -> nat -> nat).
Context (embed : string -> result (list float)).
Context (pickle_dumps : pickled -> bytes) (pickle_loads : bytes -> result pickled).
Context (X : collaborators bytes).














End SessionSteps.


Section ResumeCheck.

Context {bytes : Type}.
Context (tie_rank : list float -> nat -> nat).
Context (embed : string -> result (list float)).
Context (pickle_dumps : pickled -> bytes) (pickle_loads : bytes -> result pickled).
Context (X : collaborators bytes).

(** [LMRRAG.load_from_file] never raises and never writes. *)
Lemma LMRRAG_load_from_file_frame dir (l : LMRRAG) (fs : gmap string bytes) :
  exists l' b, LMRRAG_load_from_file pickle_loads dir (l, fs) = ((l', fs), Ok b) /\
               output_dir l' = output_dir l.
Proof.
  rewrite LMRRAG_load_from_file_run. cbv zeta.
  set (d := or_default dir (output_dir l)).
  destruct (load_from_file pickle_loads (path_join d (layer_file Facts)) (facts l, fs))
    as [w1 r1] eqn:E1.
  pose proof (load_from_file_files pickle_loads (path_join d (layer_file Facts))
                (facts l) fs) as F1.
  rewrite E1 in F1. simpl in F1.
  destruct r1 as [[]|e1]; [|rewrite F1; eauto].
  destruct (load_from_file pickle_loads (path_join d (layer_file Reflections))
              (reflections l, w1.2)) as [w2 r2] eqn:E2.
  pose proof (load_from_file_files pickle_loads (path_join d (layer_file Reflections))
                (reflections l) w1.2) as F2.
  rewrite E2 in F2. simpl in F2.
  destruct r2 as [[]|e2]; [|rewrite F2, F1; eauto].
  destruct (load_from_file pickle_loads (path_join d (layer_file DeepReflections))
              (deep_reflections l, w2.2)) as [w3 r3] eqn:E3.
  pose proof (load_from_file_files pickle_loads
                (path_join d (layer_file DeepReflections))
                (deep_reflections l) w2.2) as F3.
  rewrite E3 in F3. simpl in F3. rewrite F3, F2, F1. eauto.
Qed.

(** The same inside the agent: only the memory that is loaded can change. *)
Lemma in_rag_fs_load_frame is_self dir (w : world bytes) :
  exists l' b,
    in_rag_fs is_self (LMRRAG_load_from_file pickle_loads dir) w
    = (mkWorld (set_the_rag is_self l' (agent w)) (files w) (llm_log w), Ok b).
Proof.
  unfold in_rag_fs, zoom.
  destruct (LMRRAG_load_from_file_frame dir (the_rag is_self (agent w)) (files w))
    as (l' & b & -> & _).
  now exists l', b.
Qed.


Lemma already_done_returns date_int (w : world bytes) b1 b2 d1 d2 :
  let a := agent w in
  files w !! path_join (ref_output_dir a date_int)
                       (config_name a +:+ "_updated_description.txt") = Some b1 ->
  decode_text X b1 = Ok d1 ->
  files w !! path_join (ref_output_dir a date_int)
                       (counterpart_name a +:+ "_updated_description.txt") = Some b2 ->
  decode_text X b2 = Ok d2 ->
  already_done X date_int w
  = (mkWorld (set_config_description (description_of_self a)
                (set_counterpart_description (py_strip X d2)
                   (set_config_description (py_strip X d1) a)))
             (files w) (llm_log w),
     Ok (transcript_dir_json_path a date_int)).
Proof.
  intros a H1 D1 H2 D2. subst a.
  unfold already_done, read_text, read_file, bind, get, lift, on_agent,
    modify, ret. simpl.
  rewrite H1, D1. simpl. rewrite H2, D2. reflexivity.
Qed.



End ResumeCheck.

(** * More on the memory store *)

(** ** How many records come back, and when retrieval fails *)

Lemma map_result_length {A B} (f : A -> result B) l ys :
  map_result f l = Ok ys -> length ys = length l.
Proof. intros H%map_result_Forall2. symmetry. eapply Forall2_length, H. Qed.

(** X1: on a store whose three lists are aligned and whose embeddings have
    the dimension of the query's embedding, retrieval with [top_n >= 0] and
    [candidate_k > 0] raises nothing and returns exactly
    [min(top_n, candidate_k, number of records)] items. *)
Theorem retrieve_returns_count tie_rank embed (s : UtilityRAG) q qe n k just_text :
  aligned s -> embed q = Ok qe ->
  Forall (fun e => length e = length qe) (memory_embeddings s) ->
  (0 <= n)%Z -> (0 < k)%Z ->
  exists hits,
    retrieve_memories tie_rank embed q n k just_text s = (s, Ok hits) /\
    length hits
    = Nat.min (Z.to_nat n) (Nat.min (Z.to_nat k) (length (memories s))).
Proof.
  intros Hal Hq Hdim Hn Hk.
  destruct (retrieve_memories_total tie_rank embed s q qe n k just_text Hal Hq Hdim)
    as [hits Hhits].
  exists hits. split.
  { rewrite <- (retrieve_memories_state tie_rank embed s q n k just_text) at 2.
    rewrite <- Hhits. now destruct (retrieve_memories _ _ _ _ _ _ _). }
  destruct (memories s) as [|t0 ts] eqn:Em.
  { rewrite retrieve_memories_empty in Hhits by done. injection Hhits as <-.
    simpl. lia. }
  apply retrieve_memories_inv in Hhits
    as (qe' & sims & picked & Hq' & Hs & Hp & Hh); [|rewrite Em; done].
  rewrite (map_result_length _ _ _ Hh).
  destruct (top_n_indices_order _ _ _ _ Hp) as [_ Hcount].
  rewrite (Hcount Hn), (top_k_indices_length tie_rank sims k Hk).
  rewrite (similarities_length _ _ _ Hs). destruct Hal as [-> _].
  now rewrite Em.
Qed.

Lemma retrieve_returns_count_witness :
  exists hits,
    retrieve_memories stub_rank stub_embed "career update" 3 2 true scenario_store
      = (scenario_store, Ok hits) /\
    length hits
    = Nat.min (Z.to_nat 3) (Nat.min (Z.to_nat 2) (length (memories scenario_store))).
Proof.
  apply (retrieve_returns_count stub_rank stub_embed scenario_store "career update" [1; 0]%float).
  - split; reflexivity.
  - reflexivity.
  - vm_compute. repeat constructor.
  - lia.
  - lia.
Defined.

(** X2: an empty store answers with the empty list without consulting the
    embedder (so also when the embedder is down); on a store with records a
    failure of the embedder on the query comes out of retrieval as it is, and
    the store is as before. *)
Theorem retrieve_embedder_failure tie_rank embed (s : UtilityRAG) q n k just_text :
  (memories s = [] -> retrieve_memories tie_rank embed q n k just_text s = (s, Ok [])) /\
  (forall e, memories s <> [] -> embed q = Raise e ->
             retrieve_memories tie_rank embed q n k just_text s = (s, Raise e)).
Proof.
  split; [apply retrieve_memories_empty|].
  intros e Hne He.
  unfold retrieve_memories, retrieve_indices, bind, get, lift. simpl.
  destruct (memories s); [done|]. now rewrite He.
Qed.

Lemma retrieve_embedder_failure_witness :
  retrieve_memories stub_rank stub_embed "" 3 10 true UtilityRAG_init = (UtilityRAG_init, Ok []) /\
  retrieve_memories stub_rank stub_embed "" 3 10 true scenario_store
    = (scenario_store, Raise EmbeddingFailure).
Proof.
  split.
  - apply (proj1 (retrieve_embedder_failure stub_rank stub_embed UtilityRAG_init "" 3 10 true)).
    reflexivity.
  - apply (proj2 (retrieve_embedder_failure stub_rank stub_embed scenario_store "" 3 10 true)).
    + vm_compute. discriminate.
    + reflexivity.
Defined.

(** X3: a stored embedding whose length is not that of the query's embedding
    makes retrieval on a non-empty store raise ValueError (numpy's shape
    error), leaving the store as it was. *)
Theorem retrieve_shape_mismatch tie_rank embed (s : UtilityRAG) q qe n k just_text e :
  memories s <> [] -> embed q = Ok qe ->
  e ∈ memory_embeddings s -> length e <> length qe ->
  retrieve_memories tie_rank embed q n k just_text s = (s, Raise ValueError).
Proof.
  intros Hne Hq He Hlen.
  unfold retrieve_memories, retrieve_indices, bind, get, lift. simpl.
  destruct (memories s); [done|]. rewrite Hq.
  assert (similarities (memory_embeddings s) qe = Raise ValueError) as ->; [|done].
  unfold similarities. destruct (memory_embeddings s) as [|e0 E] eqn:EE; [done|].
  destruct (forallb _ _) eqn:Hall; [|done].
  rewrite forallb_forall in Hall.
  apply list_elem_of_In, Hall, Nat.eqb_eq in He. contradiction.
Qed.

Lemma retrieve_shape_mismatch_witness :
  retrieve_memories stub_rank stub_embed "career update" 3 10 true
    (mkRAG ["likes hiking"] [[1; 0; 0]%float] [0%Z])
  = (mkRAG ["likes hiking"] [[1; 0; 0]%float] [0%Z], Raise ValueError).
Proof.
  apply (retrieve_shape_mismatch stub_rank stub_embed _ "career update" [1; 0]%float 3 10 true
                                 [1; 0; 0]%float).
  - discriminate.
  - reflexivity.
  - simpl. set_solver.
  - simpl. lia.
Defined.

(** ** The slice bounds of [retrieve_memories] *)

(** X4: [candidate_k = 0] does not mean no candidates: [a[-0:]] is the whole
    array, so every record is a candidate.  A negative [candidate_k] leaves
    out the [-candidate_k] least similar records (all of them when there are
    no more): the records split into the candidates and that many others,
    none of which is more similar to the query than any candidate, and the
    candidates are in descending similarity. *)
Theorem candidates_nonpositive_k tie_rank (sims : list float) (k : Z) :
  (k <= 0)%Z ->
  let candidates := top_k_indices tie_rank sims k in
  (k = 0%Z -> forall i, i < length sims -> i ∈ candidates) /\
  (exists left_out,
      candidates ++ left_out ≡ₚ seq 0 (length sims) /\
      length left_out = Nat.min (Z.to_nat (- k)) (length sims) /\
      forall i j si sj,
        i ∈ candidates -> j ∈ left_out ->
        sims !! i = Some si -> sims !! j = Some sj -> np_less si sj = false) /\
  (forall i j si sj,
      before i j candidates ->
      sims !! i = Some si -> sims !! j = Some sj -> np_less si sj = false).
Proof.
  intros Hk candidates. subst candidates. split; [|split].
  - intros -> i Hi. unfold top_k_indices, slice_last. simpl. rewrite drop_0.
    apply list_elem_of_In, in_rev. rewrite rev_involutive.
    now apply list_elem_of_In, (argsort_elem_of tie_rank).
  - exists (take (Z.to_nat (- k)) (argsort tie_rank sims)).
    assert (E : top_k_indices tie_rank sims k
                = rev (drop (Z.to_nat (- k)) (argsort tie_rank sims))).
    { unfold top_k_indices, slice_last. destruct (Z.ltb_spec 0 k); [lia|done]. }
    rewrite E. split; [|split].
    + rewrite <- Permutation_rev, Permutation_app_comm, take_drop.
      apply argsort_perm.
    + rewrite length_take, (Permutation_length (argsort_perm tie_rank sims)), length_seq.
      reflexivity.
    + intros i j si sj Hi Hj Hsi Hsj.
      apply list_elem_of_In, in_rev, list_elem_of_In in Hi.
      apply (argsort_sorted tie_rank sims j i sj si); [|done..].
      rewrite <- (take_drop (Z.to_nat (- k)) (argsort tie_rank sims)).
      now apply before_app.
  - intros i j si sj Hb Hi Hj.
    now apply (top_k_indices_descending tie_rank sims k i j).
Qed.

Lemma candidates_nonpositive_k_witness :
  exists left_out,
    top_k_indices stub_rank [0; 1; 1; 3 / 5]%float (-1) ++ left_out ≡ₚ seq 0 4 /\
    length left_out = Nat.min (Z.to_nat (- -1)) 4 /\
    forall i j si sj,
      i ∈ top_k_indices stub_rank [0; 1; 1; 3 / 5]%float (-1) -> j ∈ left_out ->
      [0; 1; 1; 3 / 5]%float !! i = Some si -> [0; 1; 1; 3 / 5]%float !! j = Some sj ->
      np_less si sj = false.
Proof.
  refine (proj1 (proj2 (candidates_nonpositive_k stub_rank [0; 1; 1; 3 / 5]%float (-1) _))).
  lia.
Defined.

(** X5: [top_n = 0] returns nothing, and a negative [top_n] does not: it
    returns the candidates in descending date order without the [-top_n]
    last of them, the oldest (all of them when there are no more): the
    candidates split into what is returned and that many others, none of
    which is newer than anything returned. *)
Theorem picked_nonpositive_n (dates : list Z) (top_k : list nat) (n : Z) picked :
  top_n_indices dates top_k n = Ok picked ->
  (n = 0%Z -> picked = []) /\
  ((n < 0)%Z ->
   (exists dropped,
       picked ++ dropped ≡ₚ top_k /\
       length dropped = Nat.min (Z.to_nat (- n)) (length top_k) /\
       forall r o dr do,
         r ∈ picked -> o ∈ dropped ->
         dates !! r = Some dr -> dates !! o = Some do -> (do <= dr)%Z) /\
   (forall i j di dj,
       before i j picked -> dates !! i = Some di -> dates !! j = Some dj ->
       (dj <= di)%Z)).
Proof.
  intros Hp. split.
  - intros ->. unfold top_n_indices in Hp.
    destruct (map_result _ top_k); [|discriminate]. now injection Hp as <-.
  - intros Hn. split; [|apply (top_n_indices_order _ _ _ _ Hp)].
    unfold top_n_indices in Hp.
    destruct (map_result _ top_k) as [keys|] eqn:Ek; [|discriminate].
    injection Hp as <-.
    pose proof (map_result_length _ _ _ Ek) as Hlen.
    apply map_result_Forall2, dated_pairs in Ek as [Hfst Hdated].
    set (pairs := zip top_k keys) in *.
    set (sorted := sorted_desc snd pairs).
    assert (Hperm : sorted ≡ₚ pairs) by apply sorted_desc_perm.
    assert (Hsorted : StronglySorted (desc snd) sorted) by apply sorted_desc_sorted.
    assert (Hdated' : Forall (fun p : nat * Z => dates !! p.1 = Some p.2) sorted)
      by now rewrite Hperm.
    assert (Hl : length sorted = length top_k).
    { rewrite (Permutation_length Hperm). subst pairs. rewrite length_zip_with. lia. }
    set (m := Z.to_nat (Z.of_nat (length sorted) + n)).
    assert (E : slice_first n sorted = take m sorted).
    { unfold slice_first. destruct (Z.leb_spec 0 n); [lia|done]. }
    rewrite E. exists ((drop m sorted).*1). split; [|split].
    + rewrite <- fmap_app, take_drop, Hperm. now rewrite Hfst.
    + rewrite length_fmap, length_drop, Hl. subst m. rewrite Hl. lia.
    + intros r o dr do Hr Ho Hdr Hdo.
      apply list_elem_of_fmap in Hr as ([r' dr'] & -> & Hr).
      apply list_elem_of_fmap in Ho as ([o' do'] & -> & Ho).
      simpl in *. rewrite Forall_forall in Hdated'.
      pose proof (Hdated' _ (subseteq_take _ _ _ Hr)) as Er.
      pose proof (Hdated' _ (subseteq_drop _ _ _ Ho)) as Eo.
      simpl in Er, Eo.
      assert (dr' = dr) as -> by congruence. assert (do' = do) as -> by congruence.
      rewrite <- (take_drop m sorted) in Hsorted.
      apply (StronglySorted_app_1_elem_of _ _ _ _ _ Hsorted Hr Ho).
Qed.

Lemma picked_nonpositive_n_witness :
  exists dropped,
    [3; 1] ++ dropped ≡ₚ [3; 1; 0] /\
    length dropped = Nat.min (Z.to_nat (- -1)) (length [3; 1; 0]) /\
    forall r o dr do,
      r ∈ [3; 1] -> o ∈ dropped ->
      [1; 1; 2; 5]%Z !! r = Some dr -> [1; 1; 2; 5]%Z !! o = Some do -> (do <= dr)%Z.
Proof.
  refine (proj1 (proj2 (picked_nonpositive_n [1; 1; 2; 5]%Z [3; 1; 0] (-1) [3; 1] _) _)).
  - vm_compute. reflexivity.
  - lia.
Defined.

(** ** Zero vectors crowd out real matches *)

(** X6: numpy sorts NaN last, so the reversed tail puts records of NaN
    similarity (stored zero vectors) first: whenever a record of NaN
    similarity is left out of the candidates, every candidate has NaN
    similarity. *)
Theorem nan_similarity_is_preferred tie_rank (sims : list float) (k : Z) i j si sj :
  sims !! i = Some si -> sims !! j = Some sj ->
  i ∈ top_k_indices tie_rank sims k -> j ∉ top_k_indices tie_rank sims k ->
  is_nan sj = true -> is_nan si = true.
Proof.
  intros Hi Hj Hin Hout Hnan.
  pose proof (top_k_indices_highest tie_rank sims k i j si sj Hin Hout Hi Hj) as H.
  unfold np_less in H. rewrite Hnan in H.
  apply orb_false_elim in H as [_ H]. simpl in H.
  now apply negb_false_iff in H.
Qed.

Lemma nan_similarity_is_preferred_witness : is_nan nan = true.
Proof.
  apply (nan_similarity_is_preferred stub_rank [nan; 1; nan]%float 1 2 0 nan nan);
    try reflexivity.
  - apply list_elem_of_In. vm_compute. auto.
  - vm_compute. intros H. apply list_elem_of_In in H. simpl in H. intuition lia.
Defined.

(** ** A batch that fails half way *)

(** X7: when the embedder raises on a text of a batch, [add_memories] raises
    that exception and the store has gained exactly the pairs before that
    text, in order: a failed batch has been added in part. *)
Theorem add_memories_partial embed texts dates (s : UtilityRAG)
    done t d rest embs e :
  zip texts dates = done ++ (t, d) :: rest ->
  Forall2 (fun p v => embed p.1 = Ok v) done embs ->
  embed t = Raise e ->
  add_memories embed texts dates s
  = (mkRAG (memories s ++ done.*1) (memory_embeddings s ++ embs)
           (memory_dates s ++ done.*2), Raise e).
Proof.
  intros Hz Hdone Ht. unfold add_memories. rewrite Hz. clear Hz.
  revert s. induction Hdone as [|[t' d'] v l vs Hv _ IH]; intros s.
  - simpl. unfold bind, lift. rewrite Ht. rewrite !app_nil_r. now destruct s.
  - simpl in *. unfold bind at 1. unfold lift at 1. rewrite Hv.
    unfold bind at 1. unfold modify at 1. rewrite IH. simpl.
    now rewrite <- !app_assoc.
Qed.

Lemma add_memories_partial_witness :
  add_memories stub_embed ["likes hiking"; ""; "a"] [1; 2; 3]%Z UtilityRAG_init
  = (mkRAG ([] ++ [("likes hiking", 1%Z)].*1) ([] ++ [[0; 1]%float])
           ([] ++ [("likes hiking", 1%Z)].*2), Raise EmbeddingFailure).
Proof.
  apply (add_memories_partial stub_embed _ _ UtilityRAG_init
           [("likes hiking", 1%Z)] "" 2%Z [("a", 3%Z)] [[0; 1]%float]).
  - reflexivity.
  - repeat constructor.
  - reflexivity.
Defined.

(** ** The text dump *)

Lemma string_app_assoc (a b c : string) : (a +:+ b) +:+ c = a +:+ (b +:+ c).
Proof.
  induction a as [|x a IH]; [done|].
  change (String x ((a +:+ b) +:+ c) = String x (a +:+ (b +:+ c))).
  now rewrite IH.
Qed.

Lemma concat_snoc sep (l : list string) x :
  l <> [] -> String.concat sep (l ++ [x]) = String.concat sep l +:+ sep +:+ x.
Proof.
  induction l as [|y l IH]; [done|]. intros _.
  destruct l as [|z l]; [done|].
  change (String.concat sep ((y :: z :: l) ++ [x]))
    with (y +:+ sep +:+ String.concat sep ((z :: l) ++ [x])).
  rewrite IH by done.
  change (String.concat sep (y :: z :: l))
    with (y +:+ sep +:+ String.concat sep (z :: l)).
  now rewrite !string_app_assoc.
Qed.

(** X8: the dump of a new store is empty, and on an aligned store the dump
    only grows: adding a record appends its block ("Date: ..", "Memory: ..")
    after a newline, or is the whole dump when the store was empty. *)
Theorem write_grows_by_a_block embed (s : UtilityRAG) t d v :
  write UtilityRAG_init = "" /\
  (aligned s -> embed t = Ok v ->
   write (add_memories embed [t] [d] s).1
   = match memories s with
     | [] => write_block (d, t)
     | _ => write s +:+ newline +:+ write_block (d, t)
     end).
Proof.
  split; [reflexivity|]. intros [_ Hd] Ht.
  unfold add_memories. simpl. unfold bind, lift, modify. rewrite Ht. simpl.
  unfold write. simpl.
  rewrite (zip_with_app pair (memory_dates s) [d] (memories s) [t]) by done.
  rewrite map_app. simpl.
  destruct (memories s) as [|t0 ts] eqn:Em.
  - destruct (memory_dates s); [done|discriminate].
  - destruct (memory_dates s) as [|d0 ds]; [discriminate|].
    now rewrite concat_snoc.
Qed.

Lemma write_grows_by_a_block_witness :
  write (add_memories stub_embed ["a"] [9%Z] some_rag).1
  = write some_rag +:+ newline +:+ write_block (9%Z, "a").
Proof.
  apply (proj2 (write_grows_by_a_block stub_embed some_rag "a" 9 [1; 1]%float)).
  - split; reflexivity.
  - reflexivity.
Defined.

(** * More on the layered memory *)

(** ** When loading succeeds, and what a bad blob does *)

Section LoadOutcomes.

Context {bytes : Type} (pickle_loads : bytes -> result pickled).

Lemma load_from_file_ok_holds path (s : UtilityRAG) (fs : gmap string bytes) w :
  load_from_file pickle_loads path (s, fs) = (w, Ok tt) ->
  holds pickle_loads fs path w.1 /\ w.2 = fs.
Proof.
  unfold load_from_file, bind, read_file, lift, on_rag, modify, holds. simpl.
  destruct (fs !! path) as [b|] eqn:Eb; [|discriminate].
  destruct (pickle_loads b) as [[m e d]|] eqn:El; [|discriminate]. simpl.
  destruct m as [m|]; [|discriminate]. destruct e as [e|]; [|discriminate].
  destruct d as [d|]; [|discriminate]. simpl.
  intros [= <-]. split; [|done]. now exists b.
Qed.

End LoadOutcomes.

(** X10: [LMRRAG.load_from_file] returns true exactly when each of the three
    blobs is there and unpickles to a dict with the three keys; the layers
    are then the contents of the blobs. *)
Theorem load_succeeds_iff {bytes : Type} (pickle_loads : bytes -> result pickled)
    (dir : option string) (l l' : LMRRAG) (fs fs' : gmap string bytes) :
  let file y := path_join (or_default dir (output_dir l)) (layer_file y) in
  LMRRAG_load_from_file pickle_loads dir (l, fs) = ((l', fs'), Ok true) <->
  (fs' = fs /\ output_dir l' = output_dir l /\
   forall y, holds pickle_loads fs (file y) (get_layer y l')).
Proof.
  intros file. subst file. rewrite LMRRAG_load_from_file_run. cbv zeta.
  set (d := or_default dir (output_dir l)). split.
  - destruct (load_from_file pickle_loads (path_join d (layer_file Facts)) (facts l, fs))
      as [w1 [[]|e1]] eqn:E1; [|discriminate].
    apply load_from_file_ok_holds in E1 as [H1 F1].
    destruct (load_from_file pickle_loads (path_join d (layer_file Reflections))
                (reflections l, w1.2)) as [w2 [[]|e2]] eqn:E2; [|discriminate].
    apply load_from_file_ok_holds in E2 as [H2 F2].
    destruct (load_from_file pickle_loads (path_join d (layer_file DeepReflections))
                (deep_reflections l, w2.2)) as [w3 [[]|e3]] eqn:E3; [|discriminate].
    apply load_from_file_ok_holds in E3 as [H3 F3].
    rewrite F1 in H2, F2. rewrite F2 in H3, F3.
    intros [= <- <-]. split; [done|]. split; [done|]. now intros [].
  - intros (-> & Hdir & Hh).
    rewrite (load_from_file_holds pickle_loads _ _ _ _ (Hh Facts)). cbn [fst snd].
    rewrite (load_from_file_holds pickle_loads _ _ _ _ (Hh Reflections)).
    cbn [fst snd].
    rewrite (load_from_file_holds pickle_loads _ _ _ _ (Hh DeepReflections)).
    simpl. destruct l, l'; simpl in *. now subst.
Qed.

(** X11: how [UtilityRAG.load_from_file] fails.  A missing file raises
    FileNotFoundError and a blob that does not unpickle raises pickle's
    error, both leaving the store as it was; a dict without 'memories' raises
    KeyError with the store as it was; a dict with 'memories' but without
    'memory_embeddings' raises KeyError after the texts have been replaced,
    so that the three lists can end up with different lengths. *)
Theorem load_from_file_failures {bytes : Type} (pickle_loads : bytes -> result pickled)
    (path : string) (s : UtilityRAG) (fs : gmap string bytes) :
  (fs !! path = None ->
   load_from_file pickle_loads path (s, fs) = ((s, fs), Raise FileNotFoundError)) /\
  (forall b e, fs !! path = Some b -> pickle_loads b = Raise e ->
               load_from_file pickle_loads path (s, fs) = ((s, fs), Raise e)) /\
  (forall b v d, fs !! path = Some b -> pickle_loads b = Ok (mkPickled None v d) ->
                 load_from_file pickle_loads path (s, fs) = ((s, fs), Raise KeyError)) /\
  (forall b m d, fs !! path = Some b -> pickle_loads b = Ok (mkPickled (Some m) None d) ->
                 load_from_file pickle_loads path (s, fs)
                 = ((mkRAG m (memory_embeddings s) (memory_dates s), fs), Raise KeyError) /\
                 (length m <> length (memory_embeddings s) ->
                  ~ aligned (load_from_file pickle_loads path (s, fs)).1.1)).
Proof.
  unfold load_from_file, bind, read_file, lift, on_rag, modify. simpl.
  split; [|split; [|split]].
  - now intros ->.
  - now intros b e -> ->.
  - now intros b v d -> ->.
  - intros b m d -> ->. simpl. split; [done|].
    intros Hlen [He _]. simpl in He. congruence.
Qed.

Lemma load_from_file_failures_witness :
  load_from_file blob_loads "facts.pkl" (some_rag, ∅)
    = ((some_rag, ∅), Raise FileNotFoundError) /\
  load_from_file blob_loads "facts.pkl"
      (some_rag, {[ "facts.pkl" := PickleBlob (mkPickled (Some ["a"; "b"]) None None) ]})
    = ((mkRAG ["a"; "b"] [[0; 1]%float] [7%Z],
        {[ "facts.pkl" := PickleBlob (mkPickled (Some ["a"; "b"]) None None) ]}),
       Raise KeyError).
Proof.
  split.
  - apply (proj1 (load_from_file_failures blob_loads "facts.pkl" some_rag ∅)).
    reflexivity.
  - refine (proj1 (proj2 (proj2 (proj2
      (load_from_file_failures blob_loads "facts.pkl" some_rag
         {[ "facts.pkl" := PickleBlob (mkPickled (Some ["a"; "b"]) None None) ]})))
      (PickleBlob (mkPickled (Some ["a"; "b"]) None None)) ["a"; "b"] None _ _)).
    + vm_compute. reflexivity.
    + reflexivity.
Defined.

(** ** Text dumps and blobs are written together *)

Lemma path_join_relative_inj dir f g :
  String.prefix "/" f = false -> String.prefix "/" g = false ->
  path_join dir f = path_join dir g -> f = g.
Proof.
  unfold path_join. intros -> ->.
  destruct (_ || _); intros H.
  - now apply String.app_inj in H.
  - now apply String.app_inj, String.app_inj in H.
Qed.

Lemma set_the_rag_same is_self (a : Agent) : set_the_rag is_self (the_rag is_self a) a = a.
Proof. now destruct is_self, a. Qed.

(** [write_and_save], step by step. *)
Lemma write_and_save_run {bytes : Type}
    (pickle_dumps : pickled -> bytes) (X : collaborators bytes)
    (is_self : bool) (dir : option string) (w : world bytes) :
  let l := the_rag is_self (agent w) in
  let d := or_default dir (output_dir l) in
  let text y := path_join d (layer_text_file y) in
  let file y := path_join d (layer_file y) in
  let blob y := pickle_dumps (state_dict (get_layer y l)) in
  let now fs := mkWorld (agent w) fs (llm_log w) in
  write_and_save pickle_dumps X is_self dir w
  = if String.eqb d "" then (w, Raise FileNotFoundError) else
    match encode_text X (write (facts l)) with
    | Raise e => (now (<[text Facts := empty_file X]> (files w)), Raise e)
    | Ok b1 =>
      match encode_text X (write (reflections l)) with
      | Raise e =>
        (now (<[text Reflections := empty_file X]> (<[text Facts := b1]> (files w))),
         Raise e)
      | Ok b2 =>
        match encode_text X (write (deep_reflections l)) with
        | Raise e =>
          (now (<[text DeepReflections := empty_file X]>
                  (<[text Reflections := b2]> (<[text Facts := b1]> (files w)))),
           Raise e)
        | Ok b3 =>
          (now (<[file DeepReflections := blob DeepReflections]>
                  (<[file Reflections := blob Reflections]>
                     (<[file Facts := blob Facts]>
                        (<[text DeepReflections := b3]>
                           (<[text Reflections := b2]>
                              (<[text Facts := b1]> (files w))))))),
           Ok tt)
        end
      end
    end.
Proof.
  intros l d text file blob now'.
  unfold write_and_save, makedirs, bind, get. cbn [fst snd]. fold l. fold d.
  destruct (String.eqb d ""); [done|]. cbn [ret fst snd].
  unfold write_text, write_file, bind, modify, lift. cbn [fst snd files agent llm_log].
  fold l.
  destruct (encode_text X (write (facts l))) as [b1|e]; [|done].
  cbn [fst snd files agent llm_log]. rewrite insert_insert_eq.
  destruct (encode_text X (write (reflections l))) as [b2|e]; [|done].
  cbn [fst snd files agent llm_log]. rewrite insert_insert_eq.
  destruct (encode_text X (write (deep_reflections l))) as [b3|e]; [|done].
  cbn [fst snd files agent llm_log]. rewrite insert_insert_eq.
  unfold in_rag_fs, zoom. cbn [fst snd files agent llm_log]. fold l.
  rewrite LMRRAG_save_to_file_run. cbn [fst snd or_default files agent llm_log].
  subst l. now rewrite set_the_rag_same.
Qed.







(** * The reflection session as a whole *)

(** ** What every step of a session preserves *)

(** A reflexive and transitive relation holds between the start and the end
    of a computation when it holds across each of its steps. *)
Section Steps.

Context {S : Type} (R : relation S) `{!PreOrder R}.

Lemma steps_ret {A} (a : A) : steps R (ret a).
Proof using All. intros s. reflexivity. Qed.

Lemma steps_lift {A} (r : result A) : steps R (lift r).
Proof using All. intros s. reflexivity. Qed.

Lemma steps_get : steps R get.
Proof using All. intros s. reflexivity. Qed.

Lemma steps_bind {A B} (c : M S A) (k : A -> M S B) :
  steps R c -> (forall a, steps R (k a)) -> steps R (bind c k).
Proof using All.
  intros Hc Hk s. unfold bind. specialize (Hc s).
  destruct (c s) as [s' [a|e]]; [|done].
  etransitivity; [exact Hc|apply Hk].
Qed.

Lemma steps_same {A} (c : M S A) : (forall s, (c s).1 = s) -> steps R c.
Proof using All. intros H s. now rewrite H. Qed.

End Steps.

Ltac steps_step :=
  lazymatch goal with
  | |- steps _ (bind _ _) => apply steps_bind; [exact _| |intros ?]
  | |- steps _ (ret _) => apply steps_ret; exact _
  | |- steps _ (lift _) => apply steps_lift; exact _
  | |- steps _ get => apply steps_get; exact _
  | |- steps _ (match ?x with _ => _ end) => destruct x
  | |- steps _ (let _ := _ in _) => cbv zeta
  end.

Lemma get_layers_state tie_rank embed q n k (l : LMRRAG) :
  (get_reflections tie_rank embed q n k l).1 = l /\
  (get_deep_reflections tie_rank embed q n k l).1 = l.
Proof.
  unfold get_reflections, get_deep_reflections, in_layer, zoom.
  cbn [get_layer set_layer]. split.
  - pose proof (retrieve_memories_state tie_rank embed (reflections l) q n k true) as H.
    destruct (retrieve_memories _ _ _ _ _ _ (reflections l)) as [s' r]. simpl in *.
    subst s'. now destruct l.
  - pose proof (retrieve_memories_state tie_rank embed (deep_reflections l) q n k true) as H.
    destruct (retrieve_memories _ _ _ _ _ _ (deep_reflections l)) as [s' r]. simpl in *.
    subst s'. now destruct l.
Qed.

(** A relation on worlds that tolerates a new description, any change of the
    files and of the log, and what [Rl] allows to happen to a memory, holds
    across every part of a session, whether it returns or raises. *)
Section SessionInvariant.

Context {bytes : Type}.
Context (tie_rank : list float -> nat -> nat).
Context (embed : string -> result (list float)).
Context (pickle_dumps : pickled -> bytes).
Context (X : collaborators bytes).
Context (R : relation (world bytes)) `{!PreOrder R}.
Context (Rl : relation LMRRAG) `{!Reflexive Rl}.

Hypothesis R_description : forall (w : world bytes) d,
  R w (mkWorld (set_config_description d (agent w)) (files w) (llm_log w)) /\
  R w (mkWorld (set_counterpart_description d (agent w)) (files w) (llm_log w)).
Hypothesis R_rag : forall is_self (w : world bytes) l fs log,
  Rl (the_rag is_self (agent w)) l ->
  R w (mkWorld (set_the_rag is_self l (agent w)) fs log).
Hypothesis Rl_add : forall y texts dates,
  steps Rl (in_layer y (add_memories embed texts dates)).


Lemma R_outside (w : world bytes) fs log : R w (mkWorld (agent w) fs log).
Proof using All.
  pose proof (R_rag true w (the_rag true (agent w)) fs log) as H.
  rewrite set_the_rag_same in H. now apply H.
Qed.

Lemma steps_write_file path (b : bytes) : steps R (write_file path b).
Proof using All. intros w. apply R_outside. Qed.

Lemma steps_read_file path : steps R (read_file (bytes := bytes) files path).
Proof using All. intros w. unfold read_file. now destruct (files w !! path). Qed.

Lemma steps_call_llm convos : steps R (call_llm X convos).
Proof using All. intros w. apply R_outside. Qed.

Lemma steps_set_config_description d :
  steps R (on_agent (bytes := bytes) (set_config_description d)).
Proof using All. intros w. apply R_description. Qed.

Lemma steps_set_counterpart_description d :
  steps R (on_agent (bytes := bytes) (set_counterpart_description d)).
Proof using All. intros w. apply R_description. Qed.

Lemma steps_in_rag {A} is_self (c : M LMRRAG A) :
  steps Rl c -> steps R (in_rag is_self c).
Proof using All.
  intros Hc w. unfold in_rag, zoom. specialize (Hc (the_rag is_self (agent w))).
  destruct (c _) as [l r]. now apply R_rag.
Qed.

Lemma steps_in_rag_fs {A} is_self (c : M (LMRRAG * gmap string bytes) A) :
  (forall l fs, Rl l (c (l, fs)).1.1) -> steps R (in_rag_fs is_self c).
Proof using All.
  intros Hc w. unfold in_rag_fs, zoom.
  specialize (Hc (the_rag is_self (agent w)) (files w)).
  destruct (c _) as [l r]. now apply R_rag.
Qed.


Lemma steps_get_layers q n k :
  steps Rl (get_reflections tie_rank embed q n k) /\
  steps Rl (get_deep_reflections tie_rank embed q n k).
Proof using All.
  split; intros l.
  - rewrite (proj1 (get_layers_state tie_rank embed q n k l)). reflexivity.
  - rewrite (proj2 (get_layers_state tie_rank embed q n k l)). reflexivity.
Qed.

Ltac world_step :=
  lazymatch goal with
  | |- steps _ (write_file _ _) => apply steps_write_file
  | |- steps _ (read_file _ _) => apply steps_read_file
  | |- steps _ (call_llm _ _) => apply steps_call_llm
  | |- steps _ (on_agent (set_config_description _)) => apply steps_set_config_description
  | |- steps _ (on_agent (set_counterpart_description _)) =>
      apply steps_set_counterpart_description
  | |- steps _ (on_agent (if ?b then _ else _)) => destruct b
  | |- steps _ (makedirs _) => unfold makedirs; destruct (String.eqb _ _)
  | |- steps _ (in_rag _ (get_reflections _ _ _ _ _)) =>
      apply steps_in_rag, steps_get_layers
  | |- steps _ (in_rag _ (get_deep_reflections _ _ _ _ _)) =>
      apply steps_in_rag, steps_get_layers
  | |- steps _ (in_rag _ (add_facts _ _ _)) => apply steps_in_rag, Rl_add
  | |- steps _ (in_rag _ (add_reflections _ _ _)) => apply steps_in_rag, Rl_add
  | |- steps _ (in_rag _ (add_deep_reflections _ _ _)) => apply steps_in_rag, Rl_add
  | |- steps _ (in_rag_fs _ (LMRRAG_save_to_file _ _)) =>
      apply steps_in_rag_fs; intros ? ?; rewrite LMRRAG_save_to_file_run; reflexivity
  | |- _ => steps_step
  end.

Lemma steps_write_text path s : steps R (write_text X path s).
Proof using All. unfold write_text. repeat world_step. Qed.

Lemma steps_read_text path : steps R (read_text X path).
Proof using All. unfold read_text. repeat world_step. Qed.

Lemma steps_pdf_from_messages msgs title path :
  steps R (create_conversation_pdf_from_messages X msgs title path).
Proof using All. unfold create_conversation_pdf_from_messages. repeat world_step. Qed.

Lemma steps_pdf msgs title path : steps R (create_conversation_pdf X msgs title path).
Proof using All. unfold create_conversation_pdf. repeat world_step. Qed.

Lemma steps_write_and_save is_self dir :
  steps R (write_and_save pickle_dumps X is_self dir).
Proof using All. unfold write_and_save. repeat world_step; apply steps_write_text. Qed.

Lemma steps_generate_facts transcript is_self :
  steps R (generate_facts_and_reflections X transcript is_self).
Proof using All. unfold generate_facts_and_reflections. repeat world_step. Qed.

Lemma steps_generate_questions transcript is_self :
  steps R (generate_deep_reflection_questions X transcript is_self).
Proof using All. unfold generate_deep_reflection_questions. repeat world_step. Qed.

Lemma steps_generate_answer question refl deep is_self :
  steps R (generate_deep_reflection_answer X question refl deep is_self).
Proof using All. unfold generate_deep_reflection_answer. repeat world_step. Qed.

Lemma steps_answer_questions date_int is_self questions :
  steps R (answer_questions tie_rank embed X date_int is_self questions).
Proof using All.
  induction questions as [|question rest IH]; simpl; repeat world_step.
  - apply steps_generate_answer.
  - exact IH.
Qed.

Lemma steps_process_deep_reflections transcript date_int is_self :
  steps R (process_deep_reflections tie_rank embed X transcript date_int is_self).
Proof using All.
  unfold process_deep_reflections. repeat world_step.
  - apply steps_generate_questions.
  - apply steps_answer_questions.
Qed.

Lemma steps_update_descriptions summary is_self :
  steps R (update_descriptions X summary is_self).
Proof using All. unfold update_descriptions. repeat world_step. Qed.

Lemma steps_consciousness summary current_year :
  steps R (generate_consciousness_reflection X summary current_year).
Proof using All. unfold generate_consciousness_reflection. repeat world_step. Qed.

Lemma steps_answer_pdfs dir stem i convos : steps R (answer_pdfs X dir stem i convos).
Proof using All.
  revert i. induction convos as [|convo rest IH]; intros i; simpl; repeat world_step.
  - apply steps_pdf_from_messages.
  - apply IH.
Qed.

Ltac run_step :=
  lazymatch goal with
  | |- steps _ (write_text _ _ _) => apply steps_write_text
  | |- steps _ (read_text _ _) => apply steps_read_text
  | |- steps _ (create_conversation_pdf_from_messages _ _ _ _) =>
      apply steps_pdf_from_messages
  | |- steps _ (create_conversation_pdf _ _ _ _) => apply steps_pdf
  | |- steps _ (write_and_save _ _ _ _) => apply steps_write_and_save
  | |- steps _ (generate_facts_and_reflections _ _ _) => apply steps_generate_facts
  | |- steps _ (process_deep_reflections _ _ _ _ _ _) =>
      apply steps_process_deep_reflections
  | |- steps _ (update_descriptions _ _ _) => apply steps_update_descriptions
  | |- steps _ (generate_consciousness_reflection _ _ _) => apply steps_consciousness
  | |- steps _ (answer_pdfs _ _ _ _ _) => apply steps_answer_pdfs
  | |- _ => world_step
  end.

Lemma steps_run_session transcript current_year date_int :
  steps R (run_session tie_rank embed pickle_dumps X transcript current_year date_int).
Proof using All. unfold run_session. repeat run_step. Qed.

Lemma steps_already_done date_int : steps R (already_done X date_int).
Proof using All.
  unfold already_done. repeat run_step. intros w. apply R_description.
Qed.

End SessionInvariant.

(** The two relations are preorders. *)
Lemma same_identity_preorder {bytes} : PreOrder (same_identity (bytes := bytes)).
Proof.
  split.
  - intros w. reflexivity.
  - intros w1 w2 w3 H1 H2. unfold same_identity in *. congruence.
Qed.

Lemma store_grew_preorder : PreOrder store_grew.
Proof.
  split.
  - intros s. repeat split; reflexivity.
  - intros s1 s2 s3 (A1 & B1 & C1) (A2 & B2 & C2).
    repeat split; etransitivity; eassumption.
Qed.

Lemma memory_grew_preorder {bytes} : PreOrder (memory_grew (bytes := bytes)).
Proof.
  pose proof store_grew_preorder as [Hr Ht]. split.
  - intros w is_self y. apply Hr.
  - intros w1 w2 w3 H1 H2 is_self y. eapply Ht; [apply H1|apply H2].
Qed.

Lemma add_loop_grew embed pairs s : store_grew s (add_loop embed pairs s).1.
Proof.
  pose proof store_grew_preorder as [Hr Ht].
  revert s. induction pairs as [|[t d] rest IH]; intros s; [apply Hr|].
  simpl. unfold bind, lift, modify. destruct (embed t) as [v|]; [|apply Hr].
  eapply Ht; [|apply IH]. repeat split; simpl; now apply prefix_app_r.
Qed.

Lemma the_rag_set_the_rag is_self is_self' l (a : Agent) :
  the_rag is_self' (set_the_rag is_self l a)
  = if bool_decide (is_self' = is_self) then l else the_rag is_self' a.
Proof. now destruct is_self, is_self', a. Qed.

Lemma get_layer_set_layer y y' s (l : LMRRAG) :
  get_layer y' (set_layer y s l) = s /\ y' = y \/
  get_layer y' (set_layer y s l) = get_layer y' l /\ y' <> y.
Proof. destruct y, y', l; simpl; (by left) || (by right). Qed.

(** Three such relations: the identity of the agent, the growth of its
    memories, and the alignment of their lists. *)
Section SessionInvariants.
Context {bytes : Type}.
Context (tie_rank : list float -> nat -> nat).
Context (embed : string -> result (list float)).
Context (pickle_dumps : pickled -> bytes) (pickle_loads : bytes -> result pickled).
Context (X : collaborators bytes).

Lemma reflect_same_identity transcript current_year date date_int :
  steps same_identity
        (reflect tie_rank embed pickle_dumps pickle_loads X transcript current_year date date_int).
Proof.
  pose proof (same_identity_preorder (bytes := bytes)) as HP.
  assert (Hd : forall (w : world bytes) d,
    same_identity w (mkWorld (set_config_description d (agent w)) (files w) (llm_log w)) /\
    same_identity w (mkWorld (set_counterpart_description d (agent w)) (files w) (llm_log w))).
  { intros w d. split; reflexivity. }
  assert (Hr : forall is_self (w : world bytes) l fs log,
    (fun _ _ : LMRRAG => True) (the_rag is_self (agent w)) l ->
    same_identity w (mkWorld (set_the_rag is_self l (agent w)) fs log)).
  { intros is_self w l fs log _. unfold same_identity. simpl.
    now destruct is_self. }
  assert (Hl : Reflexive (fun _ _ : LMRRAG => True)) by done.
  assert (Ha : forall y texts dates,
    steps (fun _ _ : LMRRAG => True) (in_layer y (add_memories embed texts dates))).
  { intros y texts dates l. exact I. }
  unfold reflect.
  apply steps_bind; [exact _|apply steps_get; exact _|intros w0]. cbv zeta.
  apply steps_bind; [exact _| |intros b1].
  { now apply (steps_in_rag_fs tie_rank embed pickle_dumps X same_identity
                 (fun _ _ => True) Hd Hr Ha). }
  apply steps_bind; [exact _| |intros b2].
  { now apply (steps_in_rag_fs tie_rank embed pickle_dumps X same_identity
                 (fun _ _ => True) Hd Hr Ha). }
  destruct (b1 && b2).
  - exact (steps_already_done tie_rank embed pickle_dumps X same_identity (fun _ _ => True)
             Hd Hr Ha date_int).
  - exact (steps_run_session tie_rank embed pickle_dumps X same_identity (fun _ _ => True)
             Hd Hr Ha transcript current_year date_int).
Qed.

Lemma run_session_memory_grew transcript current_year date_int :
  steps memory_grew (run_session tie_rank embed pickle_dumps X transcript current_year date_int).
Proof.
  pose proof (memory_grew_preorder (bytes := bytes)) as HP.
  pose proof store_grew_preorder as [Hsr Hst].
  set (Rl := fun l l' : LMRRAG => forall y, store_grew (get_layer y l) (get_layer y l')).
  assert (Hl : Reflexive Rl) by (intros l y; apply Hsr).
  apply (steps_run_session tie_rank embed pickle_dumps X memory_grew Rl).
  - intros w d. split; intros is_self y; simpl; destruct is_self; apply Hsr.
  - intros is_self w l fs log Hl' is_self' y. simpl.
    rewrite the_rag_set_the_rag. case_bool_decide as E; [subst; apply Hl'|apply Hsr].
  - intros y texts dates l y'. unfold in_layer, zoom.
    pose proof (add_loop_grew embed (zip texts dates) (get_layer y l)) as H.
    unfold add_memories.
    destruct (add_loop embed (zip texts dates) (get_layer y l)) as [s' r].
    simpl in *.
    destruct (get_layer_set_layer y y' s' l) as [[-> ->]|[-> _]]; [exact H|apply Hsr].
Qed.

Lemma run_session_keeps_aligned transcript current_year date_int :
  steps (fun w w' : world bytes =>
           forall is_self y,
             aligned (get_layer y (the_rag is_self (agent w))) ->
             aligned (get_layer y (the_rag is_self (agent w'))))
        (run_session tie_rank embed pickle_dumps X transcript current_year date_int).
Proof.
  set (R := fun w w' : world bytes =>
              forall is_self y,
                aligned (get_layer y (the_rag is_self (agent w))) ->
                aligned (get_layer y (the_rag is_self (agent w')))).
  set (Rl := fun l l' : LMRRAG =>
               forall y, aligned (get_layer y l) -> aligned (get_layer y l')).
  assert (HP : PreOrder R).
  { split; [now intros w is_self y|].
    intros w1 w2 w3 H1 H2 is_self y H. now apply H2, H1. }
  assert (Hl : Reflexive Rl) by now intros l y.
  apply (steps_run_session tie_rank embed pickle_dumps X R Rl).
  - intros w d. split; intros is_self y; simpl; now destruct is_self.
  - intros is_self w l fs log Hl' is_self' y. simpl.
    rewrite the_rag_set_the_rag. case_bool_decide as E; [subst; apply Hl'|done].
  - intros y texts dates l y'. unfold in_layer, zoom.
    pose proof (add_loop_aligned embed (zip texts dates) (get_layer y l)) as H.
    unfold add_memories.
    destruct (add_loop embed (zip texts dates) (get_layer y l)) as [s' r].
    simpl in *.
    destruct (get_layer_set_layer y y' s' l) as [[-> ->]|[-> _]]; [exact H|done].
Qed.

End SessionInvariants.

(** ** Endings of paths *)

Lemma list_ascii_of_string_app (a b : string) :
  list_ascii_of_string (a +:+ b) = list_ascii_of_string a ++ list_ascii_of_string b.
Proof. induction a as [|c a IH]; simpl; [done|]. now rewrite IH. Qed.

Lemma has_suffix_refl t : has_suffix t t.
Proof. now exists "". Qed.

Lemma has_suffix_cons c t s : has_suffix t s -> has_suffix t (String c s).
Proof. intros [pre ->]. now exists (String c pre). Qed.

Lemma has_suffix_app x t s : has_suffix t s -> has_suffix t (x +:+ s).
Proof. intros [pre ->]. exists (x +:+ pre). now rewrite string_app_assoc. Qed.

Lemma has_suffix_trans t u s : has_suffix t u -> has_suffix u s -> has_suffix t s.
Proof. intros [p ->] [q ->]. exists (q +:+ p). now rewrite string_app_assoc. Qed.

(** Whatever the directory, the joined path ends in the file name. *)
Lemma has_suffix_path_join d f t : has_suffix t f -> has_suffix t (path_join d f).
Proof.
  intros H. unfold path_join. destruct (String.prefix "/" f); [done|].
  destruct (_ || _); repeat apply has_suffix_app; done.
Qed.

Lemma suffix_clash_sound t1 t2 s :
  suffix_clash t1 t2 = true -> has_suffix t1 s -> has_suffix t2 s -> False.
Proof.
  unfold suffix_clash. intros Hc [p1 ->] [p2 E].
  apply (f_equal list_ascii_of_string) in E.
  rewrite !list_ascii_of_string_app in E.
  apply (f_equal (@rev ascii)) in E. rewrite !rev_app_distr in E.
  set (r1 := rev (list_ascii_of_string t1)) in *.
  set (r2 := rev (list_ascii_of_string t2)) in *.
  apply (f_equal (take (Nat.min (length r1) (length r2)))) in E.
  rewrite !take_app_le in E by lia.
  apply negb_true_iff, bool_decide_eq_false in Hc. now apply Hc.
Qed.

(** A directory that ends in a name is joined with a slash. *)
Lemma path_join_after_name d f t :
  String.prefix "/" f = false -> has_suffix t d ->
  t <> "" -> ends_with_slash t = false ->
  has_suffix (t +:+ "/" +:+ f) (path_join d f).
Proof.
  intros Hf [pre ->] Ht Hs. unfold path_join. rewrite Hf.
  assert (String.eqb (pre +:+ t) "" || ends_with_slash (pre +:+ t) = false) as ->.
  { apply orb_false_iff. split.
    - apply String.eqb_neq. intros E. apply (f_equal list_ascii_of_string) in E.
      rewrite list_ascii_of_string_app in E. apply app_eq_nil in E as [_ E].
      destruct t; [done|discriminate].
    - unfold ends_with_slash in *. rewrite list_ascii_of_string_app, rev_app_distr.
      destruct (rev (list_ascii_of_string t)) as [|c r] eqn:Er; [|done].
      apply (f_equal (@rev ascii)) in Er. rewrite rev_involutive in Er.
      destruct t; [done|discriminate]. }
  exists pre. now rewrite string_app_assoc.
Qed.

Ltac suffix :=
  repeat first [ apply has_suffix_refl | apply has_suffix_path_join
               | apply has_suffix_cons | apply has_suffix_app ].


Lemma blob_path_ending a d is_self y :
  has_suffix (blob_ending is_self y) (blob_path a d is_self y).
Proof.
  unfold blob_path, blob_ending.
  apply path_join_after_name; [apply layer_file_relative| |now destruct is_self..].
  destruct is_self; unfold rag_output_dir_self, rag_output_dir_counter, reflection_dir;
    suffix.
Qed.

Lemma text_path_ending a d is_self y :
  has_suffix (text_ending is_self y)
    (path_join (if is_self then rag_output_dir_self a d else rag_output_dir_counter a d)
               (layer_text_file y)).
Proof.
  unfold text_ending.
  apply path_join_after_name; [now destruct y| |now destruct is_self..].
  destruct is_self; unfold rag_output_dir_self, rag_output_dir_counter, reflection_dir;
    suffix.
Qed.

Lemma description_path_ending a d is_self :
  has_suffix "_updated_description.txt" (description_path a d is_self).
Proof. unfold description_path. suffix. Qed.

(** ** Pre- and postconditions *)

Section Hoare.

Context {S : Type}.

Lemma hoare_bind {A B} (P : S -> Prop) (c : M S A) Q1 (k : A -> M S B) Q :
  hoare P c Q1 -> (forall a, hoare (Q1 a) (k a) Q) -> hoare P (bind c k) Q.
Proof.
  intros Hc Hk s Hs. unfold bind. specialize (Hc s Hs).
  destruct (c s) as [s' [a|e]]; [|done]. now apply Hk.
Qed.

Lemma hoare_ret {A} (P : S -> Prop) (a : A) (Q : A -> S -> Prop) :
  (forall s, P s -> Q a s) -> hoare P (ret a) Q.
Proof. intros H s Hs. now apply H. Qed.

Lemma hoare_get_bind {B} s0 (k : S -> M S B) Q :
  hoare (fun s => s = s0) (k s0) Q -> hoare (fun s => s = s0) (bind get k) Q.
Proof. intros H s ->. unfold bind, get. now apply H. Qed.

Lemma hoare_pre {A} (P P' : S -> Prop) (c : M S A) Q :
  (forall s, P s -> P' s) -> hoare P' c Q -> hoare P c Q.
Proof. intros HP H s Hs. now apply H, HP. Qed.

Lemma hoare_top {A} (P : S -> Prop) (c : M S A) : hoare P c (fun _ _ => True).
Proof. intros s _. now destruct (c s) as [s' [a|e]]. Qed.

Lemma hoare_frame {A} (R : relation S) (P : S -> Prop) (c : M S A) :
  steps R c -> (forall s s', R s s' -> P s -> P s') -> hoare P c (fun _ => P).
Proof.
  intros Hc HP s Hs. specialize (Hc s).
  destruct (c s) as [s' [a|e]]; [|done]. now apply (HP s).
Qed.

End Hoare.

(** A run is its final state and its result. *)
Lemma run_result {S A} (x : S * result A) (r : result A) : x.2 = r -> x = (x.1, r).
Proof. intros <-. now destruct x. Qed.

Lemma paths_differ t1 t2 p q :
  has_suffix t1 p -> has_suffix t2 q -> suffix_clash t1 t2 = true -> p <> q.
Proof. intros Hp Hq Hc ->. exact (suffix_clash_sound _ _ _ Hc Hp Hq). Qed.

Section Reports.

Context {bytes : Type}.
Context (pickle_dumps : pickled -> bytes).
Context (X : collaborators bytes).

Lemma only_written_write_file endings path (b : bytes) t :
  t ∈ endings -> has_suffix t path ->
  steps (only_written endings) (write_file path b).
Proof.
  intros Ht Hp w. split; [done|]. intros p H. simpl.
  apply lookup_insert_ne. intros ->. now apply (H t).
Qed.

Lemma only_pdfs_reports (w w' : world bytes) : only_pdfs w w' -> only_reports w w'.
Proof.
  intros [Ha Hf]. split; [done|]. intros p H. apply Hf.
  intros t [->|[]%elem_of_nil]%elem_of_cons. apply H. rewrite elem_of_cons. now left.
Qed.

Lemma only_written_refl endings (w : world bytes) : only_written endings w w.
Proof. now split. Qed.

Lemma only_reports_write_file path (b : bytes) :
  has_suffix ".pdf" path \/ has_suffix ".json" path ->
  steps only_reports (write_file path b).
Proof.
  intros [Hp|Hp].
  - apply (only_written_write_file _ _ _ ".pdf"); [|done].
    rewrite elem_of_cons. now left.
  - apply (only_written_write_file _ _ _ ".json"); [|done].
    rewrite !elem_of_cons. right. now left.
Qed.

Lemma only_pdfs_pdf_from_messages msgs title path :
  has_suffix ".pdf" path ->
  steps only_pdfs (create_conversation_pdf_from_messages X msgs title path).
Proof.
  intros Hp w. unfold create_conversation_pdf_from_messages, bind, lift.
  destruct (pdf_from_messages X msgs title) as [b|]; [|apply only_written_refl].
  apply (only_written_write_file _ _ _ ".pdf"); [|done].
  rewrite elem_of_cons. now left.
Qed.

Lemma only_pdfs_pdf convo title path :
  has_suffix ".pdf" path ->
  steps only_pdfs (create_conversation_pdf X convo title path).
Proof.
  intros Hp w. unfold create_conversation_pdf, bind, lift.
  destruct (pdf_from_transcript X convo title) as [b|]; [|apply only_written_refl].
  apply (only_written_write_file _ _ _ ".pdf"); [|done].
  rewrite elem_of_cons. now left.
Qed.

Lemma only_reports_pdf_from_messages msgs title path :
  has_suffix ".pdf" path ->
  steps only_reports (create_conversation_pdf_from_messages X msgs title path).
Proof.
  intros Hp w. now apply only_pdfs_reports, only_pdfs_pdf_from_messages.
Qed.

Lemma only_reports_pdf convo title path :
  has_suffix ".pdf" path ->
  steps only_reports (create_conversation_pdf X convo title path).
Proof.
  intros Hp w. now apply only_pdfs_reports, only_pdfs_pdf.
Qed.

Lemma only_reports_consciousness summary current_year :
  steps only_reports (generate_consciousness_reflection X summary current_year).
Proof. intros w. now split. Qed.

Lemma only_reports_lookup (w w' : world bytes) t p :
  only_reports w w' -> has_suffix t p ->
  suffix_clash ".pdf" t = true -> suffix_clash ".json" t = true ->
  files w' !! p = files w !! p.
Proof.
  intros [_ Hf] Hp H1 H2. apply Hf.
  intros t' [->|[->|[]%elem_of_nil]%elem_of_cons]%elem_of_cons H.
  - exact (suffix_clash_sound ".pdf" t p H1 H Hp).
  - exact (suffix_clash_sound ".json" t p H2 H Hp).
Qed.

Lemma description_persisted_kept a d is_self (w w' : world bytes) :
  only_reports w w' ->
  description_persisted X a d is_self w -> description_persisted X a d is_self w'.
Proof.
  intros HR (text & b & Hb & Ht). exists text, b. split; [done|]. rewrite <- Ht.
  now apply (only_reports_lookup w w' "_updated_description.txt");
    [|apply description_path_ending|..].
Qed.

Lemma memory_persisted_kept a d is_self (w w' : world bytes) :
  only_reports w w' ->
  memory_persisted pickle_dumps a d is_self w -> memory_persisted pickle_dumps a d is_self w'.
Proof.
  intros HR Hm y. rewrite (proj1 HR), <- Hm.
  apply (only_reports_lookup w w' (blob_ending is_self y));
    [done|apply blob_path_ending|now destruct is_self, y..].
Qed.

Lemma transcript_persisted_kept a d (w w' : world bytes) :
  only_pdfs w w' -> transcript_persisted X a d w -> transcript_persisted X a d w'.
Proof.
  intros [_ Hf] [convo Hc]. exists convo. rewrite <- Hc. apply Hf.
  intros t [->|[]%elem_of_nil]%elem_of_cons H.
  apply (suffix_clash_sound ".pdf" ".json" (transcript_dir_json_path a d)); [done|done|].
  unfold transcript_dir_json_path. suffix.
Qed.

(** What [write_text] has done when it returns. *)
Lemma write_text_ok path text (w w' : world bytes) u :
  write_text X path text w = (w', Ok u) ->
  exists b, encode_text X text = Ok b /\
            w' = mkWorld (agent w) (<[path := b]> (files w)) (llm_log w).
Proof.
  unfold write_text, write_file, bind, modify, lift. cbn [fst snd agent files llm_log].
  destruct (encode_text X text) as [b|]; [|discriminate].
  cbn [fst snd agent files llm_log]. rewrite insert_insert_eq.
  intros [= <-]. now exists b.
Qed.

(** What [write_and_save] has done when it returns. *)
Lemma write_and_save_ok is_self dir (w w' : world bytes) u :
  write_and_save pickle_dumps X is_self dir w = (w', Ok u) ->
  let l := the_rag is_self (agent w) in
  let d := or_default dir (output_dir l) in
  agent w' = agent w /\ llm_log w' = llm_log w /\
  (forall y, files w' !! path_join d (layer_file y)
             = Some (pickle_dumps (state_dict (get_layer y l)))) /\
  (forall p,
      (forall y, p <> path_join d (layer_file y) /\ p <> path_join d (layer_text_file y)) ->
      files w' !! p = files w !! p).
Proof.
  rewrite write_and_save_run. cbv zeta.
  set (l := the_rag is_self (agent w)). set (d := or_default dir (output_dir l)).
  destruct (String.eqb d ""); [discriminate|].
  destruct (encode_text X (write (facts l))) as [b1|]; [|discriminate].
  destruct (encode_text X (write (reflections l))) as [b2|]; [|discriminate].
  destruct (encode_text X (write (deep_reflections l))) as [b3|]; [|discriminate].
  intros [= <-]. cbn [agent files llm_log]. split; [done|]. split; [done|]. split.
  - intros y. destruct y; cbn [get_layer];
      repeat first
        [ rewrite lookup_insert_eq; reflexivity
        | rewrite lookup_insert_ne
            by (intros E; apply path_join_relative_inj in E;
                [discriminate|reflexivity|reflexivity]) ].
  - intros p Hp.
    pose proof (Hp Facts) as [F1 F2]. pose proof (Hp Reflections) as [R1 R2].
    pose proof (Hp DeepReflections) as [D1 D2].
    now rewrite !lookup_insert_ne by done.
Qed.

End Reports.

(** ** What a session that returns has written *)

Section Persisted.

Context {bytes : Type}.
Context (tie_rank : list float -> nat -> nat).
Context (embed : string -> result (list float)).
Context (pickle_dumps : pickled -> bytes).
Context (X : collaborators bytes).

Implicit Types (a : Agent) (d : Z) (w : world bytes).

Lemma write_description_self a d text :
  hoare (fun _ => True)
        (write_text X (description_path a d true) text)
        (fun _ => description_persisted X a d true).
Proof.
  intros w _.
  destruct (write_text X (description_path a d true) text w) as [w' [u|e]] eqn:E; [|done].
  apply write_text_ok in E as (b & Hb & ->).
  exists text, b. split; [done|]. apply lookup_insert_eq.
Qed.

Lemma write_description_counterpart a d text :
  hoare (description_persisted X a d true)
        (write_text X (description_path a d false) text)
        (fun _ w => forall is_self, description_persisted X a d is_self w).
Proof.
  intros w (t & bt & Hbt & Ht).
  destruct (write_text X (description_path a d false) text w) as [w' [u|e]] eqn:E; [|done].
  apply write_text_ok in E as (b & Hb & ->).
  intros is_self. unfold description_persisted. cbn [files].
  destruct (decide (description_path a d is_self = description_path a d false)) as [->|Hne].
  - exists text, b. split; [done|]. apply lookup_insert_eq.
  - rewrite lookup_insert_ne by done. destruct is_self; [now exists t, bt|done].
Qed.

Lemma write_and_save_persists a d is_self (P : world bytes -> Prop) :
  (forall w w',
      agent w' = agent w ->
      (forall p, (forall y, p <> blob_path a d is_self y /\
                     p <> path_join (if is_self then rag_output_dir_self a d
                                     else rag_output_dir_counter a d) (layer_text_file y)) ->
                 files w' !! p = files w !! p) ->
      P w -> P w') ->
  hoare P
        (write_and_save pickle_dumps X is_self
           (Some (if is_self then rag_output_dir_self a d else rag_output_dir_counter a d)))
        (fun _ w => P w /\ memory_persisted pickle_dumps a d is_self w).
Proof.
  intros HP w Hw.
  destruct (write_and_save pickle_dumps X is_self _ w) as [w' [u|e]] eqn:E; [|done].
  apply write_and_save_ok in E as (Ha & _ & Hb & Ho). cbn [or_default] in *. split.
  - apply (HP w); [done| |done]. intros p Hp. apply Ho. intros y. apply (Hp y).
  - intros y. rewrite Ha. apply Hb.
Qed.

(** The session proper, when it returns, has left the files of its date. *)
Lemma run_session_persists transcript current_year d (w0 : world bytes) :
  hoare (fun w => w = w0)
        (run_session tie_rank embed pickle_dumps X transcript current_year d)
        (fun p w => p = transcript_dir_json_path (agent w0) d /\
                    session_persisted pickle_dumps X (agent w0) d w).
Proof.
  unfold run_session. apply hoare_get_bind. cbv zeta.
  set (a := agent w0).
  apply (hoare_pre _ (fun _ => True)); [done|].
  repeat lazymatch goal with
  | |- hoare _ (bind (write_text _ (path_join _ (_ +:+ "_updated_description.txt")) _) _) _ =>
      fail
  | |- hoare _ (bind _ _) _ => eapply hoare_bind; [apply hoare_top|intros ?]
  | |- hoare _ (match ?x with _ => _ end) _ => destruct x
  end.
  eapply hoare_bind; [apply (write_description_self a d)|intros ?].
  eapply hoare_bind; [apply (write_description_counterpart a d)|intros ?].
  cbv beta.
  set (Pd := fun w : world bytes => forall is_self, description_persisted X a d is_self w).
  assert (Hd : forall w w', only_reports w w' -> Pd w -> Pd w').
  { intros w w' HR H is_self. now apply (description_persisted_kept X a d is_self w). }
  do 2 (eapply hoare_bind;
        [apply (hoare_frame only_reports);
         [apply only_reports_pdf_from_messages; suffix|exact Hd]|intros ?]).
  assert (Hdw : forall is_self' (w w' : world bytes),
    (forall p, (forall y, p <> blob_path a d is_self' y /\
                   p <> path_join (if is_self' then rag_output_dir_self a d
                                   else rag_output_dir_counter a d) (layer_text_file y)) ->
               files w' !! p = files w !! p) ->
    Pd w -> Pd w').
  { intros is_self' w w' Ho H is_self. destruct (H is_self) as (text & b & Hb & Ht).
    exists text, b. split; [done|]. rewrite <- Ht. apply Ho. intros y. split.
    - apply (paths_differ _ _ _ _ (description_path_ending a d is_self)
               (blob_path_ending a d is_self' y)). now destruct is_self', y.
    - apply (paths_differ _ _ _ _ (description_path_ending a d is_self)
               (text_path_ending a d is_self' y)). now destruct is_self', y. }
  eapply hoare_bind; [apply (write_and_save_persists a d true Pd)|intros ?].
  { intros w w' _. apply (Hdw true). }
  cbv beta.
  set (Pm := fun w : world bytes => Pd w /\ memory_persisted pickle_dumps a d true w).
  eapply hoare_bind; [apply (write_and_save_persists a d false Pm)|intros ?].
  { intros w w' Ha Ho [H Hm]. split; [now apply (Hdw false w)|].
    intros y'. rewrite Ha, <- Hm. apply Ho. intros y. split.
    - apply (paths_differ _ _ _ _ (blob_path_ending a d true y')
               (blob_path_ending a d false y)). now destruct y, y'.
    - apply (paths_differ _ _ _ _ (blob_path_ending a d true y')
               (text_path_ending a d false y)). now destruct y, y'. }
  cbv beta.
  set (Pall := fun w : world bytes => Pm w /\ memory_persisted pickle_dumps a d false w).
  assert (Hall : forall w w', only_reports w w' -> Pall w -> Pall w').
  { intros w w' HR [[H1 H2] H3]. repeat split.
    - now apply (Hd w).
    - now apply (memory_persisted_kept pickle_dumps a d true w).
    - now apply (memory_persisted_kept pickle_dumps a d false w). }
  eapply hoare_bind;
    [apply (hoare_frame only_reports); [apply only_reports_consciousness|exact Hall]
    |intros [convos transcript_convo]].
  cbv beta.
  do 2 (eapply hoare_bind;
        [apply (hoare_frame only_reports);
         [apply only_reports_write_file; right; suffix|exact Hall]|intros ?]).
  eapply hoare_bind;
    [apply (hoare_frame only_reports);
     [apply only_reports_pdf_from_messages; suffix|exact Hall]|intros ?].
  eapply hoare_bind;
    [apply (hoare_frame only_reports); [apply only_reports_pdf; suffix|exact Hall]
    |intros ?].
  eapply (hoare_bind _ _ (fun _ w => Pall w /\ transcript_persisted X a d w)).
  { intros w Hw. split.
    - apply (Hall w); [|done].
      apply only_reports_write_file. right. unfold transcript_dir_json_path. suffix.
    - exists transcript_convo. apply lookup_insert_eq. }
  intros ?.
  eapply hoare_bind.
  { apply (hoare_frame only_pdfs (fun w => Pall w /\ transcript_persisted X a d w));
      [apply only_pdfs_pdf; suffix|].
    intros w w' HR [H1 H2]. split.
    - apply (Hall w); [now apply only_pdfs_reports|done].
    - now apply (transcript_persisted_kept X a d w). }
  intros ?.
  apply hoare_ret. intros w [[[H1 H2] H3] H4]. split; [done|]. split; [|split].
  - intros [] y; [apply H2|apply H3].
  - exact H1.
  - exact H4.
Qed.

End Persisted.

(** ** Resuming *)

Lemma identity_paths a a' d :
  identity a' = identity a ->
  (forall is_self y, blob_path a' d is_self y = blob_path a d is_self y) /\
  (forall is_self, description_path a' d is_self = description_path a d is_self) /\
  transcript_dir_json_path a' d = transcript_dir_json_path a d.
Proof.
  unfold identity. intros [= E1 E2 E3 _ _].
  unfold blob_path, description_path, transcript_dir_json_path, rag_output_dir_self,
    rag_output_dir_counter, ref_output_dir, reflection_dir, transcript_dir.
  now rewrite E1, E2, E3.
Qed.

Section Resume.

Context {bytes : Type}.
Context (tie_rank : list float -> nat -> nat).
Context (embed : string -> result (list float)).
Context (pickle_dumps : pickled -> bytes) (pickle_loads : bytes -> result pickled).
Context (X : collaborators bytes).

Lemma LMRRAG_load_from_file_true dir (l l' : LMRRAG) (fs fs' : gmap string bytes) :
  LMRRAG_load_from_file pickle_loads dir (l, fs) = ((l', fs'), Ok true) ->
  fs' = fs /\
  forall y, holds pickle_loads fs (path_join (or_default dir (output_dir l)) (layer_file y))
                  (get_layer y l').
Proof.
  rewrite LMRRAG_load_from_file_run. cbv zeta.
  set (d := or_default dir (output_dir l)).
  destruct (load_from_file pickle_loads (path_join d (layer_file Facts)) (facts l, fs))
    as [w1 [[]|e1]] eqn:E1; [|discriminate].
  apply load_from_file_ok_holds in E1 as [H1 F1].
  destruct (load_from_file pickle_loads (path_join d (layer_file Reflections))
              (reflections l, w1.2)) as [w2 [[]|e2]] eqn:E2; [|discriminate].
  apply load_from_file_ok_holds in E2 as [H2 F2].
  destruct (load_from_file pickle_loads (path_join d (layer_file DeepReflections))
              (deep_reflections l, w2.2)) as [w3 [[]|e3]] eqn:E3; [|discriminate].
  apply load_from_file_ok_holds in E3 as [H3 F3].
  rewrite F1 in H2, F2. rewrite F2 in H3, F3.
  intros [= <- <-]. split; [done|]. now intros [].
Qed.

Lemma LMRRAG_load_from_file_same dir (l : LMRRAG) (fs : gmap string bytes) :
  (forall y, holds pickle_loads fs (path_join (or_default dir (output_dir l)) (layer_file y))
                   (get_layer y l)) ->
  LMRRAG_load_from_file pickle_loads dir (l, fs) = ((l, fs), Ok true).
Proof.
  intros Hh. rewrite LMRRAG_load_from_file_run. cbv zeta.
  rewrite (load_from_file_holds pickle_loads _ _ _ _ (Hh Facts)). cbn [fst snd].
  rewrite (load_from_file_holds pickle_loads _ _ _ _ (Hh Reflections)). cbn [fst snd].
  rewrite (load_from_file_holds pickle_loads _ _ _ _ (Hh DeepReflections)).
  simpl. now destruct l.
Qed.

(** With the eight files in place, [reflect] takes the short way. *)
Lemma reflect_resumes transcript current_year date d (w : world bytes) :
  resumable pickle_loads X d w ->
  exists a',
    reflect tie_rank embed pickle_dumps pickle_loads X transcript current_year date d w
    = (mkWorld a' (files w) (llm_log w), Ok (transcript_dir_json_path (agent w) d)) /\
    identity a' = identity (agent w) /\
    self_rag a' = self_rag (agent w) /\ counterpart_rag a' = counterpart_rag (agent w).
Proof.
  intros [Hb Hd].
  assert (Hload : forall is_self,
             in_rag_fs is_self
               (LMRRAG_load_from_file pickle_loads
                  (Some (if is_self then rag_output_dir_self (agent w) d
                         else rag_output_dir_counter (agent w) d))) w
             = (w, Ok true)).
  { intros is_self. unfold in_rag_fs, zoom.
    rewrite LMRRAG_load_from_file_same by (intros y; apply (Hb is_self y)).
    cbn [fst snd]. rewrite set_the_rag_same. now destruct w. }
  destruct (Hd true) as (b1 & d1 & F1 & D1).
  destruct (Hd false) as (b2 & d2 & F2 & D2).
  eexists. split.
  - unfold reflect. unfold bind at 1. unfold get at 1. cbv zeta.
    unfold bind at 1. rewrite (Hload true). unfold bind at 1. rewrite (Hload false).
    cbn [andb].
    apply (already_done_returns X d w b1 b2 d1 d2 F1 D1 F2 D2).
  - repeat split; now destruct (agent w).
Qed.

Lemma already_done_inv d (w w' : world bytes) p :
  already_done X d w = (w', Ok p) ->
  p = transcript_dir_json_path (agent w) d /\
  files w' = files w /\ identity (agent w') = identity (agent w) /\
  self_rag (agent w') = self_rag (agent w) /\
  counterpart_rag (agent w') = counterpart_rag (agent w) /\
  forall is_self, exists b text,
    files w !! description_path (agent w) d is_self = Some b /\ decode_text X b = Ok text.
Proof.
  unfold already_done, read_text, read_file, bind, get, lift, on_agent, modify, ret.
  cbn [fst snd agent files].
  destruct (files w !! _) as [b1|] eqn:F1; [|discriminate].
  destruct (decode_text X b1) as [d1|] eqn:D1; [|discriminate]. cbn [fst snd agent files] in *.
  destruct (files w !! path_join _ (counterpart_name _ +:+ _)) as [b2|] eqn:F2;
    [|discriminate].
  destruct (decode_text X b2) as [d2|] eqn:D2; [|discriminate].
  intros [= <- <-]. cbn [files agent].
  repeat split; try (now destruct (agent w)).
  intros []; [now exists b1, d1|now exists b2, d2].
Qed.


Lemma in_rag_fs_load_true is_self dir (w w' : world bytes) :
  in_rag_fs is_self (LMRRAG_load_from_file pickle_loads dir) w = (w', Ok true) ->
  forall y,
    holds pickle_loads (files w)
          (path_join (or_default dir (output_dir (the_rag is_self (agent w)))) (layer_file y))
          (get_layer y (the_rag is_self (agent w'))).
Proof.
  unfold in_rag_fs, zoom.
  destruct (LMRRAG_load_from_file pickle_loads dir (the_rag is_self (agent w), files w))
    as [[l' fs'] r] eqn:E. cbn [fst snd].
  intros [= <- ->]. apply LMRRAG_load_from_file_true in E as [_ H].
  intros y. cbn [agent]. replace (the_rag is_self (set_the_rag is_self l' (agent w))) with l'
    by now destruct is_self, (agent w).
  apply H.
Qed.

Lemma run_session_same_identity transcript current_year d :
  steps same_identity (run_session tie_rank embed pickle_dumps X transcript current_year d).
Proof.
  pose proof (same_identity_preorder (bytes := bytes)) as HP.
  assert (Hl : Reflexive (fun _ _ : LMRRAG => True)) by done.
  apply (steps_run_session tie_rank embed pickle_dumps X same_identity (fun _ _ => True)).
  - intros w t. split; reflexivity.
  - intros is_self w l fs log _. unfold same_identity. simpl. now destruct is_self.
  - intros y texts dates l. exact I.
Qed.

Hypothesis pickle_roundtrip : forall p, pickle_loads (pickle_dumps p) = Ok p.
Hypothesis text_readable :
  forall t b, encode_text X t = Ok b -> exists t', decode_text X b = Ok t'.

(** When the session proper returns, it leaves what the resume check needs,
    and the transcript at the path it returns. *)
Lemma run_session_ok_resumable transcript current_year d (w w1 : world bytes) p :
  run_session tie_rank embed pickle_dumps X transcript current_year d w = (w1, Ok p) ->
  p = transcript_dir_json_path (agent w) d /\
  identity (agent w1) = identity (agent w) /\
  resumable pickle_loads X d w1 /\
  transcript_persisted X (agent w1) d w1.
Proof using All.
  intros E.
  pose proof (run_session_persists tie_rank embed pickle_dumps X transcript current_year
                d w w eq_refl) as Hp.
  pose proof (run_session_same_identity transcript current_year d w) as Hi.
  rewrite E in Hp, Hi. cbn [fst] in Hi. destruct Hp as (-> & Hm & Hd & Ht).
  unfold same_identity in Hi.
  split; [done|]. split; [done|].
  destruct (identity_paths (agent w) (agent w1) d Hi) as (Pb1 & Pd1 & Pt1).
  split; [split|].
  - intros is_self y. rewrite Pb1. eexists. split; [apply Hm|apply pickle_roundtrip].
  - intros is_self. rewrite Pd1. destruct (Hd is_self) as (text & b & Hb & Hf).
    destruct (text_readable text b Hb) as [t' Ht']. now exists b, t'.
  - unfold transcript_persisted. now rewrite Pt1.
Qed.

(** However [reflect] came to return, it leaves the eight files in place. *)
Lemma reflect_ok_resumable transcript current_year date d (w w1 : world bytes) p :
  reflect tie_rank embed pickle_dumps pickle_loads X transcript current_year date d w
    = (w1, Ok p) ->
  p = transcript_dir_json_path (agent w) d /\
  identity (agent w1) = identity (agent w) /\
  resumable pickle_loads X d w1.
Proof using All.
  set (a := agent w).
  destruct (in_rag_fs_load_frame pickle_loads true
              (Some (rag_output_dir_self a d)) w) as (l1 & b1 & E1).
  set (wa := mkWorld (set_the_rag true l1 (agent w)) (files w) (llm_log w)) in *.
  destruct (in_rag_fs_load_frame pickle_loads false
              (Some (rag_output_dir_counter a d)) wa) as (l2 & b2 & E2).
  set (wb := mkWorld (set_the_rag false l2 (agent wa)) (files wa) (llm_log wa)) in *.
  assert (Hr : reflect tie_rank embed pickle_dumps pickle_loads X transcript current_year
                       date d w
               = if b1 && b2 then already_done X d wb
                 else run_session tie_rank embed pickle_dumps X transcript current_year d wb).
  { unfold reflect. unfold bind at 1. unfold get at 1. cbv zeta. fold a.
    unfold bind at 1. rewrite E1. unfold bind at 1. rewrite E2.
    now destruct (b1 && b2). }
  rewrite Hr. clear Hr.
  assert (Hid : identity (agent wb) = identity a).
  { subst wb wa a. simpl. now destruct (agent w). }
  destruct (identity_paths a (agent wb) d Hid) as (Pb & Pd & Pt).
  destruct (b1 && b2) eqn:Eb.
  - apply andb_true_iff in Eb as [-> ->].
    pose proof (in_rag_fs_load_true _ _ _ _ E1) as H1.
    pose proof (in_rag_fs_load_true _ _ _ _ E2) as H2.
    cbn [or_default agent files the_rag set_the_rag] in H1, H2.
    intros (-> & Hf & Hi & Hs & Hc & Hd)%already_done_inv.
    split; [exact Pt|]. split; [congruence|].
    destruct (identity_paths (agent wb) (agent w1) d Hi) as (Pb1 & Pd1 & _).
    split.
    + intros is_self y. rewrite Pb1, Pb, Hf.
      destruct is_self; cbn [the_rag]; [rewrite Hs|rewrite Hc].
      * replace (self_rag (agent wb)) with (self_rag (set_self_rag l1 (agent w)))
          by (subst wb wa; now destruct (agent w)).
        apply H1.
      * apply H2.
    + intros is_self. rewrite Pd1, Hf. apply Hd.
  - intros (-> & Hi & Hres & _)%run_session_ok_resumable.
    split; [exact Pt|]. split; [congruence|]. exact Hres.
Qed.

End Resume.

(** ** The loop over the questions *)

Section Answers.

Context {bytes : Type}.
Context (tie_rank : list float -> nat -> nat).
Context (embed : string -> result (list float)).
Context (X : collaborators bytes).

Lemma in_rag_get is_self q n k (w : world bytes) :
  in_rag is_self (get_reflections tie_rank embed q n k) w
  = (w, (retrieve_memories tie_rank embed q n k true
           (reflections (the_rag is_self (agent w)))).2) /\
  in_rag is_self (get_deep_reflections tie_rank embed q n k) w
  = (w, (retrieve_memories tie_rank embed q n k true
           (deep_reflections (the_rag is_self (agent w)))).2).
Proof.
  unfold in_rag, zoom. split.
  - pose proof (proj1 (get_layers_state tie_rank embed q n k (the_rag is_self (agent w)))) as H.
    unfold get_reflections, in_layer, zoom in *. cbn [get_layer set_layer] in *.
    destruct (retrieve_memories tie_rank embed q n k true _) as [s' r]. cbn [fst snd] in *.
    rewrite H, set_the_rag_same. now destruct w.
  - pose proof (proj2 (get_layers_state tie_rank embed q n k (the_rag is_self (agent w)))) as H.
    unfold get_deep_reflections, in_layer, zoom in *. cbn [get_layer set_layer] in *.
    destruct (retrieve_memories tie_rank embed q n k true _) as [s' r]. cbn [fst snd] in *.
    rewrite H, set_the_rag_same. now destruct w.
Qed.

(** One turn of the loop, when the whole loop returns. *)
Lemma answer_questions_turn d is_self q rest (w w' : world bytes) convos answers :
  answer_questions tie_rank embed X d is_self (q :: rest) w = (w', Ok (convos, answers)) ->
  let a := agent w in
  let l := the_rag is_self a in
  exists refl deep response v convos' answers',
    (retrieve_memories tie_rank embed q 3 10 true (reflections l)).2 = Ok refl /\
    (retrieve_memories tie_rank embed q 3 10 true (deep_reflections l)).2 = Ok deep /\
    llm_call X (answer_convos X a is_self q refl deep) = Some response /\
    embed (py_strip X response) = Ok v /\
    convos = (answer_convos X a is_self q refl deep ++ [("assistant", response)]) :: convos' /\
    answers = py_strip X response :: answers' /\
    answer_questions tie_rank embed X d is_self rest
      (mkWorld (set_the_rag is_self
                  (set_deep_reflections
                     (mkRAG (memories (deep_reflections l) ++ [py_strip X response])
                            (memory_embeddings (deep_reflections l) ++ [v])
                            (memory_dates (deep_reflections l) ++ [d])) l) a)
               (files w) (llm_log w ++ [answer_convos X a is_self q refl deep]))
    = (w', Ok (convos', answers')).
Proof.
  intros E a l. cbn [answer_questions] in E.
  unfold bind at 1 in E. rewrite (proj1 (in_rag_get is_self q 3 10 w)) in E.
  fold a l in E.
  destruct (retrieve_memories tie_rank embed q 3 10 true (reflections l)) as [s1 [refl|]];
    [|discriminate]. cbn [snd] in E.
  unfold bind at 1 in E. rewrite (proj2 (in_rag_get is_self q 3 10 w)) in E.
  fold a l in E.
  destruct (retrieve_memories tie_rank embed q 3 10 true (deep_reflections l)) as [s2 [deep|]];
    [|discriminate]. cbn [snd] in E.
  unfold bind at 1 in E.
  unfold generate_deep_reflection_answer in E.
  unfold bind at 1 in E. unfold get at 1 in E. cbv zeta in E.
  unfold bind at 1 in E. unfold call_llm at 1 in E. fold a in E.
  fold (answer_convos X a is_self q refl deep) in E.
  destruct (llm_call X (answer_convos X a is_self q refl deep)) as [response|] eqn:Er;
    [|discriminate].
  unfold as_str, lift, bind at 1, ret at 1 in E. cbn [fst snd] in E.
  unfold bind at 1 in E.
  unfold in_rag at 1, zoom, add_deep_reflections, in_layer, zoom, add_memories in E.
  cbn [zip zip_with add_loop agent files llm_log get_layer set_layer] in E.
  unfold bind at 1, lift at 1 in E. fold a l in E.
  destruct (embed (py_strip X response)) as [v|] eqn:Ev; [|discriminate].
  unfold bind at 1, modify at 1, ret at 1 in E. cbn [fst snd] in E.
  match type of E with
  | context [bind (answer_questions _ _ _ _ _ _) _ ?w1] =>
      destruct (answer_questions tie_rank embed X d is_self rest w1)
        as [w2 [[convos' answers']|e]] eqn:Erest
  end.
  - unfold bind, ret in E. rewrite Erest in E. cbn [fst snd] in E.
    injection E as <- <- <-.
    exists refl, deep, response, v, convos', answers'. repeat split; done.
  - unfold bind in E. rewrite Erest in E. discriminate.
Qed.


Lemma add_memories_first t v d texts dates (s : UtilityRAG) :
  embed t = Ok v ->
  add_memories embed (t :: texts) (d :: dates) s
  = add_memories embed texts dates
      (mkRAG (memories s ++ [t]) (memory_embeddings s ++ [v]) (memory_dates s ++ [d])).
Proof.
  intros Hv. unfold add_memories. cbn [zip zip_with add_loop].
  unfold bind, lift, modify. now rewrite Hv.
Qed.

Lemma answer_questions_run d is_self qs : forall (w w' : world bytes) convos answers,
  answer_questions tie_rank embed X d is_self qs w = (w', Ok (convos, answers)) ->
  let a := agent w in
  let l := the_rag is_self a in
  let store_after i :=
    (add_memories embed (take i answers) (replicate i d) (deep_reflections l)).1 in
  length answers = length qs /\
  agent w' = set_the_rag is_self (set_deep_reflections (store_after (length qs)) l) a /\
  files w' = files w /\
  llm_log w' = llm_log w ++ (take 2 <$> convos) /\
  forall i q, qs !! i = Some q ->
    memories (store_after i) = memories (deep_reflections l) ++ take i answers /\
    memory_dates (store_after i) = memory_dates (deep_reflections l) ++ replicate i d /\
    exists refl deep response,
      (retrieve_memories tie_rank embed q 3 10 true (reflections l)).2 = Ok refl /\
      (retrieve_memories tie_rank embed q 3 10 true (store_after i)).2 = Ok deep /\
      llm_call X (answer_convos X a is_self q refl deep) = Some response /\
      convos !! i = Some (answer_convos X a is_self q refl deep ++ [("assistant", response)]) /\
      answers !! i = Some (py_strip X response).
Proof.
  induction qs as [|q rest IH]; intros w w' convos answers E a l store_after.
  - cbn in E. injection E as <- <- <-. subst store_after a l. cbn.
    split; [done|]. split.
    { destruct is_self, (agent w) as [? ? ? [] [] ? ? ? ?]; reflexivity. }
    split; [done|]. split; [now rewrite app_nil_r|]. intros i q' Hq. discriminate.
  - apply answer_questions_turn in E
      as (refl & deep & response & v & convos' & answers' & Hr & Hd & Hc & Hv & -> & -> & E).
    fold a l in Hr, Hd, Hc, E.
    apply IH in E. cbv zeta in E. cbn [agent files llm_log] in E.
    assert (Hl : the_rag is_self
                   (set_the_rag is_self
                      (set_deep_reflections
                         (mkRAG (memories (deep_reflections l) ++ [py_strip X response])
                                (memory_embeddings (deep_reflections l) ++ [v])
                                (memory_dates (deep_reflections l) ++ [d])) l) a)
                 = set_deep_reflections
                     (mkRAG (memories (deep_reflections l) ++ [py_strip X response])
                            (memory_embeddings (deep_reflections l) ++ [v])
                            (memory_dates (deep_reflections l) ++ [d])) l).
    { now destruct is_self, a. }
    rewrite Hl in E. cbn [deep_reflections reflections set_deep_reflections] in E.
    destruct E as (Hlen & Ha & Hf & Hlog & Hi).
    assert (Hst : forall i, store_after (S i)
                  = (add_memories embed (take i answers') (replicate i d)
                       (mkRAG (memories (deep_reflections l) ++ [py_strip X response])
                              (memory_embeddings (deep_reflections l) ++ [v])
                              (memory_dates (deep_reflections l) ++ [d]))).1).
    { intros i. subst store_after. cbn [take replicate].
      now rewrite (add_memories_first _ v). }
    split; [simpl; now rewrite Hlen|]. split.
    { rewrite Ha. cbn [length]. rewrite Hst.
      destruct is_self, a as [? ? ? [] [] ? ? ? ?]; reflexivity. }
    split; [done|]. split.
    { rewrite Hlog. cbn [fmap list_fmap]. now rewrite <- app_assoc. }
    intros [|i] q' Hq.
    + injection Hq as <-. subst store_after. cbn [take replicate].
      unfold add_memories. cbn. rewrite !app_nil_r.
      split; [done|]. split; [done|].
      exists refl, deep, response. repeat split; done.
    + cbn in Hq.
      destruct (Hi i q' Hq)
        as (Hm & Hdt & refl' & deep' & response' & H1 & H2 & H3 & H4 & H5).
      rewrite Hst. split; [|split].
      * rewrite Hm. cbn [memories take]. now rewrite <- app_assoc.
      * rewrite Hdt. cbn [memory_dates replicate]. now rewrite <- app_assoc.
      * exists refl', deep', response'.
        assert (Hn : forall r dp, 
          answer_convos X (set_the_rag is_self
                      (set_deep_reflections
                         (mkRAG (memories (deep_reflections l) ++ [py_strip X response])
                                (memory_embeddings (deep_reflections l) ++ [v])
                                (memory_dates (deep_reflections l) ++ [d])) l) a)
             is_self q' r dp = answer_convos X a is_self q' r dp).
        { intros r dp. now destruct is_self, a. }
        rewrite Hn in H3, H4. repeat split; done.
Qed.

End Answers.

(** ** The resume check of [reflect] *)

Section ResumeOutcome.

Context {bytes : Type}.
Context (X : collaborators bytes).


End ResumeOutcome.




(** * More on the reflection session *)

(** ** What a session changes in the agent *)

(** X13: however [reflect] ends, by the short way, after a whole session or
    with an exception half way, it leaves the agent's output directory, its
    name, its counterpart's name and the two descriptions taken at
    construction as they were.  Only [config.description] and
    [counterpart_description] receive the rewritten descriptions, so every
    session rewrites the counterpart's description from the one given at
    construction. *)
Theorem reflect_keeps_identity {bytes : Type}
    (tie_rank : list float -> nat -> nat) (embed : string -> result (list float))
    (pickle_dumps : pickled -> bytes) (pickle_loads : bytes -> result pickled)
    (X : collaborators bytes)
    (transcript : string) (current_year : Z) (date : string) (date_int : Z)
    (w : world bytes) :
  let a := agent w in
  let a' := agent (reflect tie_rank embed pickle_dumps pickle_loads X transcript current_year
                           date date_int w).1 in
  agent_output_dir a' = agent_output_dir a /\
  config_name a' = config_name a /\
  counterpart_name a' = counterpart_name a /\
  description_of_self a' = description_of_self a /\
  description_of_counterpart a' = description_of_counterpart a.
Proof.
  intros a a'.
  pose proof (reflect_same_identity tie_rank embed pickle_dumps pickle_loads X transcript
                current_year date date_int w) as H.
  unfold same_identity, identity in H. fold a a' in H. now injection H.
Qed.

(** X14: the session proper only appends to the six stores: whatever it
    does, and also when it raises half way, the texts, the embeddings and the
    dates each store had before are a prefix of what it has afterwards, and a
    store whose three lists had one length still has lists of one length. *)
Theorem session_only_appends {bytes : Type}
    (tie_rank : list float -> nat -> nat) (embed : string -> result (list float))
    (pickle_dumps : pickled -> bytes)
    (X : collaborators bytes)
    (transcript : string) (current_year date_int : Z) (w : world bytes) :
  let w' := (run_session tie_rank embed pickle_dumps X transcript current_year date_int w).1 in
  forall is_self y,
    let s := get_layer y (the_rag is_self (agent w)) in
    let s' := get_layer y (the_rag is_self (agent w')) in
    memories s `prefix_of` memories s' /\
    memory_embeddings s `prefix_of` memory_embeddings s' /\
    memory_dates s `prefix_of` memory_dates s' /\
    (aligned s -> aligned s').
Proof.
  intros w' is_self y s s'.
  pose proof (run_session_memory_grew tie_rank embed pickle_dumps X transcript current_year
                date_int w is_self y) as (H1 & H2 & H3).
  split; [exact H1|]. split; [exact H2|]. split; [exact H3|].
  apply (run_session_keeps_aligned tie_rank embed pickle_dumps X transcript current_year
           date_int w is_self y).
Qed.

(** ** Answers to the deep-reflection questions *)

(** X15: the loop of [_process_deep_reflections] stores each answer before
    it asks the next question.  When the loop returns, there is one answer
    per question; the deep-reflection layer of the memory asked about holds
    the answers, appended in order with the session's date, and nothing else
    of the agent and no file has changed; the service was sent exactly the
    conversations returned, without their last message; and the request for
    question [i] was built from what retrieval gave on the reflections and on
    the deep reflections with the first [i] answers already among them. *)
Theorem answers_feed_later_questions {bytes : Type}
    (tie_rank : list float -> nat -> nat) (embed : string -> result (list float))
    (X : collaborators bytes)
    (date_int : Z) (is_self : bool) (questions : list string)
    (w w' : world bytes) (convos : list (list message)) (answers : list string) :
  answer_questions tie_rank embed X date_int is_self questions w = (w', Ok (convos, answers)) ->
  let a := agent w in
  let l := the_rag is_self a in
  let store_after i :=
    (add_memories embed (take i answers) (replicate i date_int) (deep_reflections l)).1 in
  length answers = length questions /\
  agent w' = set_the_rag is_self
               (set_deep_reflections (store_after (length questions)) l) a /\
  files w' = files w /\
  llm_log w' = llm_log w ++ (take 2 <$> convos) /\
  forall i q, questions !! i = Some q ->
    memories (store_after i) = memories (deep_reflections l) ++ take i answers /\
    memory_dates (store_after i)
      = memory_dates (deep_reflections l) ++ replicate i date_int /\
    exists refl deep response,
      (retrieve_memories tie_rank embed q 3 10 true (reflections l)).2 = Ok refl /\
      (retrieve_memories tie_rank embed q 3 10 true (store_after i)).2 = Ok deep /\
      llm_call X (answer_convos X a is_self q refl deep) = Some response /\
      convos !! i
        = Some (answer_convos X a is_self q refl deep ++ [("assistant", response)]) /\
      answers !! i = Some (py_strip X response).
Proof. apply answer_questions_run. Qed.

Lemma answers_feed_later_questions_witness :
  let r := answer_questions stub_rank stub_embed answering_collaborators 13 true ["q1"; "q2"]
                            (mkWorld stub_agent ∅ []) in
  let out := match r.2 with Ok p => p | Raise _ => ([], []) end in
  r.2 = Ok out /\ length out.2 = 2 /\ llm_log r.1 = [] ++ (take 2 <$> out.1).
Proof.
  intros r out.
  assert (E : r = (r.1, Ok (out.1, out.2))) by (vm_compute; reflexivity).
  split; [vm_compute; reflexivity|].
  destruct (answers_feed_later_questions stub_rank stub_embed answering_collaborators 13 true
              ["q1"; "q2"] (mkWorld stub_agent ∅ []) r.1 out.1 out.2 E)
    as (H1 & _ & _ & H4 & _).
  split; [exact H1|exact H4].
Defined.

(** ** What is on disk after a session *)

(** X16: when the session proper returns, it returns the path of the
    transcript under [transcripts], the transcript is at this path, and the
    eight files that the resume check reads are in place: each of the six
    blobs is the pickle of its layer as the layer is in memory at return (the
    memories are saved after the last addition, and what is written
    afterwards goes to other files), and both description files hold a text
    as it was written. *)
Theorem session_is_persisted {bytes : Type}
    (tie_rank : list float -> nat -> nat) (embed : string -> result (list float))
    (pickle_dumps : pickled -> bytes)
    (X : collaborators bytes)
    (transcript : string) (current_year date_int : Z) (w w' : world bytes) (p : string) :
  run_session tie_rank embed pickle_dumps X transcript current_year date_int w = (w', Ok p) ->
  p = transcript_dir_json_path (agent w) date_int /\
  session_persisted pickle_dumps X (agent w) date_int w'.
Proof.
  intros E.
  pose proof (run_session_persists tie_rank embed pickle_dumps X transcript current_year
                date_int w w eq_refl) as H.
  now rewrite E in H.
Qed.

Lemma session_is_persisted_witness :
  session_persisted blob_dumps answering_collaborators
    (agent (mkWorld stub_agent (∅ : gmap string blob) [])) 13
    (run_session stub_rank stub_embed blob_dumps answering_collaborators "hello" 2024 13
                 (mkWorld stub_agent ∅ [])).1.
Proof.
  refine (proj2 (session_is_persisted stub_rank stub_embed blob_dumps answering_collaborators
                   "hello" 2024 13 (mkWorld stub_agent ∅ []) _
                   transcript_13 _)).
  apply run_result. vm_compute. reflexivity.
Defined.

(** X17: what [reflect] returned once for a date, it returns again without
    work.  If a call of [reflect] returns (after a whole session or by the
    short way), then any later call for the same date on the resulting state,
    with whatever transcript, year and date string, takes the short way: it
    returns the same path, sends nothing to the text-generation service,
    writes no file and leaves both memories as they are.  [pickle] is taken
    to load what it dumped and the text codec of files to read what it
    wrote. *)
Theorem reflect_again_resumes {bytes : Type}
    (tie_rank : list float -> nat -> nat) (embed : string -> result (list float))
    (pickle_dumps : pickled -> bytes) (pickle_loads : bytes -> result pickled)
    (X : collaborators bytes)
    (transcript transcript' : string) (current_year current_year' : Z)
    (date date' : string) (date_int : Z) (w w1 : world bytes) (p : string) :
  (forall q, pickle_loads (pickle_dumps q) = Ok q) ->
  (forall t b, encode_text X t = Ok b -> exists t', decode_text X b = Ok t') ->
  reflect tie_rank embed pickle_dumps pickle_loads X transcript current_year date date_int w
    = (w1, Ok p) ->
  exists w2,
    reflect tie_rank embed pickle_dumps pickle_loads X transcript' current_year' date' date_int w1
      = (w2, Ok p) /\
    llm_log w2 = llm_log w1 /\ files w2 = files w1 /\
    self_rag (agent w2) = self_rag (agent w1) /\
    counterpart_rag (agent w2) = counterpart_rag (agent w1).
Proof.
  intros Hp Ht E.
  destruct (reflect_ok_resumable tie_rank embed pickle_dumps pickle_loads X Hp Ht
              transcript current_year date date_int w w1 p E) as (-> & Hi & Hr).
  destruct (reflect_resumes tie_rank embed pickle_dumps pickle_loads X transcript' current_year'
              date' date_int w1 Hr) as (a' & E' & _ & Hs & Hc).
  eexists. split; [rewrite E'; f_equal; f_equal|done].
  now apply identity_paths.
Qed.

Lemma reflect_again_resumes_witness :
  exists w2,
    reflect stub_rank stub_embed blob_dumps blob_loads answering_collaborators
            "another" 2031 "July 1st" 13
            (reflect stub_rank stub_embed blob_dumps blob_loads answering_collaborators
                     "hello" 2024 "April 1st" 13 (mkWorld stub_agent ∅ [])).1
      = (w2, Ok transcript_13) /\
    llm_log w2
      = llm_log (reflect stub_rank stub_embed blob_dumps blob_loads answering_collaborators
                         "hello" 2024 "April 1st" 13 (mkWorld stub_agent ∅ [])).1 /\
    files w2
      = files (reflect stub_rank stub_embed blob_dumps blob_loads answering_collaborators
                       "hello" 2024 "April 1st" 13 (mkWorld stub_agent ∅ [])).1 /\
    self_rag (agent w2)
      = self_rag (agent (reflect stub_rank stub_embed blob_dumps blob_loads
                                 answering_collaborators
                                 "hello" 2024 "April 1st" 13
                                 (mkWorld stub_agent ∅ [])).1) /\
    counterpart_rag (agent w2)
      = counterpart_rag
          (agent (reflect stub_rank stub_embed blob_dumps blob_loads answering_collaborators
                          "hello" 2024 "April 1st" 13 (mkWorld stub_agent ∅ [])).1).
Proof.
  refine (reflect_again_resumes stub_rank stub_embed blob_dumps blob_loads answering_collaborators
            "hello" "another" 2024 2031 "April 1st" "July 1st" 13
            (mkWorld stub_agent ∅ []) _ _ _ _ _).
  - intros q. reflexivity.
  - intros t b. unfold answering_collaborators, encode_text, decode_text, stub_encode.
    destruct (existsb _ _); [discriminate|]. intros [= <-]. now exists t.
  - apply run_result. vm_compute. reflexivity.
Defined.

(** ** When the text-generation service fails *)

(** X18: if the service gives no answer to the first extraction request, the
    session stops there with AttributeError (a method called on [None]):
    the request has been sent, and nothing else has happened, no file is
    written and no memory added, so that the next call of [reflect] for this
    date finds no more blobs than this one did. *)
Theorem session_stops_without_extraction {bytes : Type}
    (tie_rank : list float -> nat -> nat) (embed : string -> result (list float))
    (pickle_dumps : pickled -> bytes)
    (X : collaborators bytes)
    (transcript : string) (current_year date_int : Z) (w : world bytes) :
  llm_call X (extraction_convos X (agent w) transcript) = None ->
  run_session tie_rank embed pickle_dumps X transcript current_year date_int w
  = (mkWorld (agent w) (files w) (llm_log w ++ [extraction_convos X (agent w) transcript]),
     Raise AttributeError).
Proof.
  intros H. unfold run_session.
  unfold bind at 1. unfold get at 1. cbv zeta.
  unfold bind at 1.
  assert (E : generate_facts_and_reflections X transcript true w
              = (mkWorld (agent w) (files w)
                   (llm_log w ++ [extraction_convos X (agent w) transcript]),
                 Raise AttributeError)).
  { unfold generate_facts_and_reflections, bind, get, call_llm, lift. cbn [fst snd agent].
    unfold extraction_convos in H. cbn [subject_name]. now rewrite H. }
  now rewrite E.
Qed.

Lemma session_stops_without_extraction_witness :
  run_session stub_rank stub_embed blob_dumps stub_collaborators "hello" 2024 13
              (mkWorld stub_agent ∅ [])
  = (mkWorld stub_agent ∅ ([] ++ [extraction_convos stub_collaborators stub_agent "hello"]),
     Raise AttributeError).
Proof.
  apply (session_stops_without_extraction stub_rank stub_embed blob_dumps stub_collaborators
           "hello" 2024 13 (mkWorld stub_agent ∅ [])).
  reflexivity.
Defined.

(** ** What a resume leaves in the agent *)

(** X19: a resume that returns discards the description it read for the
    agent itself: [config.description] is assigned the text of the agent's
    description file and then [description_of_self], the description given
    at construction, so that after the call it holds the latter.  The text
    read for the counterpart, stripped, stays in [counterpart_description];
    the two descriptions given at construction are as they were. *)
Theorem resume_discards_own_description {bytes : Type}
    (tie_rank : list float -> nat -> nat) (embed : string -> result (list float))
    (pickle_dumps : pickled -> bytes) (pickle_loads : bytes -> result pickled)
    (X : collaborators bytes)
    (transcript : string) (current_year : Z) (date : string) (date_int : Z)
    (w : world bytes) (d1 d2 : string) :
  let a := agent w in
  let s1 := load_self pickle_loads date_int w in
  let s2 := load_counterpart pickle_loads a date_int s1.1 in
  let r := reflect tie_rank embed pickle_dumps pickle_loads X transcript current_year
                   date date_int w in
  s1.2 = Ok true -> s2.2 = Ok true ->
  read_description X a date_int true (files w) = Ok d1 ->
  read_description X a date_int false (files w) = Ok d2 ->
  config_description (agent r.1) = description_of_self a /\
  counterpart_description (agent r.1) = Some (py_strip X d2) /\
  description_of_self (agent r.1) = description_of_self a /\
  description_of_counterpart (agent r.1) = description_of_counterpart a.
Proof.
  intros a s1 s2 r. subst s1 s2 r. unfold load_self, load_counterpart. fold a.
  destruct (in_rag_fs_load_frame pickle_loads true
              (Some (rag_output_dir_self a date_int)) w) as (l1 & b1 & E1).
  fold a in E1. rewrite E1. cbn [fst snd].
  set (w1 := mkWorld (set_the_rag true l1 a) (files w) (llm_log w)) in *.
  destruct (in_rag_fs_load_frame pickle_loads false
              (Some (rag_output_dir_counter a date_int)) w1) as (l2 & b2 & E2).
  rewrite E2. cbn [fst snd].
  set (w2 := mkWorld (set_the_rag false l2 (agent w1)) (files w1) (llm_log w1)) in *.
  intros [= ->] [= ->] H1 H2.
  assert (Hr : reflect tie_rank embed pickle_dumps pickle_loads X transcript current_year
                       date date_int w
               = already_done X date_int w2).
  { unfold reflect. unfold bind at 1. unfold get at 1. cbv zeta. fold a.
    unfold bind at 1. rewrite E1. unfold bind at 1. now rewrite E2. }
  rewrite Hr. clear Hr.
  unfold read_description, description_path in H1, H2.
  destruct (files w !! _) as [c1|] eqn:F1 in H1; [|discriminate].
  destruct (files w !! _) as [c2|] eqn:F2 in H2; [|discriminate].
  rewrite (already_done_returns X date_int w2 c1 c2 d1 d2); [|subst w2 w1; now destruct a..].
  subst w2 w1. cbn. now destruct a.
Qed.

Lemma resume_discards_own_description_witness :
  config_description
    (agent (reflect stub_rank stub_embed blob_dumps blob_loads stub_collaborators
                    "hello" 2024 "April 1st" 13
                    (mkWorld stub_agent described_files [])).1)
  = description_of_self (agent (mkWorld stub_agent described_files [])).
Proof.
  refine (proj1 (resume_discards_own_description stub_rank stub_embed blob_dumps blob_loads
                   stub_collaborators "hello" 2024 "April 1st" 13
                   (mkWorld stub_agent described_files [])
                   "a painter, older" "a pilot, retired" _ _ _ _));
    vm_compute; reflexivity.
Defined.

(** * The rounds of [main.py] *)

(** ** Dates of the rounds *)

Lemma schedule_succ (m : nat) :
  schedule (Z.of_nat (S m)) = schedule (Z.of_nat m) ++ rounds_of_year (Z.of_nat m).
Proof.
  unfold schedule. rewrite seqZ_S, flat_map_app, Z.add_0_l. cbn [flat_map].
  now rewrite app_nil_r.
Qed.

Lemma schedule_length (m : nat) : length (schedule (Z.of_nat m)) = 4 * m.
Proof.
  induction m as [|m IH]; [done|].
  rewrite schedule_succ, length_app, IH. simpl. lia.
Qed.

Lemma schedule_lookup (m y k : nat) :
  y < m -> k < 4 ->
  exists date,
    dates_of_year !! k = Some date /\
    schedule (Z.of_nat m) !! (4 * y + k)
    = Some (mkRound (Z.of_nat y + 2024) date (Z.of_nat y * 10 + Z.of_nat k)).
Proof.
  intros Hy Hk. induction m as [|m IH]; [lia|].
  rewrite schedule_succ.
  destruct (decide (y < m)) as [Hlt|Hge].
  - destruct (IH Hlt) as (date & Hd & Hl). exists date. split; [done|].
    rewrite lookup_app_l by (rewrite schedule_length; lia). exact Hl.
  - assert (y = m) as -> by lia.
    rewrite lookup_app_r by (rewrite schedule_length; lia).
    rewrite schedule_length. replace (4 * m + k - 4 * m) with k by lia.
    destruct k as [|[|[|[|k]]]]; [eexists; split; reflexivity..|lia].
Qed.

Lemma schedule_sorted (m : nat) :
  StronglySorted Z.lt (round_date_int <$> schedule (Z.of_nat m)) /\
  Forall (fun d => (0 <= d < Z.of_nat m * 10)%Z) (round_date_int <$> schedule (Z.of_nat m)).
Proof.
  induction m as [|m [IHs IHb]]; [split; constructor|].
  rewrite schedule_succ, fmap_app. split.
  - apply StronglySorted_app. split; [|split; [done|]].
    + intros d1 d2 H1 H2. rewrite Forall_forall in IHb. apply IHb in H1.
      cbn in H2. rewrite !elem_of_cons, elem_of_nil in H2. lia.
    + cbn. repeat constructor; lia.
  - apply Forall_app. split.
    + eapply Forall_impl; [exact IHb|]. intros d Hd. cbv beta in *. lia.
    + cbn. repeat constructor; lia.
Qed.

(** X20: the loop of [main.py] runs four rounds for each of the years
    (none when [number_of_years] is not positive); round [k] of year
    [year_idx] (both counted from 0) is the one at place [4 * year_idx + k],
    with the year [year_idx + 2024], the [k]-th of the four dates and
    [date_int = year_idx * 10 + k]; and [date_int] grows strictly from each
    round to the next, so that no two rounds have the same [date_int] and the
    order of the [date_int]s is the order of the conversations in time. *)
Theorem schedule_dates_increase (number_of_years : Z) :
  let rounds := schedule number_of_years in
  length rounds = 4 * Z.to_nat number_of_years /\
  (forall year_idx k : nat,
      (Z.of_nat year_idx < number_of_years)%Z -> k < 4 ->
      exists date,
        dates_of_year !! k = Some date /\
        rounds !! (4 * year_idx + k)
        = Some (mkRound (Z.of_nat year_idx + 2024) date
                        (Z.of_nat year_idx * 10 + Z.of_nat k))) /\
  (forall i j r1 r2,
      i < j -> rounds !! i = Some r1 -> rounds !! j = Some r2 ->
      (round_date_int r1 < round_date_int r2)%Z).
Proof.
  intros rounds. subst rounds.
  destruct (Z.le_gt_cases number_of_years 0) as [Hn|Hn].
  { unfold schedule. rewrite seqZ_nil by done. simpl.
    split; [lia|]. split; [intros; lia|]. intros i j r1 r2 _ H. discriminate. }
  rewrite <- (Z2Nat.id number_of_years) by lia.
  set (m := Z.to_nat number_of_years). rewrite Nat2Z.id.
  split; [apply schedule_length|]. split.
  - intros y k Hy Hk. apply schedule_lookup; [lia|done].
  - intros i j r1 r2 Hij H1 H2.
    destruct (schedule_sorted m) as [Hs _].
    apply (StronglySorted_before Z.lt _ _ _ Hs).
    apply (before_lookup _ i j); [done|..].
    + now rewrite list_lookup_fmap, H1.
    + now rewrite list_lookup_fmap, H2.
Qed.

Lemma schedule_dates_increase_witness :
  exists date,
    dates_of_year !! 3 = Some date /\
    schedule 50 !! (4 * 12 + 3)
    = Some (mkRound (Z.of_nat 12 + 2024) date (Z.of_nat 12 * 10 + Z.of_nat 3)).
Proof.
  refine (proj1 (proj2 (schedule_dates_increase 50)) 12 3 _ _); lia.
Defined.

(** ** Files of the rounds *)
















(** * The retry loop of [GPT4O.call] *)

Section RetryLoop.

Context (create : list message -> nat -> result (option string)).
Context (time_sleep : float -> result unit).
Context (conversations : list message) (max_retries : Z) (initial_wait : float).

Hypothesis sleeps : forall t, time_sleep t = Ok tt.
Hypothesis few : (max_retries <= 1025)%Z.

Local Abbreviation loop := (call_loop create time_sleep conversations max_retries initial_wait).

Lemma waits_succ attempt n :
  waits initial_wait attempt (S n)
  = (initial_wait * Z.ldexp 1 attempt)%float :: waits initial_wait (attempt + 1) n.
Proof.
  unfold waits. cbn [seq fmap list_fmap]. rewrite Z.add_0_r. f_equal.
  rewrite <- fmap_S_seq, <- list_fmap_compose. apply list_fmap_ext.
  intros _ i _. simpl. do 2 f_equal. lia.
Qed.

(** One failed attempt that is not the last. *)
Lemma call_loop_retry todo attempt (s : line) e :
  create conversations (requests s) = Raise e ->
  (0 <= attempt < max_retries - 1)%Z ->
  loop (S todo) attempt s
  = loop todo (attempt + 1)
      (mkLine (S (requests s)) (slept s ++ [(initial_wait * Z.ldexp 1 attempt)%float])).
Proof using sleeps few.
  intros He Ha. cbn [call_loop]. unfold catch, request. rewrite He.
  destruct (Z.eqb_spec attempt (max_retries - 1)) as [|_]; [lia|].
  unfold bind, lift, wait_time, sleep.
  destruct (Z.ltb_spec attempt 1024) as [_|]; [|lia].
  now rewrite sleeps.
Qed.

Lemma call_loop_answer j : forall todo attempt (s : line) content,
  (0 <= attempt)%Z -> (attempt + Z.of_nat todo = max_retries)%Z -> j < todo ->
  create conversations (requests s + j) = Ok content ->
  (forall i, i < j -> is_ok (create conversations (requests s + i)) = false) ->
  loop todo attempt s
  = (mkLine (requests s + S j) (slept s ++ waits initial_wait attempt j), Ok content).
Proof using sleeps few.
  induction j as [|j IH]; intros todo attempt s content Ha Hm Hj Hc Hf.
  - destruct todo as [|todo]; [lia|]. cbn [call_loop]. unfold catch, request.
    rewrite Nat.add_0_r in Hc. rewrite Hc. unfold waits. simpl.
    rewrite app_nil_r. do 2 f_equal. lia.
  - destruct todo as [|todo]; [lia|].
    pose proof (Hf 0 ltac:(lia)) as H0. rewrite Nat.add_0_r in H0.
    destruct (create conversations (requests s)) as [|e] eqn:E0; [discriminate|].
    rewrite (call_loop_retry todo attempt s e E0) by lia.
    rewrite (IH todo (attempt + 1)%Z _ content); cbn [requests slept]; try lia.
    + rewrite waits_succ, <- app_assoc. do 2 f_equal. lia.
    + now replace (S (requests s) + j) with (requests s + S j) by lia.
    + intros i Hi. replace (S (requests s) + i) with (requests s + S i) by lia.
      apply Hf. lia.
Qed.

Lemma call_loop_gives_up todo : forall attempt (s : line),
  (0 <= attempt)%Z -> (attempt + Z.of_nat todo = max_retries)%Z ->
  (forall i, i < todo -> is_ok (create conversations (requests s + i)) = false) ->
  loop todo attempt s
  = (mkLine (requests s + todo) (slept s ++ waits initial_wait attempt (todo - 1)), Ok None).
Proof using sleeps few.
  induction todo as [|todo IH]; intros attempt s Ha Hm Hf.
  - simpl. unfold ret, waits. simpl. rewrite app_nil_r, Nat.add_0_r. now destruct s.
  - pose proof (Hf 0 ltac:(lia)) as H0. rewrite Nat.add_0_r in H0.
    destruct (create conversations (requests s)) as [|e] eqn:E0; [discriminate|].
    destruct todo as [|todo].
    + cbn [call_loop]. unfold catch, request. rewrite E0.
      destruct (Z.eqb_spec attempt (max_retries - 1)) as [_|]; [|lia].
      unfold ret, waits. simpl. rewrite app_nil_r. do 2 f_equal. lia.
    + rewrite (call_loop_retry (S todo) attempt s e E0) by lia.
      rewrite IH; cbn [requests slept]; try lia.
      * change (S (S todo) - 1) with (S todo).
        change (S todo - 1) with (todo - 0). rewrite Nat.sub_0_r.
        rewrite waits_succ, <- app_assoc. do 2 f_equal. lia.
      * intros i Hi. replace (S (requests s) + i) with (requests s + S i) by lia.
        apply Hf. lia.
Qed.

End RetryLoop.

(** X22: [GPT4O.call] asks until it is answered, at most [max_retries]
    times.  When [time.sleep] accepts the lengths and [max_retries] is at
    most 1025: if request [j] (counted from 0, [j < max_retries]) is the
    first that raises nothing, the call returns its content (which can be
    [None]) after [j + 1] requests, having slept [initial_wait * 2 ** i]
    after each failure [i < j]; if all [max_retries] requests raise, it
    returns [None] after that many requests and one sleep less (none and no
    request when [max_retries <= 0]: the loop does not run and the function
    ends without a [return]).  An exception of [time.sleep], as for a
    negative [initial_wait], is not caught: it ends the call after the
    first failed request. *)
Theorem call_retries_until_answered
    (create : list message -> nat -> result (option string))
    (time_sleep : float -> result unit)
    (conversations : list message) (max_retries : Z) (initial_wait : float) (s : line) :
  let r := GPT4O_call create time_sleep conversations max_retries initial_wait s in
  ((forall t, time_sleep t = Ok tt) -> (max_retries <= 1025)%Z ->
   (forall j content,
       (Z.of_nat j < max_retries)%Z ->
       create conversations (requests s + j) = Ok content ->
       (forall i, i < j -> is_ok (create conversations (requests s + i)) = false) ->
       r = (mkLine (requests s + S j) (slept s ++ waits initial_wait 0 j), Ok content)) /\
   ((forall i, (Z.of_nat i < max_retries)%Z ->
               is_ok (create conversations (requests s + i)) = false) ->
    r = (mkLine (requests s + Z.to_nat max_retries)
                (slept s ++ waits initial_wait 0 (Z.to_nat max_retries - 1)),
         Ok None))) /\
  (forall e e',
      (1 < max_retries)%Z ->
      create conversations (requests s) = Raise e ->
      time_sleep (initial_wait * Z.ldexp 1 0)%float = Raise e' ->
      r = (mkLine (S (requests s)) (slept s), Raise e')).
Proof.
  intros r. subst r. unfold GPT4O_call. split.
  - intros Hs Hm. split.
    + intros j content Hj Hc Hf.
      apply (call_loop_answer create time_sleep conversations max_retries initial_wait
               Hs Hm j); [lia|lia|lia|exact Hc|exact Hf].
    + intros Hf.
      destruct (Z.le_gt_cases max_retries 0) as [Hn|Hn].
      { replace (Z.to_nat max_retries) with 0 by lia. simpl. unfold ret, waits. simpl.
        rewrite app_nil_r, Nat.add_0_r. now destruct s. }
      apply (call_loop_gives_up create time_sleep conversations max_retries initial_wait
               Hs Hm); [lia|lia|].
      intros i Hi. apply Hf. lia.
  - intros e e' Hm Hc Hs.
    destruct (Z.to_nat max_retries) as [|todo] eqn:E; [lia|].
    cbn [call_loop]. unfold catch, request. rewrite Hc.
    destruct (Z.eqb_spec 0 (max_retries - 1)) as [|_]; [lia|].
    unfold bind, lift, wait_time, sleep. cbn [Z.ltb Z.compare]. now rewrite Hs.
Qed.

Lemma call_retries_until_answered_witness :
  GPT4O_call (fun _ n => if n <? 2 then Raise EmbeddingFailure else Ok (Some "hello"))
             (fun _ => Ok tt) [("user", "hi")] 5 1%float (mkLine 0 [])
  = (mkLine (0 + 3) ([] ++ waits 1%float 0 2), Ok (Some "hello")).
Proof.
  refine (proj1 (proj1 (call_retries_until_answered
            (fun _ n => if n <? 2 then Raise EmbeddingFailure else Ok (Some "hello"))
            (fun _ => Ok tt) [("user", "hi")] 5 1%float (mkLine 0 [])) _ _)
          2 (Some "hello") _ _ _).
  - reflexivity.
  - lia.
  - lia.
  - reflexivity.
  - intros [|[|i]] Hi; [reflexivity..|lia].
Defined.
